(** * queuectl: the job-queue engine of [queuectl.py]

    A shallow embedding of the scheduling core of the command-line job
    queue: the store path resolution ([_connect]), the clock ([now_iso]),
    the [jobs] table with the SQL statements the program issues against
    it, the claim ([pick_next_job]), the executor wrapper ([execute_job]),
    the body of the worker loop ([process_job]) and the dead-letter
    operations ([dlq_retry]).

    Conventions.
    - The clock is an input: every call of [now_iso()] or
      [datetime.now(timezone.utc)] in the source is one [datetime] argument
      of the embedded function, in the order of the calls.
    - Text columns are kept as the bytes SQLite stores and compares
      (type [string]); the captured output, which Python slices by
      character, is kept as a sequence of code points (type [pystr]).
    - [backoff_base] is read with [float()]; the embedding covers its
      whole-number values, on which binary floating point is exact, and
      keeps them in [Z].
    - The statements of one function run against the table one after the
      other; interleavings of several processes inside one function are
      not modelled. *)

From Stdlib Require Import ZArith List String Ascii Bool Lia DecimalString.
From Stdlib Require Import Permutation Sorted.
Import ListNotations.
Local Open Scope string_scope.
Local Open Scope list_scope.
Local Open Scope Z_scope.

(** ** Python built-ins used by the program *)

Module Py.

(** [s.startswith(p)] *)
Fixpoint startswith (s p : string) : bool :=
  match p with
  | EmptyString => true
  | String c p' =>
      match s with
      | EmptyString => false
      | String d s' => Ascii.eqb d c && startswith s' p'
      end
  end.

(** [s.replace(old, new)] for a non-empty [old]: every occurrence of
    [old], found from left to right without overlap, becomes [new].
    [skip] counts the characters of a matched occurrence that are still
    to be dropped. *)
Fixpoint replace_from (old new : string) (skip : nat) (s : string) : string :=
  match s with
  | EmptyString => EmptyString
  | String c s' =>
      match skip with
      | S k => replace_from old new k s'
      | O =>
          if startswith s old
          then new ++ replace_from old new (Nat.pred (String.length old)) s'
          else String c (replace_from old new O s')
      end
  end.

Definition replace (s old new : string) : string :=
  replace_from old new O s.

(** [str(n)] for an [int]. *)
Definition str_of_int (n : Z) : string :=
  NilZero.string_of_int (Z.to_int n).

(** [x or default] where [x] is [None] or a [str]: the empty string is
    falsy. *)
Definition or_str (x : option string) (default : string) : string :=
  match x with
  | Some (String c s) => String c s
  | Some EmptyString => default
  | None => default
  end.

(** [d.get(key, default)] on a parsed value. *)
Definition get {A : Type} (x : option A) (default : A) : A :=
  match x with
  | Some v => v
  | None => default
  end.

(** A Python [str] as its code points; [s[:n]] is [firstn n s]. *)
Definition pystr := list N.

Definition of_ascii (s : string) : pystr :=
  map N_of_ascii (list_ascii_of_string s).

(** Number of bytes of one code point, and of a text, in UTF-8. *)
Definition utf8_width (c : N) : Z :=
  if (c <? 128)%N then 1
  else if (c <? 2048)%N then 2
  else if (c <? 65536)%N then 3
  else 4.

Definition utf8_len (s : pystr) : Z :=
  fold_right (fun c acc => utf8_width c + acc) 0 s.

(** Exceptions the embedded functions can leave through. *)
Inductive exn : Type :=
| OverflowError
| SystemExit (msg : string).

Inductive result (A : Type) : Type :=
| Return (a : A)
| Raise (e : exn).
Arguments Return {A} a.
Arguments Raise {A} e.

End Py.

(** ** [datetime]: the part of Python's module the program relies on *)

Module Datetime.

Record datetime : Type := mkdt {
  year : Z; month : Z; day : Z;
  hour : Z; minute : Z; second : Z;
  microsecond : Z
}.

Definition MAXORDINAL : Z := 3652059.
Definition DI400Y : Z := 146097.
Definition DI100Y : Z := 36524.
Definition DI4Y : Z := 1461.
Definition US_PER_SECOND : Z := 1000000.
Definition US_PER_DAY : Z := 86400 * US_PER_SECOND.

Definition is_leap (y : Z) : bool :=
  (y mod 4 =? 0) && (negb (y mod 100 =? 0) || (y mod 400 =? 0)).

Definition DAYS_IN_MONTH (m : Z) : Z :=
  nth (Z.to_nat m) [-1; 31; 28; 31; 30; 31; 30; 31; 31; 30; 31; 30; 31] (-1).

Definition DAYS_BEFORE_MONTH (m : Z) : Z :=
  nth (Z.to_nat m) [-1; 0; 31; 59; 90; 120; 151; 181; 212; 243; 273; 304; 334] (-1).

Definition days_in_month (y m : Z) : Z :=
  if (m =? 2) && is_leap y then 29 else DAYS_IN_MONTH m.

Definition days_before_year (y : Z) : Z :=
  let y1 := y - 1 in y1 * 365 + y1 / 4 - y1 / 100 + y1 / 400.

Definition days_before_month (y m : Z) : Z :=
  DAYS_BEFORE_MONTH m + (if (2 <? m) && is_leap y then 1 else 0).

Definition ymd2ord (y m d : Z) : Z :=
  days_before_year y + days_before_month y m + d.

(** The end of [_ord2ymd]: month and day from the day [n] of the year
    (counted from 0): an estimate of the month, one too large at most,
    then the correction. *)
Definition month_and_day (n : Z) (leapyear : bool) : Z * Z :=
  let m := Z.shiftr (n + 50) 5 in
  let preceding :=
    DAYS_BEFORE_MONTH m + (if (2 <? m) && leapyear then 1 else 0) in
  if n <? preceding
  then
    let m' := m - 1 in
    let preceding' :=
      preceding - (DAYS_IN_MONTH m' + (if (m' =? 2) && leapyear then 1 else 0)) in
    (m', n - preceding' + 1)
  else (m, n - preceding + 1).

(** [_ord2ymd]: proleptic Gregorian ordinal (1 is 0001-01-01) to
    (year, month, day). *)
Definition ord2ymd (ordinal : Z) : Z * Z * Z :=
  let n := ordinal - 1 in
  let n400 := n / DI400Y in
  let n := n mod DI400Y in
  let y := n400 * 400 + 1 in
  let n100 := n / DI100Y in
  let n := n mod DI100Y in
  let n4 := n / DI4Y in
  let n := n mod DI4Y in
  let n1 := n / 365 in
  let n := n mod 365 in
  let y := y + n100 * 100 + n4 * 4 + n1 in
  if (n1 =? 4) || (n100 =? 4) then (y - 1, 12, 31)
  else
    let leapyear := (n1 =? 3) && (negb (n4 =? 24) || (n100 =? 3)) in
    let '(m, d) := month_and_day n leapyear in
    (y, m, d).

(** Bounded search: [p] holds on [z], [z + 1], ..., [fuel] values. *)
Fixpoint all_from (fuel : nat) (z : Z) (p : Z -> bool) : bool :=
  match fuel with
  | O => true
  | S f => p z && all_from f (z + 1) p
  end.

(** Range check of the constructor [datetime(...)]. *)
Definition valid (t : datetime) : bool :=
  (1 <=? year t) && (year t <=? 9999)
  && (1 <=? month t) && (month t <=? 12)
  && (1 <=? day t) && (day t <=? days_in_month (year t) (month t))
  && (0 <=? hour t) && (hour t <? 24)
  && (0 <=? minute t) && (minute t <? 60)
  && (0 <=? second t) && (second t <? 60)
  && (0 <=? microsecond t) && (microsecond t <? US_PER_SECOND).

Definition toordinal (t : datetime) : Z :=
  ymd2ord (year t) (month t) (day t).

(** The instant as microseconds counted from the start of ordinal 0:
    [timedelta(toordinal, hours, minutes, seconds, microseconds)]. *)
Definition to_us (t : datetime) : Z :=
  toordinal t * US_PER_DAY
  + ((hour t * 60 + minute t) * 60 + second t) * US_PER_SECOND
  + microsecond t.

(** A [timedelta] is kept as its microseconds; its constructor refuses
    more than 999999999 days either way. *)
Definition timedelta (us : Z) : option Z :=
  if Z.abs (us / US_PER_DAY) <=? 999999999 then Some us else None.

(** [timedelta(seconds=s)] for a whole number of seconds. *)
Definition timedelta_seconds (s : Z) : option Z :=
  timedelta (s * US_PER_SECOND).

(** [t + delta]: [None] stands for [OverflowError]. *)
Definition add (t : datetime) (delta : Z) : option datetime :=
  match timedelta (to_us t + delta) with
  | None => None
  | Some total =>
      let days := total / US_PER_DAY in
      let rest := total mod US_PER_DAY in
      let secs := rest / US_PER_SECOND in
      if (0 <? days) && (days <=? MAXORDINAL)
      then
        let '(y, m, d) := ord2ymd days in
        Some (mkdt y m d (secs / 3600) ((secs mod 3600) / 60) (secs mod 60)
                   (rest mod US_PER_SECOND))
      else None
  end.

(** [t.replace(microsecond=us)] *)
Definition replace_microsecond (t : datetime) (us : Z) : datetime :=
  mkdt (year t) (month t) (day t) (hour t) (minute t) (second t) us.

(** [int(x / 10**6)] for a count [us] of microseconds that is not
    negative: the true division gives the double nearest to the
    quotient, and [int] cuts its fraction. With [n] whole seconds and
    [f] microseconds more, the nearest double is [n + 1] exactly when
    the quotient is at or past the middle between [n + 1] and the double
    before it, which lies [2 ^ (log2 n - 52)] lower. *)
Definition rounds_up (n f : Z) : bool :=
  (0 <? f) && (1 <=? n)
  && ((US_PER_SECOND - f) * 2 ^ (53 - Z.log2 n) <=? US_PER_SECOND).

Definition int_of_seconds (us : Z) : Z :=
  let n := us / US_PER_SECOND in
  let f := us mod US_PER_SECOND in
  if rounds_up n f then n + 1 else n.

(** [int(t.timestamp())] of an aware UTC datetime: the microseconds
    since the epoch (ordinal 719163) divided by [10**6] as a float,
    the fraction cut towards zero. *)
Definition timestamp_int (t : datetime) : Z :=
  let us := to_us t - 719163 * US_PER_DAY in
  Z.sgn us * int_of_seconds (Z.abs us).

Definition digit (n : Z) : ascii :=
  ascii_of_nat (48 + Z.to_nat (n mod 10)).

(** ["%0wd" % n] for [0 <= n < 10^w]. *)
Fixpoint zpad (w : nat) (n : Z) : string :=
  match w with
  | O => EmptyString
  | S w' => zpad w' (n / 10) ++ String (digit n) EmptyString
  end.

(** [t.isoformat(sep)] of an aware UTC datetime: the fraction is
    printed only when it is not zero, the offset is always [+00:00]. *)
Definition isoformat (sep : ascii) (t : datetime) : string :=
  zpad 4 (year t) ++ "-" ++ zpad 2 (month t) ++ "-" ++ zpad 2 (day t)
  ++ String sep
       (zpad 2 (hour t) ++ ":" ++ zpad 2 (minute t) ++ ":" ++ zpad 2 (second t)
        ++ (if microsecond t =? 0 then "" else "." ++ zpad 6 (microsecond t))
        ++ "+00:00").

(** The default adapter of [sqlite3] for a [datetime] bound as a
    statement parameter: [val.isoformat(" ")]. *)
Definition adapt_datetime (t : datetime) : string :=
  isoformat " " t.

(** The facts about [month_and_day] that are checked day by day. *)
Definition month_and_day_check (leapyear : bool) (n : Z) : bool :=
  let '(m, d) := month_and_day n leapyear in
  (1 <=? m) && (m <=? 12) && (1 <=? d)
  && (d <=? DAYS_IN_MONTH m + (if (m =? 2) && leapyear then 1 else 0))
  && (DAYS_BEFORE_MONTH m + (if (2 <? m) && leapyear then 1 else 0) + d =? n + 1).

End Datetime.

(** ** The store path: [DATABASE_URL], [QUEUECTL_DB] and [_connect] *)

Module Connect.

(** The two variables of the process environment the module reads
    (after [load_dotenv()]); [None] is an unset variable. *)
Record environ : Type := mkenv {
  env_DATABASE_URL : option string;
  env_QUEUECTL_DB : option string
}.

(** [os.getenv(name, default)] *)
Definition getenv (value : option string) (default : string) : string :=
  Py.get value default.

Definition DATABASE_URL (e : environ) : string :=
  getenv (env_DATABASE_URL e) "sqlite:///queuectl.db".

Definition QUEUECTL_DB (e : environ) : string :=
  getenv (env_QUEUECTL_DB e) "queuectl.db".

(** [_connect]: the path handed to [sqlite3.connect]. *)
Definition _connect (e : environ) : string :=
  let db_path := QUEUECTL_DB e in
  if Py.startswith db_path "sqlite:///"
  then Py.replace db_path "sqlite:///" ""
  else if Py.startswith (DATABASE_URL e) "sqlite:///"
       then Py.replace (DATABASE_URL e) "sqlite:///" ""
       else db_path.

End Connect.

(** ** The [jobs] table and the operations on it *)

Module Queue.
Import Py Datetime.

Inductive job_state : Type :=
| pending | processing | completed | failed | dead.

Definition state_eqb (a b : job_state) : bool :=
  match a, b with
  | pending, pending | processing, processing | completed, completed
  | failed, failed | dead, dead => true
  | _, _ => false
  end.

(** One row of [jobs], column by column. *)
Record job : Type := mkjob {
  id : string;
  command : string;
  state : job_state;
  attempts : Z;
  max_retries : Z;
  created_at : string;
  updated_at : string;
  due_at : string;
  last_error : option string;
  output : option pystr;
  priority : Z;
  picked_by : option string
}.

(** The table: its rows in rowid order. [id] is the primary key. *)
Definition table : Type := list job.

(** [UPDATE jobs SET ... WHERE ...] and the rows its [RETURNING]
    clause yields (the rows after the update). *)
Definition UPDATE (where_ : job -> bool) (set : job -> job) (t : table) : table :=
  map (fun r => if where_ r then set r else r) t.

Definition RETURNING (where_ : job -> bool) (set : job -> job) (t : table) : list job :=
  map set (filter where_ t).

(** [ORDER BY]: a stable insertion sort under the comparison. Rows
    that compare equal stay in the order of the table; the statement
    itself fixes no order among them, and no property below depends on
    one. *)
Fixpoint insert_by (leb : job -> job -> bool) (x : job) (l : list job) : list job :=
  match l with
  | [] => [x]
  | y :: l' => if leb x y then x :: l else y :: insert_by leb x l'
  end.

Definition ORDER_BY (leb : job -> job -> bool) (l : list job) : list job :=
  fold_right (insert_by leb) [] l.

(** [state IN ('pending', 'failed')] *)
Definition claimable (r : job) : bool :=
  state_eqb (state r) pending || state_eqb (state r) failed.

(** [WHERE state IN ('pending', 'failed') AND due_at <= ?]: the
    comparison of two texts, byte by byte. *)
Definition eligible (now : string) (r : job) : bool :=
  claimable r && String.leb (due_at r) now.

(** [ORDER BY priority DESC, due_at ASC, created_at ASC] *)
Definition order_leb (a b : job) : bool :=
  match priority b ?= priority a with
  | Lt => true
  | Gt => false
  | Eq =>
      match String.compare (due_at a) (due_at b) with
      | Lt => true
      | Gt => false
      | Eq => String.leb (created_at a) (created_at b)
      end
  end.

(** [now_iso]: the clock reading cut to the second, in ISO form with
    the UTC offset written [Z]. *)
Definition now_iso (clock : datetime) : string :=
  Py.replace (isoformat "T" (replace_microsecond clock 0)) "+00:00" "Z".

(** The [dict] built from the row that [pick_next_job] returns. *)
Record job_dict : Type := mkdict {
  d_id : string;
  d_command : string;
  d_attempts : Z;
  d_max_retries : Z;
  d_state : job_state;
  d_last_error : option string
}.

Definition dict (r : job) : job_dict :=
  mkdict (id r) (command r) (attempts r) (max_retries r) (state r) (last_error r).

(** *** [enqueue_job] *)

(** The parsed submission: the keys of the JSON object the function
    looks at, [None] for a key that is not there. A key that is there
    holds what the help of the command line names for it: a string for
    [id], [command] and [run_at], a whole number for [max_retries] and
    [priority]; [command] may also hold [null], which is [Some None]. *)
Record submission : Type := mksub {
  j_id : option string;
  j_command : option (option string);
  j_run_at : option string;
  j_max_retries : option Z;
  j_priority : option Z
}.

(** What [sqlite3] binds as an [INTEGER]: a Python [int] outside 64
    bits raises [OverflowError] before the statement runs. *)
Definition in_int64 (z : Z) : bool :=
  (- 2 ^ 63 <=? z) && (z <? 2 ^ 63).

Definition has_id (i : string) (t : table) : bool :=
  existsb (fun r => String.eqb (id r) i) t.

(** [cfg_max_retries] is [int(cfg["max_retries"])]; [clock_ts] and
    [clock] are the readings behind [now_ts] and [created]. The
    [INSERT] binds its parameters first ([OverflowError] for a number
    outside 64 bits, which nothing catches), then fails with
    [sqlite3.IntegrityError] on a [null] command ([NOT NULL]) or a known
    id ([PRIMARY KEY]); the handler reports both as a known id. The
    table of the embedding keeps [due_at] as the text given: it covers
    the values the column stores as text (see [stored_as_text]). *)
Definition enqueue_job (sub : submission) (cfg_max_retries : Z)
           (clock_ts clock : datetime) (t : table) : table * result string :=
  match j_command sub with
  | None => (t, Raise (SystemExit "Job must include 'command'."))
  | Some command =>
      let now_ts := timestamp_int clock_ts in
      let job_id := or_str (j_id sub) ("job-" ++ str_of_int now_ts)%string in
      let created := now_iso clock in
      let due := or_str (j_run_at sub) created in
      let max_retries := Py.get (j_max_retries sub) cfg_max_retries in
      let priority := Py.get (j_priority sub) 0 in
      let exists_ :=
        (t, Raise (SystemExit ("Job with id '" ++ job_id ++ "' already exists.")%string)) in
      if in_int64 max_retries && in_int64 priority
      then
        match command with
        | None => exists_
        | Some cmd =>
            let row :=
              mkjob job_id cmd pending 0 max_retries
                    created created due None None priority None in
            if has_id job_id t
            then exists_
            else (t ++ [row], Return ("Enqueued job " ++ job_id)%string)
        end
      else (t, Raise OverflowError)
  end.

(** *** [calculate_backoff_delay] and [pick_next_job] *)

(** [base ** attempts]; the only call passes the count after the
    increment, which is at least 1 for a job that was enqueued. *)
Definition calculate_backoff_delay (attempts base : Z) : Z :=
  base ^ attempts.

Definition set_processing (worker_id now : string) (r : job) : job :=
  mkjob (id r) (command r) processing (attempts r) (max_retries r)
        (created_at r) now (due_at r) (last_error r) (output r) (priority r)
        (Some worker_id).

Definition pick_next_job (worker_id : string) (clock : datetime) (t : table)
  : table * option job_dict :=
  let now := now_iso clock in
  match hd_error (ORDER_BY order_leb (filter (eligible now) t)) with
  | None => (t, None)
  | Some found =>
      let where_ r := String.eqb (id r) (id found) && claimable r in
      let set := set_processing worker_id now in
      match RETURNING where_ set t with
      | result :: _ => (UPDATE where_ set t, Some (dict result))
      | [] => (UPDATE where_ set t, None)
      end
  end.

(** *** [execute_job] *)

(** What [subprocess.run] did: it returned, it timed out, or it raised
    some other exception whose [str()] is [msg]. *)
Inductive run_outcome : Type :=
| CompletedProcess (returncode : Z) (stdout stderr : pystr)
| TimeoutExpired
| OtherException (msg : string).

(** [execute_job]: [(success, output, error)] from what [subprocess.run]
    did with the job's command under [timeout]. *)
Definition execute_job (run : run_outcome) (timeout : Z)
  : bool * pystr * option string :=
  match run with
  | CompletedProcess returncode stdout stderr =>
      let out := (stdout ++ stderr)%list in
      let success := returncode =? 0 in
      (success, out,
       if success then None
       else Some ("Command failed with exit code " ++ str_of_int returncode)%string)
  | TimeoutExpired =>
      (false, [], Some ("Job timed out after " ++ str_of_int timeout ++ " seconds")%string)
  | OtherException msg => (false, [], Some msg)
  end.

(** *** [process_job]: the body of the worker loop *)

Definition OUTPUT_LIMIT : nat := Z.to_nat 10000.

Definition set_completed (now : string) (out : pystr) (r : job) : job :=
  mkjob (id r) (command r) completed (attempts r + 1) (max_retries r)
        (created_at r) now (due_at r) None (Some out) (priority r) None.

Definition set_dead (new_attempts : Z) (now : string) (error : option string)
           (r : job) : job :=
  mkjob (id r) (command r) dead new_attempts (max_retries r)
        (created_at r) now (due_at r) error (output r) (priority r) None.

Definition set_failed (new_attempts : Z) (now due : string)
           (error : option string) (r : job) : job :=
  mkjob (id r) (command r) failed new_attempts (max_retries r)
        (created_at r) now due error (output r) (priority r) None.

(** The transition after the execution, from [now = now_iso()] to the
    end of the [with conn:] block. [clock] is the reading behind
    [now_iso()]; [clock_retry] the one behind the
    [datetime.now(timezone.utc)] of the retry branch, which rebinds
    [now] to the [datetime] itself. *)
Definition process_job_commit (j : job_dict)
           (executed : bool * pystr * option string)
           (clock clock_retry : datetime) (backoff_base : Z) (t : table)
  : result table :=
  let job_id := d_id j in
  let attempts := d_attempts j in
  let max_retries := d_max_retries j in
  let '(success, out, error) := executed in
  let now := now_iso clock in
  let where_ r := String.eqb (id r) job_id in
  if success
  then Return (UPDATE where_ (set_completed now (firstn OUTPUT_LIMIT out)) t)
  else
    let new_attempts := attempts + 1 in
    if new_attempts >? max_retries
    then Return (UPDATE where_ (set_dead new_attempts now error) t)
    else
      let delay_seconds := calculate_backoff_delay new_attempts backoff_base in
      let now := clock_retry in
      match timedelta_seconds delay_seconds with
      | None => Raise OverflowError
      | Some delta =>
          match Datetime.add now delta with
          | None => Raise OverflowError
          | Some due =>
              let due_at := Py.replace (isoformat "T" due) "+00:00" "Z" in
              Return (UPDATE where_
                        (set_failed new_attempts (adapt_datetime now) due_at error) t)
          end
      end.

(** What the environment supplies to one turn of the loop. *)
Record turn : Type := mkturn {
  clock_pick : datetime;
  run : run_outcome;
  clock_commit : datetime;
  clock_retry : datetime
}.

(** One turn of [while not shutdown_event.is_set()]: [None] in the
    second component when nothing was claimed (the worker sleeps). An
    exception leaves the table as the claim left it. *)
Definition process_job (worker_id : string) (timeout backoff_base : Z)
           (env : turn) (t : table) : table * option (job_dict * result unit) :=
  match pick_next_job worker_id (clock_pick env) t with
  | (t1, None) => (t1, None)
  | (t1, Some j) =>
      match process_job_commit j (execute_job (run env) timeout)
                               (clock_commit env) (clock_retry env) backoff_base t1 with
      | Return t2 => (t2, Some (j, Return tt))
      | Raise e => (t1, Some (j, Raise e))
      end
  end.

(** *** [dlq_retry] *)

Definition set_retry (due now : string) (r : job) : job :=
  mkjob (id r) (command r) pending 0 (max_retries r)
        (created_at r) now due None (output r) (priority r) None.

(** [clock_due] and [clock_updated] are the readings of the two
    [now_iso()] calls in the parameter tuple, in that order. Leaving
    the [with conn:] block through [sys.exit] rolls the transaction
    back. *)
Definition dlq_retry (job_id : string) (clock_due clock_updated : datetime)
           (t : table) : table * result string :=
  let where_ r := String.eqb (id r) job_id && state_eqb (state r) dead in
  let set := set_retry (now_iso clock_due) (now_iso clock_updated) in
  match RETURNING where_ set t with
  | [] => (t, Raise (SystemExit ("Job '" ++ job_id ++ "' not found in DLQ")%string))
  | _ :: _ =>
      (UPDATE where_ set t,
       Return ("Reset job '" ++ job_id ++ "' to pending (will retry from beginning)")%string)
  end.

End Queue.

(** ** The system the operators and the workers drive *)

Module System.
Import Py Datetime Queue.

(** The table together with the claimed jobs the workers hold between
    [pick_next_job] and the end of their transition. *)
Record system : Type := mksys {
  store : table;
  held : list (string * job_dict)
}.

Definition initial : system := mksys [] [].

(** One operation of an operator or of a worker. A worker whose
    transition raises dies with the job it held: the table keeps the
    row as claimed. *)
Inductive step : system -> system -> Prop :=
| step_enqueue (s : system) sub cfg_max_retries clock_ts clock :
    step s (mksys (fst (enqueue_job sub cfg_max_retries clock_ts clock (store s)))
                  (held s))
| step_claim (s : system) worker_id clock t' j :
    pick_next_job worker_id clock (store s) = (t', Some j) ->
    step s (mksys t' ((worker_id, j) :: held s))
| step_idle (s : system) worker_id clock t' :
    pick_next_job worker_id clock (store s) = (t', None) ->
    step s (mksys t' (held s))
| step_commit (s : system) before after worker_id j run timeout
              clock clock_retry backoff_base t' :
    held s = (before ++ (worker_id, j) :: after)%list ->
    process_job_commit j (execute_job run timeout) clock clock_retry
                       backoff_base (store s) = Return t' ->
    step s (mksys t' (before ++ after))
| step_crash (s : system) before after worker_id j run timeout
             clock clock_retry backoff_base e :
    held s = (before ++ (worker_id, j) :: after)%list ->
    process_job_commit j (execute_job run timeout) clock clock_retry
                       backoff_base (store s) = Raise e ->
    step s (mksys (store s) (before ++ after))
| step_dlq_retry (s : system) job_id clock_due clock_updated :
    step s (mksys (fst (dlq_retry job_id clock_due clock_updated (store s)))
                  (held s)).

Inductive reachable : system -> Prop :=
| reachable_initial : reachable initial
| reachable_step s s' : reachable s -> step s s' -> reachable s'.

(** I1 on one table: a row is [processing] exactly when somebody
    picked it. *)
Definition exclusive_claim (t : table) : Prop :=
  forall r, In r t -> (state r = processing <-> picked_by r <> None).

(** The primary key. *)
Definition unique_ids (t : table) : Prop := NoDup (map id t).

(** [n] executions of the job [job_id] that all fail, each one a turn
    of some worker's loop that claimed this job; in between, turns
    that claim nothing or another job. *)
Inductive failing_executions (job_id : string) (timeout backoff_base : Z)
  : nat -> table -> table -> Prop :=
| fe_start t : failing_executions job_id timeout backoff_base O t t
| fe_fail n t t1 t2 worker_id env j res :
    failing_executions job_id timeout backoff_base n t t1 ->
    process_job worker_id timeout backoff_base env t1 = (t2, Some (j, res)) ->
    d_id j = job_id ->
    fst (fst (execute_job (run env) timeout)) = false ->
    failing_executions job_id timeout backoff_base (S n) t t2
| fe_other n t t1 t2 worker_id env j res :
    failing_executions job_id timeout backoff_base n t t1 ->
    process_job worker_id timeout backoff_base env t1 = (t2, Some (j, res)) ->
    d_id j <> job_id ->
    failing_executions job_id timeout backoff_base n t t2
| fe_sleep n t t1 t2 worker_id env :
    failing_executions job_id timeout backoff_base n t t1 ->
    process_job worker_id timeout backoff_base env t1 = (t2, None) ->
    failing_executions job_id timeout backoff_base n t t2.

(** The columns [created_at], [updated_at] and [due_at] are declared
    [TIMESTAMP WITH TIME ZONE], a type name that gives a column of
    SQLite the affinity NUMERIC: a text that reads as a number (blanks,
    a sign, digits, a point, an exponent) is stored as that number, and
    every other text as it is. A text holding a character that no number
    has is therefore stored as text, which is what a [due_at] of the
    embedding stands for. *)
Definition number_char (c : ascii) : bool :=
  let n := nat_of_ascii c in
  ((48 <=? n) && (n <=? 57))%nat
  || existsb (Nat.eqb n) [9; 10; 11; 12; 13; 32; 43; 45; 46; 69; 101]%nat.

Definition stored_as_text (s : string) : bool :=
  existsb (fun c => negb (number_char c)) (list_ascii_of_string s).

(** The canonical timestamp form [YYYY-MM-DDTHH:MM:SSZ]. *)
Definition is_digit (c : ascii) : bool :=
  (48 <=? nat_of_ascii c)%nat && (nat_of_ascii c <=? 57)%nat.

Definition canonical (s : string) : bool :=
  match list_ascii_of_string s with
  | [y1; y2; y3; y4; h1; m1; m2; h2; d1; d2; tee;
     hh1; hh2; c1; mi1; mi2; c2; s1; s2; zed] =>
      is_digit y1 && is_digit y2 && is_digit y3 && is_digit y4
      && Ascii.eqb h1 "-" && is_digit m1 && is_digit m2
      && Ascii.eqb h2 "-" && is_digit d1 && is_digit d2
      && Ascii.eqb tee "T" && is_digit hh1 && is_digit hh2
      && Ascii.eqb c1 ":" && is_digit mi1 && is_digit mi2
      && Ascii.eqb c2 ":" && is_digit s1 && is_digit s2
      && Ascii.eqb zed "Z"
  | _ => false
  end.

(** The ordering key [(-priority, due_at, created_at)], compared
    lexicographically. *)
Definition key_le (a b : job) : Prop :=
  - priority a < - priority b
  \/ (- priority a = - priority b
      /\ (String.ltb (due_at a) (due_at b) = true
          \/ (due_at a = due_at b
              /\ String.leb (created_at a) (created_at b) = true))).

(** The columns that only the insert assigns. *)
Definition same_submission (r r' : job) : Prop :=
  id r' = id r /\ command r' = command r /\ max_retries r' = max_retries r
  /\ created_at r' = created_at r /\ priority r' = priority r.

(** [t'] is [t] row by row: the rows that [where_] selects changed as
    [P] says, every other row as it was. *)
Definition rows_changed (where_ : job -> bool) (P : job -> job -> Prop)
           (t t' : table) : Prop :=
  Forall2 (fun r r' => if where_ r then P r r' else r' = r) t t'.

Definition has_id_of (job_id : string) (r : job) : bool :=
  String.eqb (id r) job_id.

(** [now + timedelta(seconds=s)], [None] for [OverflowError]. *)
Definition plus_seconds (now : datetime) (s : Z) : option datetime :=
  match timedelta_seconds s with
  | None => None
  | Some delta => Datetime.add now delta
  end.

(** Where the job stands after [n] failing executions, [M] being its
  [max_retries]: still to be retried, left [processing] by a worker
  whose transition raised, or dead. *)
Inductive standing (M : Z) (n : nat) (r : job) : Prop :=
| standing_retry :
  claimable r = true -> attempts r = Z.of_nat n -> Z.of_nat n <= M -> standing M n r
| standing_stuck :
  state r = processing -> Z.of_nat n <= M -> standing M n r
| standing_dead :
  state r = dead -> attempts r = Z.of_nat n -> Z.of_nat n = M + 1 -> standing M n r.

(** [WHERE id = ? AND state = 'dead'] *)
Definition in_dlq (job_id : string) (r : job) : bool :=
  String.eqb (id r) job_id && state_eqb (state r) dead.

End System.

(** ** The [config] table: [DEFAULTS], [init_db], [get_config], [set_config] *)

Module Config.
Import Py.

(** A Python [dict] from [str] to [str], in insertion order, and the
    rows of [config] (key, value) in rowid order; [key] is the primary
    key. *)
Definition pydict : Type := list (string * string).
Definition config_table : Type := list (string * string).

(** [k in d] *)
Definition dict_has (d : pydict) (k : string) : bool :=
  existsb (fun kv => String.eqb (fst kv) k) d.

(** [d.get(k)] *)
Fixpoint dict_get (d : pydict) (k : string) : option string :=
  match d with
  | [] => None
  | (k', v) :: d' => if String.eqb k' k then Some v else dict_get d' k
  end.

(** [d[k] = v]: a present key keeps its place, a new one goes last. *)
Fixpoint dict_set (d : pydict) (k v : string) : pydict :=
  match d with
  | [] => [(k, v)]
  | (k', v') :: d' =>
      if String.eqb k' k then (k', v) :: d' else (k', v') :: dict_set d' k v
  end.

(** [{**d, **more}], and the comprehension [{r["key"]: r["value"] for r in rows}]. *)
Definition dict_merge (d more : pydict) : pydict :=
  fold_left (fun acc kv => dict_set acc (fst kv) (snd kv)) more d.

Definition dict_of_rows (rows : config_table) : pydict :=
  dict_merge [] rows.

Definition DEFAULTS : pydict :=
  [("max_retries", "3"); ("backoff_base", "2");
   ("poll_interval", "0.5"); ("job_timeout", "120")].

(** [INSERT INTO config(key, value) VALUES(?, ?) ON CONFLICT (key) DO NOTHING] *)
Definition insert_or_ignore (k v : string) (t : config_table) : config_table :=
  if dict_has t k then t else t ++ [(k, v)].

(** The seeding loop of [init_db] over [DEFAULTS.items()]. *)
Definition init_db (t : config_table) : config_table :=
  fold_left (fun acc kv => insert_or_ignore (fst kv) (snd kv) acc) DEFAULTS t.

(** [get_config] *)
Definition get_config (t : config_table) : pydict :=
  dict_merge DEFAULTS (dict_of_rows t).

(** [INSERT ... ON CONFLICT(key) DO UPDATE SET value=excluded.value] *)
Definition upsert (k v : string) (t : config_table) : config_table :=
  if dict_has t k
  then map (fun kv => if String.eqb (fst kv) k then (fst kv, v) else kv) t
  else t ++ [(k, v)].

(** [set_config] *)
Definition set_config (key value : string) (t : config_table)
  : config_table * result unit :=
  if dict_has DEFAULTS key
  then (upsert key value t, Return tt)
  else (t, Raise (SystemExit ("Unknown config key: " ++ key)%string)).

(** The primary key of [config]. *)
Definition unique_keys (t : config_table) : Prop := NoDup (map fst t).

End Config.

(** ** The [workers] table and the statements of the supervisor and the workers *)

Module Workers.
Import Py Datetime Queue.

Inductive worker_status : Type :=
| starting | running | stopped.

Definition status_eqb (a b : worker_status) : bool :=
  match a, b with
  | starting, starting | running, running | stopped, stopped => true
  | _, _ => false
  end.

Record worker : Type := mkworker {
  w_id : string;
  w_pid : Z;
  w_status : worker_status;
  w_started_at : string;
  w_heartbeat_at : string;
  w_stopped_at : option string
}.

Definition workers_table : Type := list worker.

Definition UPDATE_workers (where_ : worker -> bool) (set : worker -> worker)
           (t : workers_table) : workers_table :=
  map (fun w => if where_ w then set w else w) t.

(** The [INSERT INTO workers] of [start_workers], with the two
    [now_iso()] readings of its parameter tuple; [None] is the
    [sqlite3.IntegrityError] of a taken id, which nothing catches. *)
Definition register_worker (worker_id : string) (pid : Z)
           (clock_started clock_heartbeat : datetime) (t : workers_table)
  : option workers_table :=
  if existsb (fun w => String.eqb (w_id w) worker_id) t
  then None
  else Some (t ++ [mkworker worker_id pid starting (now_iso clock_started)
                            (now_iso clock_heartbeat) None]).

(** [UPDATE workers SET pid = ?, status = 'running' WHERE id = ?] *)
Definition mark_running (worker_id : string) (pid : Z) (t : workers_table)
  : workers_table :=
  UPDATE_workers (fun w => String.eqb (w_id w) worker_id)
    (fun w => mkworker (w_id w) pid running (w_started_at w) (w_heartbeat_at w)
                       (w_stopped_at w)) t.

(** One round of [heartbeat_loop]:
    [UPDATE workers SET heartbeat_at = ? WHERE id = ?] *)
Definition heartbeat (worker_id : string) (clock : datetime) (t : workers_table)
  : workers_table :=
  UPDATE_workers (fun w => String.eqb (w_id w) worker_id)
    (fun w => mkworker (w_id w) (w_pid w) (w_status w) (w_started_at w)
                       (now_iso clock) (w_stopped_at w)) t.

Definition set_stopped (now : string) (w : worker) : worker :=
  mkworker (w_id w) (w_pid w) stopped (w_started_at w) (w_heartbeat_at w) (Some now).

(** The [finally] of [worker_process]:
    [UPDATE workers SET status = 'stopped', stopped_at = ? WHERE id = ?] *)
Definition worker_exit (worker_id : string) (clock : datetime) (t : workers_table)
  : workers_table :=
  UPDATE_workers (fun w => String.eqb (w_id w) worker_id)
    (set_stopped (now_iso clock)) t.

(** One pass of the loop of [start_workers]: the row is inserted with
    the parent's pid, the child is started, the row gets the child's
    pid. *)
Record spawn : Type := mkspawn {
  sp_id : string;
  sp_parent_pid : Z;
  sp_child_pid : Z;
  sp_started : datetime;
  sp_heartbeat : datetime
}.

Definition start_worker (sp : spawn) (t : workers_table) : option workers_table :=
  match register_worker (sp_id sp) (sp_parent_pid sp) (sp_started sp)
                        (sp_heartbeat sp) t with
  | None => None
  | Some t1 => Some (mark_running (sp_id sp) (sp_child_pid sp) t1)
  end.

(** The database side of [start_workers(count)]: one [spawn] per
    worker, in order; the first taken id ends it. *)
Fixpoint start_workers (spawns : list spawn) (t : workers_table)
  : option workers_table :=
  match spawns with
  | [] => Some t
  | sp :: rest =>
      match start_worker sp t with
      | None => None
      | Some t1 => start_workers rest t1
      end
  end.

(** The database side of [stop_workers]: [registry_empty] says whether
    [_worker_processes] is empty; the message is what it prints last. *)
Definition stop_workers (registry_empty : bool) (clock : datetime)
           (t : workers_table) : workers_table * string :=
  let workers := filter (fun w => status_eqb (w_status w) running) t in
  match workers with
  | [] =>
      if registry_empty then (t, "No workers running")
      else (UPDATE_workers (fun w => status_eqb (w_status w) running)
                           (set_stopped (now_iso clock)) t, "Stopped workers")
  | _ :: _ =>
      (UPDATE_workers (fun w => status_eqb (w_status w) running)
                      (set_stopped (now_iso clock)) t, "Stopped workers")
  end.

(** [SELECT ... FROM workers WHERE status != 'stopped'] *)
Definition not_stopped (t : workers_table) : list worker :=
  filter (fun w => negb (status_eqb (w_status w) stopped)) t.

End Workers.

(** ** What the listing commands read: [list_jobs], [status_summary], [dlq_list] *)

Module Reports.
Import Py Datetime Queue Workers.

(** The text of the [state] column. *)
Definition state_name (s : job_state) : string :=
  match s with
  | pending => "pending"
  | processing => "processing"
  | completed => "completed"
  | failed => "failed"
  | dead => "dead"
  end.

Definition status_name (s : worker_status) : string :=
  match s with
  | starting => "starting"
  | running => "running"
  | stopped => "stopped"
  end.

(** The rows [list_jobs(state)] prints, one line each: all of them
    when [state] is [None] or empty, else those with [state = ?]. An
    empty result prints [(no jobs)]. The statement has no [ORDER BY];
    the rows are kept in the order of the table. *)
Definition list_jobs (state_arg : option string) (t : table) : list job :=
  match state_arg with
  | None => t
  | Some EmptyString => t
  | Some s => filter (fun r => String.eqb (state_name (state r)) s) t
  end.

(** The count of one state in the [GROUP BY state] query, read with
    [counts.get(st, 0)]. *)
Definition count_state (st : job_state) (t : table) : Z :=
  Z.of_nat (List.length (filter (fun r => state_eqb (state r) st) t)).

(** [format(s, "<w")] for ASCII text. *)
Definition ljust (w : nat) (s : string) : string :=
  (s ++ string_of_list_ascii (repeat " "%char (w - String.length s)))%string.

Definition newline : string := String (ascii_of_nat 10) EmptyString.

(** The job half of [status_summary]: the running total and the lines
    printed so far, state by state. *)
Definition count_lines (t : table) : Z * list string :=
  fold_left
    (fun acc st =>
       let c := count_state st t in
       (fst acc + c,
        snd acc ++ ["  " ++ ljust 10 (state_name st) ++ ": " ++ str_of_int c]%string))
    [pending; processing; completed; failed; dead]
    (0, []).

Definition worker_line (w : worker) : string :=
  ("  " ++ w_id w ++ " pid=" ++ str_of_int (w_pid w) ++ " status="
   ++ status_name (w_status w) ++ " hb=" ++ w_heartbeat_at w)%string.

(** [status_summary]: the arguments of its [print] calls, in order. *)
Definition status_summary (t : table) (ws : workers_table) : list string :=
  let '(total, lines) := count_lines t in
  ["Jobs:"] ++ lines ++ ["  total     : " ++ str_of_int total]%string
  ++ [(newline ++ "Workers:")%string]
  ++ match not_stopped ws with
     | [] => ["  (none running)"]
     | w :: rest => map worker_line (w :: rest)
     end.

(** [ORDER BY updated_at DESC] *)
Definition updated_desc (a b : job) : bool :=
  String.leb (updated_at b) (updated_at a).

(** The rows [dlq_list] prints; an empty result prints
    [(no jobs in DLQ)]. The statement fixes no order among rows of
    equal [updated_at]. *)
Definition dlq_list (t : table) : list job :=
  ORDER_BY updated_desc (filter (fun r => state_eqb (state r) dead) t).

Definition dlq_header (t : table) : string :=
  match dlq_list t with
  | [] => "(no jobs in DLQ)"
  | jobs => ("Dead Letter Queue (" ++ str_of_int (Z.of_nat (List.length jobs))
             ++ " jobs):")%string
  end.

End Reports.

(** ** What holds of the rows and of the held jobs along the way *)

Module Lifecycle.
Import Py Datetime Queue System.

(** The worker [w] holds [j]: the row of that id is [processing],
    picked by [w], and the counters of the [dict] are the row's. *)
Definition holds (t : table) (w : string) (j : job_dict) : Prop :=
  exists r,
    In r t /\ id r = d_id j /\ state r = processing /\ picked_by r = Some w
    /\ attempts r = d_attempts j /\ max_retries r = d_max_retries j.

Definition held_ids (s : system) : list string :=
  map (fun wj => d_id (snd wj)) (held s).

Definition held_consistent (s : system) : Prop :=
  (forall w j, In (w, j) (held s) -> holds (store s) w j)
  /\ NoDup (held_ids s).

(** What each state says about the other columns of its row. *)
Definition row_ok (r : job) : Prop :=
  match state r with
  | pending =>
      attempts r = 0 /\ last_error r = None /\ picked_by r = None /\ output r = None
  | processing =>
      0 <= attempts r <= Z.max 0 (max_retries r)
      /\ picked_by r <> None /\ output r = None
  | failed =>
      1 <= attempts r <= max_retries r
      /\ last_error r <> None /\ picked_by r = None /\ output r = None
  | dead =>
      attempts r = Z.max 1 (max_retries r + 1)
      /\ last_error r <> None /\ picked_by r = None /\ output r = None
  | completed =>
      1 <= attempts r <= Z.max 1 (max_retries r + 1)
      /\ last_error r = None /\ picked_by r = None
      /\ exists o, output r = Some o /\ Z.of_nat (List.length o) <= 10000
  end.

Definition rows_ok (t : table) : Prop := forall r, In r t -> row_ok r.

Definition invariant (s : system) : Prop :=
  unique_ids (store s) /\ held_consistent s /\ rows_ok (store s).

(** One move of a job along its life: claimed, completed, sent to
    retry, buried in the dead-letter queue, re-admitted from it. *)
Inductive moves (r r' : job) : Prop :=
| moves_claim :
    claimable r = true -> state r' = processing -> picked_by r' <> None ->
    attempts r' = attempts r -> due_at r' = due_at r -> output r' = output r ->
    moves r r'
| moves_complete :
    state r = processing -> state r' = completed ->
    attempts r' = attempts r + 1 -> due_at r' = due_at r -> moves r r'
| moves_retry :
    state r = processing -> state r' = failed ->
    attempts r' = attempts r + 1 -> attempts r' <= max_retries r ->
    output r' = output r -> moves r r'
| moves_bury :
    state r = processing -> state r' = dead ->
    attempts r' = attempts r + 1 -> attempts r' > max_retries r ->
    due_at r' = due_at r -> output r' = output r -> moves r r'
| moves_readmit :
    state r = dead -> state r' = pending -> attempts r' = 0 ->
    output r' = output r -> moves r r'.

(** Any number of operations, one after the other. *)
Inductive steps : system -> system -> Prop :=
| steps_none s : steps s s
| steps_more s s' s'' : steps s s' -> step s' s'' -> steps s s''.

(** The three stamps of a row have the canonical form. *)
Definition stamps_canonical (r : job) : Prop :=
  canonical (created_at r) = true /\ canonical (updated_at r) = true
  /\ canonical (due_at r) = true.

(** A row is carried over one operation: it is still there, with the
    columns of its submission, as it was or after one move. *)
Definition carried (t' : table) (r : job) : Prop :=
  exists r', In r' t' /\ same_submission r r' /\ (r' = r \/ moves r r').

End Lifecycle.

(** ** A short run: one job enqueued, claimed and completed *)

Module Scenario.
Import Py Datetime Queue System.

Definition submitted : submission :=
  mksub (Some "j1") (Some (Some "echo ok")) None None (Some 4).

Definition s1 : system :=
  mksys (fst (enqueue_job submitted 3 (mkdt 2024 1 1 12 0 0 100)
                          (mkdt 2024 1 1 12 0 0 200) (store initial)))
        (held initial).

Definition claim1 : table * option job_dict :=
  pick_next_job "worker-1" (mkdt 2024 1 1 12 0 1 0) (store s1).

Definition j1 : job_dict :=
  mkdict "j1" "echo ok" 0 3 processing None.

Definition s2 : system := mksys (fst claim1) [("worker-1", j1)].

Definition ok_run : run_outcome := CompletedProcess 0 (of_ascii "ok") [].

Definition s3 : system :=
  mksys [mkjob "j1" "echo ok" completed 1 3 "2024-01-01T12:00:00Z"
               "2024-01-01T12:00:02Z" "2024-01-01T12:00:00Z" None
               (Some (of_ascii "ok")) 4 None]
        [].

End Scenario.

(** ** Text and time: what the comparisons of the store come down to *)

Module Order.
Import Py Datetime.

(** [old in s] *)
Fixpoint contains (s old : string) : bool :=
  match s with
  | EmptyString => startswith s old
  | String c s' => startswith s old || contains s' old
  end.

(** The whole seconds of an instant, counted from the start of
    ordinal 0. *)
Definition seconds (t : datetime) : Z := to_us t / US_PER_SECOND.

(** The printed fields of a stamp, most significant first, and their
    lexicographic comparison. *)
Definition fields (t : datetime) : list Z :=
  [year t; month t; day t; hour t; minute t; second t].

Fixpoint lex_compare (a b : list Z) : comparison :=
  match a, b with
  | x :: a', y :: b' =>
      match x ?= y with
      | Eq => lex_compare a' b'
      | c => c
      end
  | [], [] => Eq
  | [], _ :: _ => Lt
  | _ :: _, [] => Gt
  end.

(** The first 19 characters of [isoformat]. *)
Definition stamp19 (t : datetime) (rest : string) : string :=
  (zpad 4 (year t) ++ "-" ++ zpad 2 (month t) ++ "-" ++ zpad 2 (day t) ++ "T"
   ++ zpad 2 (hour t) ++ ":" ++ zpad 2 (minute t) ++ ":" ++ zpad 2 (second t)
   ++ rest)%string.

(** The fraction [isoformat] prints. *)
Definition fraction (t : datetime) : string :=
  if microsecond t =? 0 then "" else ("." ++ zpad 6 (microsecond t))%string.

(** Facts about the months that are checked case by case: within one
    year, a day of an earlier month comes before every day of a later
    month. *)
Definition month_order_check (leapyear : bool) (m1 : Z) : bool :=
  all_from 12 1
    (fun m2 =>
       negb (m1 <? m2)
       || (DAYS_BEFORE_MONTH m1 + (if (2 <? m1) && leapyear then 1 else 0)
           + (DAYS_IN_MONTH m1 + (if (m1 =? 2) && leapyear then 1 else 0))
           <=? DAYS_BEFORE_MONTH m2 + (if (2 <? m2) && leapyear then 1 else 0))).

Definition year_length_check (leapyear : bool) (m : Z) : bool :=
  (0 <=? DAYS_BEFORE_MONTH m)
  && (DAYS_BEFORE_MONTH m + (if (2 <? m) && leapyear then 1 else 0)
      + (DAYS_IN_MONTH m + (if (m =? 2) && leapyear then 1 else 0))
      <=? 365 + (if leapyear then 1 else 0)).

(** The ranges in which [zpad] prints a field in full. *)
Definition printable (t : datetime) : Prop :=
  0 <= year t < 10000 /\ 0 <= month t < 100 /\ 0 <= day t < 100
  /\ 0 <= hour t < 100 /\ 0 <= minute t < 100 /\ 0 <= second t < 100.

Definition valid_date (y m d : Z) : Prop :=
  1 <= m <= 12 /\ 1 <= d <= days_in_month y m.

End Order.

(** ** Sample data: a small table and a few clock readings *)

Module Sample.
Import Py Datetime Queue System.

Definition noon : datetime := mkdt 2024 1 1 12 0 0 250000.

Definition job_a : job :=
  mkjob "a" "echo a" pending 0 3 "2024-01-01T10:00:00Z" "2024-01-01T10:00:00Z"
        "2024-01-01T10:00:00Z" None None 0 None.

Definition job_b : job :=
  mkjob "b" "exit 1" failed 1 3 "2024-01-01T09:00:00Z" "2024-01-01T10:59:58Z"
        "2024-01-01T11:00:00Z" (Some "Command failed with exit code 1") None 5 None.

Definition job_c : job :=
  mkjob "c" "echo c" pending 0 3 "2024-01-01T08:00:00Z" "2024-01-01T08:00:00Z"
        "2024-01-02T00:00:00Z" None None 9 None.

Definition job_d : job :=
  mkjob "d" "exit 1" dead 2 1 "2024-01-01T07:00:00Z" "2024-01-01T07:00:05Z"
        "2024-01-01T07:00:03Z" (Some "Command failed with exit code 1")
        (Some (of_ascii "partial")) 0 None.

Definition jobs : table := [job_a; job_b; job_c; job_d].

(** A job as [pick_next_job] hands it to the worker, and its row. *)
Definition claimed_row (attempts max_retries : Z) : job :=
  mkjob "j" "exit 1" processing attempts max_retries "2024-01-01T11:59:00Z"
        "2024-01-01T12:00:00Z" "2024-01-01T11:59:00Z" None None 0 (Some "worker-1").

Definition claimed (attempts max_retries : Z) : job_dict :=
  dict (claimed_row attempts max_retries).

Definition exit_1 : run_outcome := CompletedProcess 1 (of_ascii "boom") [].

(** A fresh job that always fails, with [max_retries = 2]. *)
Definition fresh : job :=
  mkjob "j2" "exit 1" pending 0 2 "2024-01-01T12:00:00Z" "2024-01-01T12:00:00Z"
        "2024-01-01T12:00:00Z" None None 0 None.

Definition at_second (s : Z) : datetime := mkdt 2024 1 1 12 0 s 0.

Definition failing_turn (s : Z) : turn :=
  mkturn (at_second s) exit_1 (at_second s) (at_second s).

End Sample.

(** * Properties *)

Import Py Datetime Connect Queue System.

(** ** Sanity checks on concrete values *)

Example isoformat_fraction :
  isoformat "T" (mkdt 2024 1 1 0 0 0 250000) = "2024-01-01T00:00:00.250000+00:00".
Proof. reflexivity. Qed.

Example now_iso_example :
  now_iso (mkdt 2024 2 29 23 59 59 999999) = "2024-02-29T23:59:59Z".
Proof. reflexivity. Qed.

Example add_over_leap_day :
  Datetime.add (mkdt 2024 2 28 23 59 59 999999) 1 = Some (mkdt 2024 2 29 0 0 0 0).
Proof. reflexivity. Qed.

Example add_out_of_range :
  Datetime.add (mkdt 9999 12 31 23 59 59 0) US_PER_SECOND = None.
Proof. reflexivity. Qed.

Example replace_every_occurrence :
  Py.replace "sqlite:///a/sqlite:///b" "sqlite:///" "" = "a/b".
Proof. reflexivity. Qed.

Example execute_job_exit_1 :
  execute_job (CompletedProcess 1 (of_ascii "bo") (of_ascii "om")) 120
  = (false, of_ascii "boom", Some "Command failed with exit code 1").
Proof. reflexivity. Qed.

Example execute_job_timeout :
  execute_job TimeoutExpired 120 = (false, [], Some "Job timed out after 120 seconds").
Proof. reflexivity. Qed.

Example enqueue_job_generates_id :
  fst (enqueue_job (mksub None (Some (Some "echo hi")) None None None) 3
                   (mkdt 2024 1 1 0 0 0 250000) (mkdt 2024 1 1 0 0 0 300000) [])
  = [mkjob "job-1704067200" "echo hi" pending 0 3 "2024-01-01T00:00:00Z"
           "2024-01-01T00:00:00Z" "2024-01-01T00:00:00Z" None None 0 None].
Proof. reflexivity. Qed.

Example timestamp_of_2024 :
  timestamp_int (mkdt 2024 1 1 0 0 0 250000) = 1704067200.
Proof. reflexivity. Qed.

Example timestamp_last_microsecond :
  timestamp_int (mkdt 9999 12 31 23 59 59 999984) = 253402300799
  /\ timestamp_int (mkdt 9999 12 31 23 59 59 999985) = 253402300800
  /\ timestamp_int (mkdt 1969 12 31 23 59 59 500000) = 0.
Proof. repeat split; reflexivity. Qed.

Example enqueue_job_number_too_large :
  enqueue_job (mksub (Some "big") (Some (Some "echo hi")) None None (Some (2 ^ 63))) 3
              (mkdt 2024 1 1 0 0 0 0) (mkdt 2024 1 1 0 0 0 0) []
  = ([], Raise OverflowError).
Proof. reflexivity. Qed.

Example enqueue_job_null_command :
  enqueue_job (mksub (Some "n") (Some None) None None None) 3
              (mkdt 2024 1 1 0 0 0 0) (mkdt 2024 1 1 0 0 0 0) []
  = ([], Raise (SystemExit "Job with id 'n' already exists.")).
Proof. reflexivity. Qed.

(** ** The calendar *)

Lemma all_from_spec (p : Z -> bool) (fuel : nat) (z : Z) :
  all_from fuel z p = true ->
  forall k, z <= k < z + Z.of_nat fuel -> p k = true.
Proof.
  revert z. induction fuel as [|f IH]; intros z H k Hk; [lia|].
  simpl in H. apply andb_true_iff in H. destruct H as [Hz Hrest].
  destruct (Z.eq_dec k z) as [->|Hne]; [exact Hz|].
  apply (IH (z + 1) Hrest). lia.
Qed.

Lemma month_and_day_checked (leapyear : bool) :
  all_from 365 0 (month_and_day_check leapyear) = true.
Proof. destruct leapyear; vm_compute; reflexivity. Qed.

Lemma month_and_day_spec (leapyear : bool) (n : Z) :
  0 <= n < 365 ->
  let '(m, d) := month_and_day n leapyear in
  1 <= m <= 12 /\ 1 <= d
  /\ d <= DAYS_IN_MONTH m + (if (m =? 2) && leapyear then 1 else 0)
  /\ DAYS_BEFORE_MONTH m + (if (2 <? m) && leapyear then 1 else 0) + d = n + 1.
Proof.
  intros Hn.
  pose proof (all_from_spec _ _ _ (month_and_day_checked leapyear) n ltac:(lia)) as H.
  unfold month_and_day_check in H. destruct (month_and_day n leapyear) as [m d].
  rewrite !andb_true_iff in H.
  destruct H as [[[[H1 H2] H3] H4] H5].
  apply Z.leb_le in H1, H2, H3, H4. apply Z.eqb_eq in H5. lia.
Qed.

Lemma is_leap_spec (y : Z) :
  is_leap y = true <-> (y mod 4 = 0 /\ (y mod 100 <> 0 \/ y mod 400 = 0)).
Proof.
  unfold is_leap. rewrite andb_true_iff, orb_true_iff, negb_true_iff.
  rewrite !Z.eqb_eq, Z.eqb_neq. tauto.
Qed.

(** [ord2ymd] inverts [ymd2ord] and stays inside the calendar. *)
Lemma ord2ymd_spec (n : Z) :
  1 <= n ->
  let '(y, m, d) := ord2ymd n in
  ymd2ord y m d = n /\ 1 <= y /\ (n <= MAXORDINAL -> y <= 9999)
  /\ 1 <= m <= 12 /\ 1 <= d <= days_in_month y m.
Proof.
  intros Hn. unfold ord2ymd.
  set (n0 := n - 1).
  set (a := n0 / DI400Y). set (r1 := n0 mod DI400Y).
  set (b := r1 / DI100Y). set (r2 := r1 mod DI100Y).
  set (c := r2 / DI4Y). set (r3 := r2 mod DI4Y).
  set (d := r3 / 365). set (r4 := r3 mod 365).
  assert (E1 : n0 = DI400Y * a + r1 /\ 0 <= r1 < DI400Y).
  { subst a r1. split; [apply Z.div_mod; discriminate | apply Z.mod_pos_bound; reflexivity]. }
  assert (E2 : r1 = DI100Y * b + r2 /\ 0 <= r2 < DI100Y).
  { subst b r2. split; [apply Z.div_mod; discriminate | apply Z.mod_pos_bound; reflexivity]. }
  assert (E3 : r2 = DI4Y * c + r3 /\ 0 <= r3 < DI4Y).
  { subst c r3. split; [apply Z.div_mod; discriminate | apply Z.mod_pos_bound; reflexivity]. }
  assert (E4 : r3 = 365 * d + r4 /\ 0 <= r4 < 365).
  { subst d r4. split; [apply Z.div_mod; discriminate | apply Z.mod_pos_bound; reflexivity]. }
  clearbody a r1 b r2 c r3 d r4. unfold DI400Y, DI100Y, DI4Y, MAXORDINAL in *.
  assert (Ha : 0 <= a) by lia.
  assert (Hb : 0 <= b <= 4) by lia.
  assert (Hc : 0 <= c <= 24) by lia.
  assert (Hd : 0 <= d <= 4) by lia.
  destruct (Z.eqb_spec d 4) as [D4|D4]; [|destruct (Z.eqb_spec b 4) as [B4|B4]]; simpl orb.
  - (* the last day of a leap year that closes a block of four years *)
    assert (r4 = 0 /\ c <= 23 /\ b <= 3) as (-> & Hc' & Hb') by lia.
    assert (L : is_leap (a * 400 + 1 + b * 100 + c * 4 + d - 1) = true).
    { apply is_leap_spec. subst d. split; [|left]; Z.div_mod_to_equations; lia. }
    unfold ymd2ord, days_before_year, days_before_month, days_in_month.
    rewrite L. change (DAYS_BEFORE_MONTH 12) with 334.
    change (DAYS_IN_MONTH 12) with 31. simpl andb. cbv iota.
    subst d. repeat split; try lia.
    Z.div_mod_to_equations. lia.
  - (* the last day of a cycle of 400 years *)
    assert (r2 = 0 /\ c = 0 /\ r3 = 0 /\ d = 0 /\ r4 = 0) as (-> & -> & -> & -> & ->) by lia.
    assert (L : is_leap (a * 400 + 1 + b * 100 + 0 * 4 + 0 - 1) = true).
    { apply is_leap_spec. subst b. split; [|right]; Z.div_mod_to_equations; lia. }
    unfold ymd2ord, days_before_year, days_before_month, days_in_month.
    rewrite L. change (DAYS_BEFORE_MONTH 12) with 334.
    change (DAYS_IN_MONTH 12) with 31. simpl andb. cbv iota.
    subst b. repeat split; try lia.
    Z.div_mod_to_equations. lia.
  - assert (Hb' : b <= 3) by lia. assert (Hd' : d <= 3) by lia.
    set (leapyear := (d =? 3) && (negb (c =? 24) || (b =? 3))).
    assert (L : is_leap (a * 400 + 1 + b * 100 + c * 4 + d) = leapyear).
    { subst leapyear. destruct (is_leap _) eqn:E.
      - apply is_leap_spec in E. symmetry.
        rewrite andb_true_iff, orb_true_iff, negb_true_iff, !Z.eqb_eq, Z.eqb_neq.
        Z.div_mod_to_equations. lia.
      - symmetry. apply not_true_is_false. intros F.
        rewrite andb_true_iff, orb_true_iff, negb_true_iff, !Z.eqb_eq, Z.eqb_neq in F.
        assert (is_leap (a * 400 + 1 + b * 100 + c * 4 + d) = true); [|congruence].
        apply is_leap_spec. Z.div_mod_to_equations. lia. }
    pose proof (month_and_day_spec leapyear r4 ltac:(lia)) as M.
    destruct (month_and_day r4 leapyear) as [m dd].
    destruct M as (Hm & Hd1 & Hd2 & Hsum).
    unfold ymd2ord, days_before_year, days_before_month, days_in_month.
    rewrite L. repeat split; try lia.
    + Z.div_mod_to_equations. lia.
    + destruct ((m =? 2) && leapyear) eqn:X; [|lia].
      apply andb_true_iff in X. destruct X as [X _]. apply Z.eqb_eq in X. subst m.
      change (DAYS_IN_MONTH 2) with 28 in Hd2. lia.
Qed.

(** [add] moves the instant by exactly [delta] microseconds and returns
    a value inside the range of [datetime]. *)
Lemma add_to_us (t d : datetime) (delta : Z) :
  add t delta = Some d ->
  to_us d = to_us t + delta /\ valid d = true.
Proof.
  unfold add, timedelta.
  destruct (Z.abs ((to_us t + delta) / US_PER_DAY) <=? 999999999); [|discriminate].
  set (total := to_us t + delta).
  destruct (Z.ltb_spec 0 (total / US_PER_DAY)) as [Hpos|]; [|discriminate].
  destruct (Z.leb_spec (total / US_PER_DAY) MAXORDINAL) as [Hmax|]; [|discriminate].
  simpl andb. cbv iota.
  pose proof (ord2ymd_spec (total / US_PER_DAY) ltac:(lia)) as O.
  destruct (ord2ymd (total / US_PER_DAY)) as [[y m] dd].
  destruct O as (Hord & Hy1 & Hy2 & Hm & Hd).
  intros [= <-]. unfold to_us, toordinal, valid.
  cbn [year month day hour minute second microsecond].
  rewrite Hord. unfold US_PER_DAY, US_PER_SECOND in *.
  split.
  - Z.div_mod_to_equations. lia.
  - specialize (Hy2 Hmax).
    repeat (apply andb_true_iff; split); try (apply Z.leb_le); try (apply Z.ltb_lt);
      try lia; Z.div_mod_to_equations; lia.
Qed.

Lemma plus_seconds_to_us (now due : datetime) (s : Z) :
  plus_seconds now s = Some due ->
  to_us due = to_us now + s * US_PER_SECOND /\ valid due = true.
Proof.
  unfold plus_seconds, timedelta_seconds, timedelta.
  destruct (Z.abs (s * US_PER_SECOND / US_PER_DAY) <=? 999999999); [|discriminate].
  apply add_to_us.
Qed.

(** ** The SQL statements *)

Section Statements.
Variables (where_ : job -> bool) (set : job -> job).

Lemma UPDATE_rowwise (t : table) :
  Forall2 (fun r r' => r' = if where_ r then set r else r) t (UPDATE where_ set t).
Proof.
  induction t as [|r t IH]; simpl; constructor; auto.
Qed.

Lemma In_UPDATE (t : table) (r' : job) :
  In r' (UPDATE where_ set t) <->
  exists r, In r t /\ r' = if where_ r then set r else r.
Proof.
  unfold UPDATE. rewrite in_map_iff. split; intros [r [A B]]; exists r; auto.
Qed.

Lemma UPDATE_untouched (t : table) :
  (forall r, In r t -> where_ r = false) -> UPDATE where_ set t = t.
Proof.
  induction t as [|r t IH]; simpl; intros H; [reflexivity|].
  rewrite (H r (or_introl eq_refl)). f_equal. apply IH. intros; apply H; now right.
Qed.

Lemma RETURNING_nil (t : table) :
  RETURNING where_ set t = [] <-> forall r, In r t -> where_ r = false.
Proof.
  unfold RETURNING. induction t as [|r t IH]; simpl.
  - split; [intros _ r []|reflexivity].
  - destruct (where_ r) eqn:E; simpl.
    + split; [discriminate|]. intros H. rewrite (H r (or_introl eq_refl)) in E.
      discriminate.
    + rewrite IH. split.
      * intros H x [<-|Hx]; auto.
      * intros H x Hx. apply H. now right.
Qed.

Lemma UPDATE_ids (t : table) :
  (forall r, id (set r) = id r) -> map id (UPDATE where_ set t) = map id t.
Proof.
  intros H. induction t as [|r t IH]; simpl; [reflexivity|].
  rewrite IH. destruct (where_ r); now rewrite ?H.
Qed.

End Statements.

Lemma Forall2_weaken {A B : Type} (P Q : A -> B -> Prop) (l : list A) (l' : list B) :
  (forall a b, In a l -> P a b -> Q a b) -> Forall2 P l l' -> Forall2 Q l l'.
Proof.
  intros H F. induction F; constructor.
  - apply H; [now left | assumption].
  - apply IHF. intros; apply H; [now right | assumption].
Qed.

Lemma unique_ids_same (t : table) (a b : job) :
  unique_ids t -> In a t -> In b t -> id a = id b -> a = b.
Proof.
  unfold unique_ids. induction t as [|r t IH]; simpl; [intros _ []|].
  intros N Ha Hb E. inversion N as [|? ? Hnot N']; subst.
  destruct Ha as [->|Ha], Hb as [->|Hb]; auto.
  - exfalso. apply Hnot. rewrite E. now apply in_map.
  - exfalso. apply Hnot. rewrite <- E. now apply in_map.
Qed.

(** ** Store path *)

Lemma _connect_default : _connect (mkenv None None) = "queuectl.db".
Proof. reflexivity. Qed.

Lemma _connect_prefixed_QUEUECTL_DB :
  _connect (mkenv (Some "sqlite:///other.db") (Some "sqlite:///jobs.db")) = "jobs.db".
Proof. reflexivity. Qed.

(** When [QUEUECTL_DB] does not carry the prefix, a [DATABASE_URL] that
    does decides the path, and the default of [DATABASE_URL] carries it. *)
Lemma _connect_plain_QUEUECTL_DB (url : option string) (path : string) :
  Py.startswith path "sqlite:///" = false ->
  Py.startswith (getenv url "sqlite:///queuectl.db") "sqlite:///" = true ->
  _connect (mkenv url (Some path))
  = Py.replace (getenv url "sqlite:///queuectl.db") "sqlite:///" "".
Proof.
  intros H1 H2. unfold _connect, QUEUECTL_DB, DATABASE_URL. simpl env_QUEUECTL_DB.
  simpl env_DATABASE_URL. unfold getenv at 1 2. simpl Py.get at 1 2.
  rewrite H1. now rewrite H2.
Qed.

(** C9 (fails on the code): with [QUEUECTL_DB=test_queuectl.db] and
    [DATABASE_URL] unset, as the test script runs the program, the store
    path is not the value of [QUEUECTL_DB] but [queuectl.db]: the
    variable does not win over the default of [DATABASE_URL]. *)
Theorem QUEUECTL_DB_loses_to_default_DATABASE_URL :
  _connect (mkenv None (Some "test_queuectl.db")) = "queuectl.db"
  /\ _connect (mkenv None (Some "test_queuectl.db")) <> "test_queuectl.db".
Proof. split; [reflexivity | discriminate]. Qed.

(** ** The transition after an execution *)

Lemma UPDATE_rows_changed (where_ : job -> bool) (set : job -> job)
      (P : job -> job -> Prop) (t : table) :
  (forall r, In r t -> where_ r = true -> P r (set r)) ->
  rows_changed where_ P t (UPDATE where_ set t).
Proof.
  intros H. unfold rows_changed.
  apply Forall2_weaken with (2 := UPDATE_rowwise where_ set t).
  intros r r' Hin ->. destruct (where_ r) eqn:E; auto.
Qed.

Lemma Return_inj {A : Type} (a b : A) : Return a = Return b -> a = b.
Proof. intros H. now injection H. Qed.

Lemma process_job_commit_success (j : job_dict) (out : pystr) (error : option string)
      (clock clock_retry : datetime) (backoff_base : Z) (t : table) :
  process_job_commit j (true, out, error) clock clock_retry backoff_base t
  = Return (UPDATE (has_id_of (d_id j))
                   (set_completed (now_iso clock) (firstn OUTPUT_LIMIT out)) t).
Proof. reflexivity. Qed.

(** The three ways the transition ends after a failed execution. *)
Lemma process_job_commit_failure (j : job_dict) (out : pystr) (error : option string)
      (clock clock_retry : datetime) (backoff_base : Z) (t : table) :
  process_job_commit j (false, out, error) clock clock_retry backoff_base t
  = if d_attempts j + 1 >? d_max_retries j
    then Return (UPDATE (has_id_of (d_id j))
                        (set_dead (d_attempts j + 1) (now_iso clock) error) t)
    else match plus_seconds clock_retry (backoff_base ^ (d_attempts j + 1)) with
         | None => Raise OverflowError
         | Some due =>
             Return (UPDATE (has_id_of (d_id j))
                            (set_failed (d_attempts j + 1) (adapt_datetime clock_retry)
                                        (Py.replace (isoformat "T" due) "+00:00" "Z")
                                        error) t)
         end.
Proof.
  unfold process_job_commit, plus_seconds, calculate_backoff_delay.
  destruct (d_attempts j + 1 >? d_max_retries j); [reflexivity|].
  destruct (timedelta_seconds _) as [delta|]; [|reflexivity].
  destruct (Datetime.add clock_retry delta); reflexivity.
Qed.

(** Whatever the execution gave, a transition that commits rewrites the
    rows of the job's id, keeps their id, and leaves them neither
    [processing] nor picked. *)
Lemma process_job_commit_shape j executed clock clock_retry base (t t' : table) :
  process_job_commit j executed clock clock_retry base t = Return t' ->
  exists set,
    (forall r, id (set r) = id r /\ state (set r) <> processing
               /\ picked_by (set r) = None)
    /\ t' = UPDATE (has_id_of (d_id j)) set t.
Proof.
  destruct executed as [[[|] out] error].
  - rewrite process_job_commit_success. intros E. apply Return_inj in E. subst t'.
    eexists. split; [|reflexivity]. intros r. unfold set_completed.
    cbn [id state picked_by]. repeat split. discriminate.
  - rewrite process_job_commit_failure.
    destruct (d_attempts j + 1 >? d_max_retries j).
    + intros E. apply Return_inj in E. subst t'.
      eexists. split; [|reflexivity]. intros r. unfold set_dead.
      cbn [id state picked_by]. repeat split. discriminate.
    + destruct (plus_seconds _ _) as [due|]; [|discriminate].
      intros E. apply Return_inj in E. subst t'.
      eexists. split; [|reflexivity]. intros r. unfold set_failed.
      cbn [id state picked_by]. repeat split. discriminate.
Qed.

Lemma execute_job_success (run : run_outcome) (timeout : Z) :
  fst (fst (execute_job run timeout)) = true ->
  exists stdout stderr,
    run = CompletedProcess 0 stdout stderr
    /\ execute_job run timeout = (true, (stdout ++ stderr)%list, None).
Proof.
  destruct run as [rc out err| |msg]; simpl; try discriminate.
  destruct (rc =? 0) eqn:E; [|discriminate]. intros _.
  apply Z.eqb_eq in E. subst rc. now exists out, err.
Qed.

Lemma execute_job_failure (run : run_outcome) (timeout : Z) :
  fst (fst (execute_job run timeout)) = false ->
  exists out msg, execute_job run timeout = (false, out, Some msg).
Proof.
  destruct run as [rc out err| |msg]; simpl.
  - destruct (rc =? 0); [discriminate|]. intros _. eauto.
  - intros _. eauto.
  - intros _. eauto.
Qed.

(** C5: when the execution succeeds, the transition makes the job
    [completed], adds one to its [attempts], stores the captured output
    cut to 10000, clears [last_error] and [picked_by], stamps
    [updated_at] with [now], and changes no other column and no other
    row. *)
Theorem commit_of_success (j : job_dict) (run : run_outcome) (timeout : Z)
        (clock clock_retry : datetime) (backoff_base : Z) (t : table) :
  fst (fst (execute_job run timeout)) = true ->
  exists t',
    process_job_commit j (execute_job run timeout) clock clock_retry backoff_base t
    = Return t'
    /\ rows_changed (has_id_of (d_id j))
         (fun r r' =>
            state r' = completed
            /\ attempts r' = attempts r + 1
            /\ output r'
               = Some (firstn (Z.to_nat 10000) (snd (fst (execute_job run timeout))))
            /\ last_error r' = None
            /\ picked_by r' = None
            /\ updated_at r' = now_iso clock
            /\ same_submission r r'
            /\ due_at r' = due_at r)
         t t'.
Proof.
  intros Hs. destruct (execute_job_success run timeout Hs) as (out & err & _ & ->).
  rewrite process_job_commit_success. eexists. split; [reflexivity|].
  apply UPDATE_rows_changed. intros r _ _. unfold same_submission, set_completed.
  cbn [state attempts output last_error picked_by updated_at due_at id command
       max_retries created_at priority fst snd].
  repeat split; reflexivity.
Qed.

Lemma commit_of_success_witness :
  exists t',
    process_job_commit (mkdict "j1" "echo ok" 0 3 processing None)
      (execute_job (CompletedProcess 0 (of_ascii "ok") []) 120)
      (mkdt 2024 1 1 0 0 1 500) (mkdt 2024 1 1 0 0 1 900) 2
      [mkjob "j1" "echo ok" processing 0 3 "2024-01-01T00:00:00Z"
             "2024-01-01T00:00:01Z" "2024-01-01T00:00:00Z" None None 0 (Some "worker-1")]
    = Return t'
    /\ exists r', t' = [r'] /\ state r' = completed /\ attempts r' = 1
                  /\ output r' = Some (of_ascii "ok").
Proof.
  destruct (commit_of_success (mkdict "j1" "echo ok" 0 3 processing None)
              (CompletedProcess 0 (of_ascii "ok") []) 120
              (mkdt 2024 1 1 0 0 1 500) (mkdt 2024 1 1 0 0 1 900) 2
              [mkjob "j1" "echo ok" processing 0 3 "2024-01-01T00:00:00Z"
                     "2024-01-01T00:00:01Z" "2024-01-01T00:00:00Z" None None 0
                     (Some "worker-1")] eq_refl) as (t' & E & F).
  exists t'. split; [exact E|].
  inversion F as [|r r' l l' Hr Hl]; subst. inversion Hl; subst.
  exists r'. simpl in Hr. destruct Hr as (A & B & C & _).
  repeat split; assumption.
Defined.

(** ** The order of the claim *)

Lemma ascii_compare_refl (c : ascii) : Ascii.compare c c = Eq.
Proof. unfold Ascii.compare. apply N.compare_refl. Qed.

Lemma ascii_compare_lt_trans (a b c : ascii) :
  Ascii.compare a b = Lt -> Ascii.compare b c = Lt -> Ascii.compare a c = Lt.
Proof.
  unfold Ascii.compare. rewrite !N.compare_lt_iff. apply N.lt_trans.
Qed.

Lemma string_compare_refl (s : string) : String.compare s s = Eq.
Proof.
  induction s as [|c s IH]; simpl; [reflexivity|]. now rewrite ascii_compare_refl.
Qed.

Lemma string_compare_lt_trans (a b c : string) :
  String.compare a b = Lt -> String.compare b c = Lt -> String.compare a c = Lt.
Proof.
  revert b c. induction a as [|x a IH]; intros [|y b] [|z c]; simpl;
    try discriminate; auto.
  destruct (Ascii.compare x y) eqn:Exy; try discriminate;
    destruct (Ascii.compare y z) eqn:Eyz; try discriminate; intros H1 H2.
  - apply Ascii.compare_eq_iff in Exy, Eyz. subst. rewrite ascii_compare_refl.
    eapply IH; eassumption.
  - apply Ascii.compare_eq_iff in Exy. subst. now rewrite Eyz.
  - apply Ascii.compare_eq_iff in Eyz. subst. now rewrite Exy.
  - now rewrite (ascii_compare_lt_trans _ _ _ Exy Eyz).
Qed.

Lemma string_leb_refl (s : string) : String.leb s s = true.
Proof. unfold String.leb. now rewrite string_compare_refl. Qed.

Lemma string_leb_trans (a b c : string) :
  String.leb a b = true -> String.leb b c = true -> String.leb a c = true.
Proof.
  unfold String.leb.
  destruct (String.compare a b) eqn:Eab; try discriminate;
    destruct (String.compare b c) eqn:Ebc; try discriminate; intros _ _.
  - apply String.compare_eq_iff in Eab, Ebc. subst. now rewrite string_compare_refl.
  - apply String.compare_eq_iff in Eab. subst. now rewrite Ebc.
  - apply String.compare_eq_iff in Ebc. subst. now rewrite Eab.
  - now rewrite (string_compare_lt_trans _ _ _ Eab Ebc).
Qed.

Lemma order_leb_key_le (a b : job) : order_leb a b = true <-> key_le a b.
Proof.
  unfold order_leb, key_le, String.ltb.
  destruct (Z.compare_spec (priority b) (priority a)) as [E|L|G].
  - destruct (String.compare (due_at a) (due_at b)) eqn:C.
    + apply String.compare_eq_iff in C. split.
      * intros H. right. split; [lia|]. right. now split.
      * intros [H|[_ [H|[_ H]]]]; [lia|discriminate|exact H].
    + split; [intros _; right; split; [lia|now left]|reflexivity].
    + split; [discriminate|]. intros [H|[_ [H|[E' H]]]]; [lia|discriminate|].
      rewrite E', string_compare_refl in C. discriminate.
  - split; [intros _; left; lia|reflexivity].
  - split; [discriminate|]. intros [H|[H _]]; lia.
Qed.

Lemma order_leb_total (a b : job) : order_leb a b = false -> order_leb b a = true.
Proof.
  unfold order_leb. rewrite (Z.compare_antisym (priority b) (priority a)).
  destruct (priority b ?= priority a); simpl; try discriminate; auto.
  rewrite (String.compare_antisym (due_at b) (due_at a)).
  destruct (String.compare (due_at a) (due_at b)); simpl; try discriminate; auto.
  intros H. destruct (String.leb_total (created_at a) (created_at b)) as [E|E]; congruence.
Qed.

Lemma order_leb_refl (a : job) : order_leb a a = true.
Proof.
  destruct (order_leb a a) eqn:E; [reflexivity|]. apply order_leb_total in E as E'.
  congruence.
Qed.

Lemma order_leb_trans (a b c : job) :
  order_leb a b = true -> order_leb b c = true -> order_leb a c = true.
Proof.
  rewrite !order_leb_key_le. unfold key_le, String.ltb.
  intros [H1|[E1 H1]] [H2|[E2 H2]]; try (left; lia).
  right. split; [lia|].
  destruct H1 as [H1|[D1 H1]], H2 as [H2|[D2 H2]].
  - left. destruct (String.compare (due_at a) (due_at b)) eqn:X; try discriminate.
    destruct (String.compare (due_at b) (due_at c)) eqn:Y; try discriminate.
    now rewrite (string_compare_lt_trans _ _ _ X Y).
  - left. now rewrite <- D2.
  - left. now rewrite D1.
  - right. split; [congruence|]. eapply string_leb_trans; eassumption.
Qed.

Section OrderBy.
Variable leb : job -> job -> bool.
Hypothesis leb_total : forall a b, leb a b = false -> leb b a = true.
Hypothesis leb_trans : forall a b c, leb a b = true -> leb b c = true -> leb a c = true.

Lemma In_insert_by (x y : job) (l : list job) :
  In y (insert_by leb x l) <-> y = x \/ In y l.
Proof.
  induction l as [|z l IH]; simpl.
  - intuition.
  - destruct (leb x z); simpl; [intuition|]. rewrite IH. intuition.
Qed.

Lemma In_ORDER_BY (y : job) (l : list job) : In y (ORDER_BY leb l) <-> In y l.
Proof.
  induction l as [|x l IH]; simpl; [reflexivity|].
  rewrite In_insert_by, IH. intuition.
Qed.

Lemma leb_refl (a : job) : leb a a = true.
Proof.
  destruct (leb a a) eqn:E; [reflexivity|]. apply leb_total in E as E'. congruence.
Qed.

(** The first row of the sorted result is a row of the input and
    comes before every row of the input. *)
Lemma ORDER_BY_first (l : list job) (x : job) :
  hd_error (ORDER_BY leb l) = Some x ->
  In x l /\ forall y, In y l -> leb x y = true.
Proof.
  revert x. induction l as [|a l IH]; simpl; [discriminate|]. intros x.
  destruct (ORDER_BY leb l) as [|y0 s] eqn:E; simpl.
  - intros [= <-]. split; [now left|]. intros y [<-|Hy]; [apply leb_refl|].
    apply In_ORDER_BY in Hy. rewrite E in Hy. destruct Hy.
  - destruct (IH y0 eq_refl) as [Hin Hle].
    destruct (leb a y0) eqn:L; simpl; intros [= <-].
    + split; [now left|]. intros y [<-|Hy]; [apply leb_refl|].
      eapply leb_trans; [exact L | now apply Hle].
    + split; [now right|]. intros y [<-|Hy]; [now apply leb_total | now apply Hle].
Qed.

Lemma ORDER_BY_empty (l : list job) : hd_error (ORDER_BY leb l) = None -> l = [].
Proof.
  destruct l as [|a l]; [reflexivity|]. simpl.
  destruct (ORDER_BY leb l); simpl; [discriminate|].
  destruct (leb a j); discriminate.
Qed.

End OrderBy.

(** ** The claim *)

Lemma UPDATE_ext (w1 w2 : job -> bool) (set : job -> job) (t : table) :
  (forall r, In r t -> w1 r = w2 r) -> UPDATE w1 set t = UPDATE w2 set t.
Proof.
  intros H. unfold UPDATE. apply map_ext_in. intros r Hr. now rewrite (H r Hr).
Qed.

Lemma In_RETURNING (where_ : job -> bool) (set : job -> job) (t : table) (r' : job) :
  In r' (RETURNING where_ set t) <-> exists r, In r t /\ where_ r = true /\ r' = set r.
Proof.
  unfold RETURNING. rewrite in_map_iff. split.
  - intros (r & <- & Hr). apply filter_In in Hr. exists r. tauto.
  - intros (r & Hr & Hw & ->). exists r. split; [reflexivity|]. apply filter_In. tauto.
Qed.

Lemma pick_next_job_none (worker_id : string) (clock : datetime) (t t' : table) :
  pick_next_job worker_id clock t = (t', None) ->
  t' = t /\ forall r, In r t -> eligible (now_iso clock) r = false.
Proof.
  unfold pick_next_job.
  destruct (hd_error (ORDER_BY order_leb (filter (eligible (now_iso clock)) t)))
    as [found|] eqn:E.
  - apply (ORDER_BY_first order_leb order_leb_total order_leb_trans) in E.
    destruct E as [Hin _]. apply filter_In in Hin. destruct Hin as [Hin He].
    destruct (RETURNING _ _ t) as [|result rest] eqn:R; [|discriminate].
    exfalso. rewrite RETURNING_nil in R. specialize (R found Hin). simpl in R.
    unfold eligible in He. apply andb_true_iff in He. destruct He as [Hc _].
    rewrite String.eqb_refl, Hc in R. discriminate.
  - intros [= <-]. split; [reflexivity|].
    apply ORDER_BY_empty in E. intros r Hr.
    destruct (eligible (now_iso clock) r) eqn:He; [|reflexivity].
    assert (In r (filter (eligible (now_iso clock)) t)) as X by (apply filter_In; tauto).
    rewrite E in X. destruct X.
Qed.

Lemma pick_next_job_some (worker_id : string) (clock : datetime) (t t' : table)
      (j : job_dict) :
  unique_ids t ->
  pick_next_job worker_id clock t = (t', Some j) ->
  exists r,
    In r t
    /\ eligible (now_iso clock) r = true
    /\ (forall r', In r' t -> eligible (now_iso clock) r' = true -> order_leb r r' = true)
    /\ j = dict (set_processing worker_id (now_iso clock) r)
    /\ t' = UPDATE (has_id_of (id r)) (set_processing worker_id (now_iso clock)) t.
Proof.
  intros U. unfold pick_next_job.
  destruct (hd_error (ORDER_BY order_leb (filter (eligible (now_iso clock)) t)))
    as [found|] eqn:E; [|discriminate].
  apply (ORDER_BY_first order_leb order_leb_total order_leb_trans) in E.
  destruct E as [Hin Hle]. apply filter_In in Hin. destruct Hin as [Hin He].
  destruct (RETURNING _ _ t) as [|result rest] eqn:R; [discriminate|].
  intros [= <- <-]. exists found.
  assert (Hc : claimable found = true).
  { unfold eligible in He. apply andb_true_iff in He. tauto. }
  repeat split; try assumption.
  - intros r' Hr' He'. apply Hle. apply filter_In. tauto.
  - assert (X : In result (result :: rest)) by now left.
    rewrite <- R in X. apply In_RETURNING in X. destruct X as (x & Hx & Hw & ->).
    apply andb_true_iff in Hw. destruct Hw as [Hw _]. apply String.eqb_eq in Hw.
    now rewrite (unique_ids_same t x found U Hx Hin Hw).
  - apply UPDATE_ext. intros r Hr. unfold has_id_of.
    destruct (String.eqb (id r) (id found)) eqn:X; [|reflexivity].
    apply String.eqb_eq in X. rewrite (unique_ids_same t r found U Hr Hin X).
    now rewrite Hc.
Qed.

(** ** I1: [processing] exactly when picked *)

Lemma exclusive_claim_UPDATE (where_ : job -> bool) (set : job -> job) (t : table) :
  (forall r, state (set r) = processing <-> picked_by (set r) <> None) ->
  exclusive_claim t -> exclusive_claim (UPDATE where_ set t).
Proof.
  intros Hset Ht r' Hr'. apply In_UPDATE in Hr'. destruct Hr' as (r & Hr & ->).
  destruct (where_ r); [apply Hset | now apply Ht].
Qed.

Lemma exclusive_claim_enqueue_job sub cfg clock_ts clock (t : table) :
  exclusive_claim t ->
  exclusive_claim (fst (enqueue_job sub cfg clock_ts clock t)).
Proof.
  intros Ht. unfold enqueue_job. destruct (j_command sub) as [[cmd|]|]; [| |exact Ht];
    (destruct (in_int64 _ && in_int64 _); [|exact Ht]); [|exact Ht].
  destruct (has_id _ t); [exact Ht|]. simpl. intros r Hr.
  apply in_app_or in Hr. destruct Hr as [Hr|[<-|[]]]; [now apply Ht|].
  simpl. split; [discriminate|congruence].
Qed.

Lemma exclusive_claim_pick_next_job worker_id clock (t : table) :
  exclusive_claim t ->
  exclusive_claim (fst (pick_next_job worker_id clock t)).
Proof.
  intros Ht. unfold pick_next_job.
  destruct (hd_error _) as [found|]; [|exact Ht].
  assert (X : exclusive_claim
                (UPDATE (fun r => String.eqb (id r) (id found) && claimable r)
                        (set_processing worker_id (now_iso clock)) t)).
  { apply exclusive_claim_UPDATE; [|exact Ht]. intros r. simpl.
    split; [discriminate|reflexivity]. }
  destruct (RETURNING _ _ t); exact X.
Qed.

Lemma exclusive_claim_process_job_commit j executed clock clock_retry base
      (t t' : table) :
  process_job_commit j executed clock clock_retry base t = Return t' ->
  exclusive_claim t -> exclusive_claim t'.
Proof.
  intros E Ht. destruct (process_job_commit_shape _ _ _ _ _ _ _ E) as (set & H & ->).
  apply exclusive_claim_UPDATE; [|exact Ht].
  intros r. destruct (H r) as (_ & Hs & Hp). rewrite Hp. split; [contradiction|congruence].
Qed.

Lemma exclusive_claim_dlq_retry job_id clock_due clock_updated (t : table) :
  exclusive_claim t ->
  exclusive_claim (fst (dlq_retry job_id clock_due clock_updated t)).
Proof.
  intros Ht. unfold dlq_retry. destruct (RETURNING _ _ t); [exact Ht|]. simpl.
  apply exclusive_claim_UPDATE; [|exact Ht].
  intros r; simpl; split; [discriminate|congruence].
Qed.

Lemma exclusive_claim_step (s s' : system) :
  exclusive_claim (store s) -> step s s' -> exclusive_claim (store s').
Proof.
  intros Hs St. destruct St; simpl.
  - now apply exclusive_claim_enqueue_job.
  - change t' with (fst (t', Some j)). rewrite <- H.
    now apply exclusive_claim_pick_next_job.
  - change t' with (fst (t', @None job_dict)). rewrite <- H.
    now apply exclusive_claim_pick_next_job.
  - eapply exclusive_claim_process_job_commit; eassumption.
  - exact Hs.
  - now apply exclusive_claim_dlq_retry.
Qed.

(** C2: in every state reached from the empty store by enqueues,
    claims, transitions after an execution (committed or raising) and
    DLQ retries, each row has [state = processing] if and only if its
    [picked_by] is not null; every single operation preserves this. *)
Theorem exclusive_claim_invariant :
  (forall s, reachable s -> exclusive_claim (store s))
  /\ (forall s s', exclusive_claim (store s) -> step s s' -> exclusive_claim (store s')).
Proof.
  split; [|exact exclusive_claim_step].
  induction 1 as [|s s' R IH St].
  - intros r [].
  - now apply (exclusive_claim_step s s').
Qed.

Lemma exclusive_claim_invariant_witness :
  let s1 := mksys [set_processing "worker-1" "2024-01-01T12:00:00Z" Sample.fresh]
                  [("worker-1",
                    dict (set_processing "worker-1" "2024-01-01T12:00:00Z" Sample.fresh))] in
  reachable s1 /\ exclusive_claim (store s1).
Proof.
  intros s1.
  assert (R : reachable s1).
  { apply reachable_step with (s := mksys [Sample.fresh] []).
    - apply reachable_step with (s := initial); [constructor|].
      exact (step_enqueue initial
               (mksub (Some "j2") (Some (Some "exit 1")) None (Some 2) None) 3
               Sample.noon (Sample.at_second 0)).
    - apply (step_claim (mksys [Sample.fresh] []) "worker-1" (Sample.at_second 0)).
      reflexivity. }
  split; [exact R|]. exact (proj1 exclusive_claim_invariant s1 R).
Defined.

(** ** Failing executions *)

Lemma process_job_commit_ids j executed clock clock_retry base (t t' : table) :
  process_job_commit j executed clock clock_retry base t = Return t' ->
  exists set, (forall r, id (set r) = id r) /\ t' = UPDATE (has_id_of (d_id j)) set t.
Proof.
  intros E. destruct (process_job_commit_shape _ _ _ _ _ _ _ E) as (set & H & ->).
  exists set. split; [|reflexivity]. intros r. apply H.
Qed.

Lemma unique_ids_UPDATE (where_ : job -> bool) (set : job -> job) (t : table) :
  (forall r, id (set r) = id r) -> unique_ids t -> unique_ids (UPDATE where_ set t).
Proof. intros H U. unfold unique_ids. now rewrite UPDATE_ids. Qed.

Lemma In_UPDATE_set (where_ : job -> bool) (set : job -> job) (t : table) (r : job) :
  In r t -> where_ r = true -> In (set r) (UPDATE where_ set t).
Proof. intros Hr Hw. apply In_UPDATE. exists r. now rewrite Hw. Qed.

Lemma In_UPDATE_keep (where_ : job -> bool) (set : job -> job) (t : table) (r : job) :
  In r t -> where_ r = false -> In r (UPDATE where_ set t).
Proof. intros Hr Hw. apply In_UPDATE. exists r. now rewrite Hw. Qed.

Lemma standing_dead_iff (M : Z) (n : nat) (r : job) :
  standing M n r -> Z.of_nat n <= M + 1 /\ (state r = dead <-> Z.of_nat n = M + 1).
Proof.
  intros [Hc Ha Hn|Hs Hn|Hs Ha Hn].
  - split; [lia|]. split; [|lia]. intros E. unfold claimable in Hc.
    rewrite E in Hc. discriminate.
  - split; [lia|]. split; [congruence|lia].
  - split; [lia|]. tauto.
Qed.

Lemma process_job_turn (worker_id : string) (timeout base : Z) (env : turn)
      (t t2 : table) (j : job_dict) (res : result unit) :
  unique_ids t ->
  process_job worker_id timeout base env t = (t2, Some (j, res)) ->
  exists r,
    In r t /\ claimable r = true
    /\ j = dict (set_processing worker_id (now_iso (clock_pick env)) r)
    /\ let t1 := UPDATE (has_id_of (id r))
                        (set_processing worker_id (now_iso (clock_pick env))) t in
       match process_job_commit j (execute_job (run env) timeout)
                                (clock_commit env) (clock_retry env) base t1 with
       | Return t' => t2 = t' /\ res = Return tt
       | Raise e => t2 = t1 /\ res = Raise e
       end.
Proof.
  intros U Turn. unfold process_job in Turn.
  destruct (pick_next_job worker_id (clock_pick env) t) as [t1 [j0|]] eqn:P;
    [|discriminate].
  destruct (pick_next_job_some _ _ _ _ _ U P) as (r & Hin & He & _ & Hj & Ht1).
  exists r. unfold eligible in He. apply andb_true_iff in He. destruct He as [Hc _].
  subst t1. cbv zeta.
  destruct (process_job_commit j0 _ _ _ base _) as [t'|e] eqn:C;
    injection Turn as <- <- <-; rewrite <- Hj, C; auto.
Qed.

Lemma failing_executions_standing (job_id : string) (timeout base : Z) (M : Z)
      (n : nat) (t t' : table) (r : job) :
  unique_ids t -> In r t -> id r = job_id ->
  state r = pending -> attempts r = 0 -> max_retries r = M -> 0 <= M ->
  failing_executions job_id timeout base n t t' ->
  unique_ids t'
  /\ exists r', In r' t' /\ id r' = job_id /\ max_retries r' = M /\ standing M n r'.
Proof.
  intros U Hin Hid Hs Ha Hm HM F.
  induction F as [t|n t t1 t2 w env j res F IH Turn Hj Hfail
                 |n t t1 t2 w env j res F IH Turn Hj
                 |n t t1 t2 w env F IH Turn].
  - split; [exact U|]. exists r. repeat split; try assumption.
    apply standing_retry; [unfold claimable; now rewrite Hs | now rewrite Ha | exact HM].
  - destruct (IH U Hin) as (U1 & r1 & Hin1 & Hid1 & Hm1 & St).
    destruct (process_job_turn _ _ _ _ _ _ _ _ U1 Turn) as (x & Hx & Hc & Hdict & Hcommit).
    assert (x = r1) as ->.
    { apply (unique_ids_same t1); try assumption.
      rewrite Hid1, <- Hj, Hdict. reflexivity. }
    cbv zeta in Hcommit.
    set (now := now_iso (clock_pick env)) in *.
    set (t1' := UPDATE (has_id_of (id r1)) (set_processing w now) t1) in *.
    assert (U1' : unique_ids t1') by (apply unique_ids_UPDATE; [reflexivity|exact U1]).
    assert (Hin1' : In (set_processing w now r1) t1').
    { apply In_UPDATE_set; [exact Hin1|]. unfold has_id_of. apply String.eqb_refl. }
    destruct St as [_ Hat Hn|Hst _|Hst _ _];
      [|unfold claimable in Hc; rewrite Hst in Hc; discriminate
       |unfold claimable in Hc; rewrite Hst in Hc; discriminate].
    destruct (execute_job_failure _ _ Hfail) as (out & msg & Ex).
    rewrite Ex, process_job_commit_failure in Hcommit.
    assert (Hda : d_attempts j = Z.of_nat n) by (rewrite Hdict; exact Hat).
    assert (Hdm : d_max_retries j = M) by (rewrite Hdict; exact Hm1).
    assert (Hdi : d_id j = id r1) by (rewrite Hdict; reflexivity).
    rewrite Hda, Hdm, Hdi in Hcommit.
    destruct (Z.of_nat n + 1 >? M) eqn:Cmp.
    + destruct Hcommit as [-> _]. split.
      { apply unique_ids_UPDATE; [reflexivity|exact U1']. }
      eexists. split.
      { apply In_UPDATE_set; [exact Hin1'|]. unfold has_id_of. apply String.eqb_refl. }
      simpl. repeat split; try assumption.
      apply standing_dead; simpl; [reflexivity|lia|].
      apply Z.gtb_lt in Cmp. lia.
    + assert (Z.of_nat n + 1 <= M) as Le.
      { destruct (Z.gtb_spec (Z.of_nat n + 1) M); [discriminate|lia]. }
      destruct (plus_seconds _ _) as [due|].
      * destruct Hcommit as [-> _]. split.
        { apply unique_ids_UPDATE; [reflexivity|exact U1']. }
        eexists. split.
        { apply In_UPDATE_set; [exact Hin1'|]. unfold has_id_of. apply String.eqb_refl. }
        simpl. repeat split; try assumption.
        apply standing_retry; simpl; [reflexivity|lia|lia].
      * destruct Hcommit as [-> _]. split; [exact U1'|].
        exists (set_processing w now r1). simpl. repeat split; try assumption.
        apply standing_stuck; simpl; [reflexivity|lia].
  - destruct (IH U Hin) as (U1 & r1 & Hin1 & Hid1 & Hm1 & St).
    destruct (process_job_turn _ _ _ _ _ _ _ _ U1 Turn) as (x & Hx & Hc & Hdict & Hcommit).
    cbv zeta in Hcommit.
    set (now := now_iso (clock_pick env)) in *.
    set (t1' := UPDATE (has_id_of (id x)) (set_processing w now) t1) in *.
    assert (Hdi : d_id j = id x) by (rewrite Hdict; reflexivity).
    assert (Hne : has_id_of (id x) r1 = false).
    { unfold has_id_of. apply String.eqb_neq. congruence. }
    assert (U1' : unique_ids t1') by (apply unique_ids_UPDATE; [reflexivity|exact U1]).
    assert (Hin1' : In r1 t1') by (apply In_UPDATE_keep; assumption).
    destruct (process_job_commit j _ _ _ base t1') as [t'|e] eqn:C.
    + destruct Hcommit as [-> _].
      destruct (process_job_commit_ids _ _ _ _ _ _ _ C) as (set & Hset & ->).
      split; [now apply unique_ids_UPDATE|].
      exists r1. repeat split; try assumption.
      apply In_UPDATE_keep; [exact Hin1'|]. now rewrite Hdi.
    + destruct Hcommit as [-> _]. split; [exact U1'|].
      exists r1. repeat split; assumption.
  - destruct (IH U Hin) as (U1 & r1 & Hin1 & Hid1 & Hm1 & St).
    unfold process_job in Turn.
    destruct (pick_next_job w (clock_pick env) t1) as [t1' [j0|]] eqn:P.
    + destruct (process_job_commit j0 _ _ _ base t1'); discriminate.
    + injection Turn as <-. apply pick_next_job_none in P. destruct P as [-> _].
      split; [exact U1|]. exists r1. repeat split; assumption.
Qed.

(** C3: when the execution fails and [a' = attempts + 1 > max_retries],
    the transition makes the job [dead] with [attempts = a'],
    [last_error] the failure reason and [picked_by] null, and leaves
    [due_at] as it was; and a job enqueued with [max_retries = M >= 0]
    whose executions all fail is [dead] after [n] of them exactly when
    [n = M + 1], no further execution being possible after that. *)
Theorem dead_after_max_retries_plus_one :
  (forall (j : job_dict) (run : run_outcome) (timeout : Z)
          (clock clock_retry : datetime) (backoff_base : Z) (t : table),
      fst (fst (execute_job run timeout)) = false ->
      d_attempts j + 1 > d_max_retries j ->
      exists t',
        process_job_commit j (execute_job run timeout) clock clock_retry backoff_base t
        = Return t'
        /\ rows_changed (has_id_of (d_id j))
             (fun r r' =>
                state r' = dead
                /\ attempts r' = d_attempts j + 1
                /\ last_error r' = snd (execute_job run timeout)
                /\ picked_by r' = None
                /\ due_at r' = due_at r)
             t t')
  /\ (forall (M timeout backoff_base : Z) (t t' : table) (r : job) (n : nat),
         unique_ids t -> In r t ->
         state r = pending -> attempts r = 0 -> max_retries r = M -> 0 <= M ->
         failing_executions (id r) timeout backoff_base n t t' ->
         Z.of_nat n <= M + 1
         /\ exists r', In r' t' /\ id r' = id r
                       /\ (state r' = dead <-> Z.of_nat n = M + 1)).
Proof.
  split.
  - intros j run timeout clock clock_retry base t Hfail Hgt.
    destruct (execute_job_failure _ _ Hfail) as (out & msg & ->).
    rewrite process_job_commit_failure.
    destruct (Z.gtb_spec (d_attempts j + 1) (d_max_retries j)) as [_|Hle]; [|lia].
    eexists. split; [reflexivity|].
    apply UPDATE_rows_changed. intros r _ _. simpl. repeat split; reflexivity.
  - intros M timeout base t t' r n U Hin Hs Ha Hm HM F.
    destruct (failing_executions_standing (id r) timeout base M n t t' r
                U Hin eq_refl Hs Ha Hm HM F) as (_ & r' & Hin' & Hid' & _ & St).
    destruct (standing_dead_iff _ _ _ St) as [Hn Hiff].
    split; [exact Hn|]. exists r'. repeat split; tauto.
Qed.

Lemma three_failing_executions :
  exists t',
    failing_executions "j2" 120 2 3 [Sample.fresh] t'
    /\ exists r', t' = [r'] /\ attempts r' = 3.
Proof.
  eexists. split.
  - eapply fe_fail with (worker_id := "worker-1") (env := Sample.failing_turn 6);
      [eapply fe_fail with (worker_id := "worker-1") (env := Sample.failing_turn 2);
       [eapply fe_fail with (worker_id := "worker-1") (env := Sample.failing_turn 0);
        [apply fe_start| | | ]| | | ]| | | ];
      try (cbv; reflexivity).
  - eexists. split; reflexivity.
Qed.

Lemma dead_after_max_retries_plus_one_witness :
  (exists t',
      process_job_commit (Sample.claimed 3 3) (execute_job Sample.exit_1 120)
                         Sample.noon Sample.noon 2 [Sample.claimed_row 3 3]
      = Return t')
  /\ exists t' r',
       failing_executions "j2" 120 2 3 [Sample.fresh] t'
       /\ In r' t' /\ state r' = dead.
Proof.
  split.
  - destruct (proj1 dead_after_max_retries_plus_one
                (Sample.claimed 3 3) Sample.exit_1 120 Sample.noon Sample.noon 2
                [Sample.claimed_row 3 3] eq_refl eq_refl) as (t' & E & _).
    now exists t'.
  - destruct three_failing_executions as (t' & F & _).
    assert (U : unique_ids [Sample.fresh]).
    { unfold unique_ids. simpl. repeat constructor. intros []. }
    destruct (proj2 dead_after_max_retries_plus_one 2 120 2 [Sample.fresh] t'
                Sample.fresh 3%nat U (or_introl eq_refl) eq_refl eq_refl eq_refl
                ltac:(lia) F) as (_ & r' & Hin & _ & Hdead).
    exists t', r'. repeat split; try assumption. now apply Hdead.
Defined.

(** ** The retry branch *)

(** C4 as stated fails: with [backoff_base = 10^12] the first failure of
    a job that may still be retried asks for a date past year 9999;
    [datetime] has none, the addition raises [OverflowError], no row is
    written and the job is not [failed]: the turn leaves it
    [processing]. *)
Lemma retry_beyond_datetime_range :
  let j := Sample.claimed 0 3 in
  let t := [Sample.claimed_row 0 3] in
  fst (fst (execute_job Sample.exit_1 120)) = false
  /\ d_attempts j + 1 <= d_max_retries j
  /\ process_job_commit j (execute_job Sample.exit_1 120) Sample.noon Sample.noon
                        (10 ^ 12) t
     = Raise OverflowError
  /\ ~ (exists t' r',
           process_job_commit j (execute_job Sample.exit_1 120) Sample.noon Sample.noon
                              (10 ^ 12) t = Return t'
           /\ In r' t' /\ state r' = failed).
Proof.
  cbv zeta. split; [reflexivity|]. split; [discriminate|].
  assert (E : process_job_commit (Sample.claimed 0 3) (execute_job Sample.exit_1 120)
                Sample.noon Sample.noon (10 ^ 12) [Sample.claimed_row 0 3]
              = Raise OverflowError) by (vm_compute; reflexivity).
  split; [exact E|]. intros (t' & r' & E' & _). rewrite E in E'. discriminate.
Qed.

(** C4 (amended): when the execution fails and [a' = attempts + 1 <=
    max_retries], then, provided [now + backoff_base ^ a'] seconds is a
    date [datetime] can hold, the transition makes the job [failed] with
    [attempts = a'], [last_error] the failure reason, [picked_by] null and
    [due_at] that date, [a'] being the count after the increment (so
    [backoff_base ^ 1] after the first failure, nothing added);
    otherwise it raises [OverflowError] and writes nothing. *)
Theorem commit_of_retry (j : job_dict) (run : run_outcome) (timeout : Z)
        (clock clock_retry : datetime) (backoff_base : Z) (t : table) :
  fst (fst (execute_job run timeout)) = false ->
  d_attempts j + 1 <= d_max_retries j ->
  calculate_backoff_delay (0 + 1) backoff_base = backoff_base
  /\ match plus_seconds clock_retry
                        (calculate_backoff_delay (d_attempts j + 1) backoff_base) with
     | Some due =>
         to_us due
         = to_us clock_retry + backoff_base ^ (d_attempts j + 1) * US_PER_SECOND
         /\ exists t',
           process_job_commit j (execute_job run timeout) clock clock_retry
                              backoff_base t = Return t'
           /\ rows_changed (has_id_of (d_id j))
                (fun r r' =>
                   state r' = failed
                   /\ attempts r' = d_attempts j + 1
                   /\ last_error r' = snd (execute_job run timeout)
                   /\ picked_by r' = None
                   /\ due_at r' = Py.replace (isoformat "T" due) "+00:00" "Z")
                t t'
     | None =>
         process_job_commit j (execute_job run timeout) clock clock_retry
                            backoff_base t = Raise OverflowError
     end.
Proof.
  intros Hfail Hle. split.
  { unfold calculate_backoff_delay. simpl (0 + 1). apply Z.pow_1_r. }
  destruct (execute_job_failure _ _ Hfail) as (out & msg & ->).
  rewrite process_job_commit_failure. unfold calculate_backoff_delay.
  destruct (Z.gtb_spec (d_attempts j + 1) (d_max_retries j)) as [Hgt|_]; [lia|].
  destruct (plus_seconds clock_retry (backoff_base ^ (d_attempts j + 1))) as [due|] eqn:P;
    [|reflexivity].
  split; [exact (proj1 (plus_seconds_to_us _ _ _ P))|].
  eexists. split; [reflexivity|].
  apply UPDATE_rows_changed. intros r _ _. simpl. repeat split; reflexivity.
Qed.

Lemma commit_of_retry_witness :
  exists t' r',
    process_job_commit (Sample.claimed 0 3) (execute_job Sample.exit_1 120)
                       Sample.noon Sample.noon 2 [Sample.claimed_row 0 3] = Return t'
    /\ t' = [r'] /\ state r' = failed /\ attempts r' = 1
    /\ due_at r' = "2024-01-01T12:00:02.250000Z".
Proof.
  generalize (proj2 (commit_of_retry (Sample.claimed 0 3) Sample.exit_1 120
                       Sample.noon Sample.noon 2 [Sample.claimed_row 0 3]
                       eq_refl ltac:(discriminate))).
  change (plus_seconds Sample.noon
            (calculate_backoff_delay (d_attempts (Sample.claimed 0 3) + 1) 2))
    with (Some (mkdt 2024 1 1 12 0 2 250000)).
  intros (_ & t' & E & F).
  inversion F as [|r r' l l' Hr Hl]; subst. inversion Hl; subst.
  exists [r'], r'. vm_compute in Hr. destruct Hr as (A & B & _ & _ & D).
  repeat split; assumption.
Defined.

(** ** The dead-letter queue *)

Lemma state_eqb_eq (a b : job_state) : state_eqb a b = true <-> a = b.
Proof. destruct a, b; simpl; split; intros H; try reflexivity; discriminate. Qed.

Lemma in_dlq_iff (job_id : string) (r : job) :
  in_dlq job_id r = true <-> id r = job_id /\ state r = dead.
Proof.
  unfold in_dlq. now rewrite andb_true_iff, String.eqb_eq, state_eqb_eq.
Qed.

Lemma dlq_retry_cases (job_id : string) (clock_due clock_updated : datetime) (t : table) :
  ((exists r, In r t /\ id r = job_id /\ state r = dead)
   /\ dlq_retry job_id clock_due clock_updated t
      = (UPDATE (in_dlq job_id) (set_retry (now_iso clock_due) (now_iso clock_updated)) t,
         Return ("Reset job '" ++ job_id ++ "' to pending (will retry from beginning)")%string))
  \/ ((forall r, In r t -> ~ (id r = job_id /\ state r = dead))
      /\ dlq_retry job_id clock_due clock_updated t
         = (t, Raise (SystemExit ("Job '" ++ job_id ++ "' not found in DLQ")%string))).
Proof.
  unfold dlq_retry. fold (in_dlq job_id).
  destruct (RETURNING (in_dlq job_id) _ t) as [|r' rest] eqn:R.
  - right. split; [|reflexivity]. rewrite RETURNING_nil in R.
    intros r Hr H. apply in_dlq_iff in H. rewrite (R r Hr) in H. discriminate.
  - left. split; [|reflexivity].
    assert (X : In r' (r' :: rest)) by now left.
    rewrite <- R in X. apply In_RETURNING in X. destruct X as (r & Hr & Hw & _).
    exists r. apply in_dlq_iff in Hw. tauto.
Qed.

(** C6 as stated fails: the statement binds two readings of the clock,
    one for [due_at] and one for [updated_at]; when a second ticks
    between them the retry succeeds and the two columns differ. *)
Lemma dlq_retry_reads_the_clock_twice :
  exists r' msg,
    dlq_retry "d" (mkdt 2024 1 1 12 0 0 999999) (mkdt 2024 1 1 12 0 1 0) [Sample.job_d]
    = ([r'], Return msg)
    /\ due_at r' = "2024-01-01T12:00:00Z"
    /\ updated_at r' = "2024-01-01T12:00:01Z"
    /\ due_at r' <> updated_at r'.
Proof.
  eexists. eexists. split; [reflexivity|]. simpl.
  repeat split; try reflexivity. discriminate.
Qed.

(** C6 (amended): [dlq_retry(id)] succeeds if and only if a job with
    that id exists in state [dead]; on success that job gets
    [(state, attempts, last_error, picked_by) = (pending, 0, null, null)],
    [due_at] the clock reading of the first [now_iso()] and [updated_at]
    that of the second (equal when both readings show the same second);
    otherwise it exits with ["Job '<id>' not found in DLQ"] and the table
    is as it was. *)
Theorem dlq_retry_outcome (job_id : string) (clock_due clock_updated : datetime)
        (t : table) :
  let t' := fst (dlq_retry job_id clock_due clock_updated t) in
  let res := snd (dlq_retry job_id clock_due clock_updated t) in
  ((exists r, In r t /\ id r = job_id /\ state r = dead) <-> exists msg, res = Return msg)
  /\ ((exists msg, res = Return msg) ->
      rows_changed (in_dlq job_id)
        (fun r r' =>
           state r' = pending /\ attempts r' = 0
           /\ last_error r' = None /\ picked_by r' = None
           /\ due_at r' = now_iso clock_due
           /\ updated_at r' = now_iso clock_updated
           /\ (now_iso clock_due = now_iso clock_updated -> due_at r' = updated_at r'))
        t t')
  /\ ((forall msg, res <> Return msg) ->
      res = Raise (SystemExit ("Job '" ++ job_id ++ "' not found in DLQ")%string)
      /\ t' = t).
Proof.
  cbv zeta.
  destruct (dlq_retry_cases job_id clock_due clock_updated t) as [[Hex ->]|[Hno ->]];
    simpl.
  - split; [split; eauto|]. split.
    + intros _. apply UPDATE_rows_changed. intros r _ _. simpl.
      repeat split; try reflexivity. auto.
    + intros H. exfalso. eapply H. reflexivity.
  - split.
    + split; [|intros [msg H]; discriminate].
      intros (r & Hr & H). exfalso. exact (Hno r Hr H).
    + split; [intros [msg H]; discriminate|]. intros _. split; reflexivity.
Qed.

(** C10: a successful [dlq_retry] leaves [command], [created_at],
    [priority], [max_retries] and [output] (and the id) of the job it
    re-admits as they were, and touches no other row: the last recorded
    output survives. *)
Theorem dlq_retry_frame (job_id : string) (clock_due clock_updated : datetime)
        (t : table) (msg : string) :
  snd (dlq_retry job_id clock_due clock_updated t) = Return msg ->
  rows_changed (in_dlq job_id)
    (fun r r' =>
       command r' = command r /\ created_at r' = created_at r
       /\ priority r' = priority r /\ max_retries r' = max_retries r
       /\ output r' = output r /\ id r' = id r)
    t (fst (dlq_retry job_id clock_due clock_updated t)).
Proof.
  destruct (dlq_retry_cases job_id clock_due clock_updated t) as [[Hex ->]|[Hno ->]];
    simpl; [|discriminate].
  intros _. apply UPDATE_rows_changed. intros r _ _. simpl. repeat split; reflexivity.
Qed.

Lemma dlq_retry_frame_witness :
  exists a b c d',
    fst (dlq_retry "d" Sample.noon Sample.noon Sample.jobs) = [a; b; c; d']
    /\ a = Sample.job_a /\ b = Sample.job_b /\ c = Sample.job_c
    /\ state d' = pending
    /\ output d' = Some (of_ascii "partial")
    /\ command d' = "exit 1".
Proof.
  generalize (dlq_retry_frame "d" Sample.noon Sample.noon Sample.jobs _ eq_refl).
  destruct (fst (dlq_retry "d" Sample.noon Sample.noon Sample.jobs))
    as [|a [|b [|c [|d' [|e rest]]]]] eqn:E; try (vm_compute in E; discriminate).
  intros F.
  inversion F as [|? ? ? ? Ha Fa]; subst. inversion Fa as [|? ? ? ? Hb Fb]; subst.
  inversion Fb as [|? ? ? ? Hc Fc]; subst. inversion Fc as [|? ? ? ? Hd Fd]; subst.
  simpl in Ha, Hb, Hc, Hd. destruct Hd as (Hcmd & _ & _ & _ & Hout & _).
  exists a, b, c, d'. repeat split; try assumption.
  vm_compute in E. now inversion E.
Defined.

(** ** Timestamps *)

Lemma digit_cases (n : Z) :
  exists k, (k < 10)%nat /\ digit n = ascii_of_nat (48 + k).
Proof.
  exists (Z.to_nat (n mod 10)). split; [|reflexivity].
  pose proof (Z.mod_pos_bound n 10 ltac:(lia)). lia.
Qed.

Lemma is_digit_digit (n : Z) : is_digit (digit n) = true.
Proof.
  destruct (digit_cases n) as (k & Hk & ->).
  do 10 (destruct k as [|k]; [reflexivity|]). lia.
Qed.

Lemma digit_is_not_plus (n : Z) : Ascii.eqb (digit n) "+" = false.
Proof.
  destruct (digit_cases n) as (k & Hk & ->).
  do 10 (destruct k as [|k]; [reflexivity|]). lia.
Qed.

Lemma replace_offset_other (c : ascii) (s : string) :
  Ascii.eqb c "+" = false ->
  Py.replace_from "+00:00" "Z" O (String c s)
  = String c (Py.replace_from "+00:00" "Z" O s).
Proof.
  intros H. cbn [Py.replace_from Py.startswith]. now rewrite H.
Qed.

(** What [now_iso] prints, character by character. *)
Lemma now_iso_shape (t : datetime) :
  now_iso t
  = (zpad 4 (year t) ++ "-" ++ zpad 2 (month t) ++ "-" ++ zpad 2 (day t) ++ "T"
     ++ zpad 2 (hour t) ++ ":" ++ zpad 2 (minute t) ++ ":" ++ zpad 2 (second t) ++ "Z")%string.
Proof.
  unfold now_iso, isoformat, replace_microsecond, Py.replace.
  cbn [year month day hour minute second microsecond Z.eqb zpad String.append].
  repeat (rewrite replace_offset_other by (apply digit_is_not_plus || reflexivity)).
  reflexivity.
Qed.

(** Every string [now_iso] returns has the canonical form. *)
Lemma now_iso_canonical (t : datetime) : canonical (now_iso t) = true.
Proof.
  rewrite now_iso_shape. unfold canonical.
  cbn [zpad String.append list_ascii_of_string].
  rewrite !is_digit_digit. reflexivity.
Qed.

(** What the [sqlite3] adapter writes for a [datetime] never has the
    canonical form: it is 25 or 32 characters long. *)
Lemma adapt_datetime_not_canonical (t : datetime) :
  canonical (adapt_datetime t) = false.
Proof.
  unfold adapt_datetime, isoformat, canonical.
  destruct (microsecond t =? 0);
    cbn [zpad String.append list_ascii_of_string]; reflexivity.
Qed.

(** The retry branch binds the [datetime] itself to [updated_at]. *)
Lemma retry_commit_updated_at (j : job_dict) (out : pystr) (error : option string)
      (clock clock_retry : datetime) (backoff_base : Z) (t t' : table) :
  d_attempts j + 1 <= d_max_retries j ->
  process_job_commit j (false, out, error) clock clock_retry backoff_base t = Return t' ->
  rows_changed (has_id_of (d_id j))
    (fun r r' => updated_at r' = adapt_datetime clock_retry
                 /\ canonical (updated_at r') = false) t t'.
Proof.
  intros Hle. rewrite process_job_commit_failure.
  destruct (Z.gtb_spec (d_attempts j + 1) (d_max_retries j)) as [Hgt|_]; [lia|].
  destruct (plus_seconds _ _) as [due|]; [|discriminate].
  intros [= <-]. apply UPDATE_rows_changed. intros r _ _. simpl.
  split; [reflexivity|apply adapt_datetime_not_canonical].
Qed.

(** The [due_at] of a retry, printed with its fraction, compares below
    the canonical stamp of its own second: the job is eligible up to a
    second before the instant it was scheduled for. *)
Example retry_due_at_sorts_before_its_second :
  String.leb "2024-01-01T12:00:02.250000Z" (now_iso (mkdt 2024 1 1 12 0 2 0)) = true.
Proof. reflexivity. Qed.

(** C8 (fails on the code): a job claimed with [attempts = 0] and
    [max_retries = 3] whose command exits with 1, the clock reading
    12:00:00.250000 and [backoff_base = 2]: the retry branch writes
    [updated_at] as the adapted [datetime], with a space, the fraction
    and [+00:00], and [due_at] with the fraction; neither has the form
    [YYYY-MM-DDTHH:MM:SSZ]. *)
Theorem retry_commit_timestamps_not_canonical :
  match process_job_commit (Sample.claimed 0 3) (execute_job Sample.exit_1 120)
                           Sample.noon Sample.noon 2 [Sample.claimed_row 0 3] with
  | Return [r'] =>
      state r' = failed
      /\ updated_at r' = "2024-01-01 12:00:00.250000+00:00"
      /\ due_at r' = "2024-01-01T12:00:02.250000Z"
      /\ canonical (updated_at r') = false
      /\ canonical (due_at r') = false
  | _ => False
  end.
Proof. vm_compute. repeat split; reflexivity. Qed.

(** ** The captured output *)

Lemma utf8_len_bound (s : pystr) : utf8_len s <= 4 * Z.of_nat (List.length s).
Proof.
  induction s as [|c s IH]; [simpl; lia|].
  change (utf8_len (c :: s)) with (utf8_width c + utf8_len s).
  assert (utf8_width c <= 4).
  { unfold utf8_width. destruct (c <? 128)%N, (c <? 2048)%N, (c <? 65536)%N; lia. }
  simpl List.length. lia.
Qed.

Lemma process_job_commit_failure_output (j : job_dict) (out : pystr)
      (error : option string) (clock clock_retry : datetime) (backoff_base : Z)
      (t : table) :
  match process_job_commit j (false, out, error) clock clock_retry backoff_base t with
  | Return t' => Forall2 (fun r r' => output r' = output r) t t'
  | Raise e => e = OverflowError
  end.
Proof.
  rewrite process_job_commit_failure.
  destruct (d_attempts j + 1 >? d_max_retries j).
  - apply Forall2_weaken with (2 := UPDATE_rowwise _ _ t).
    intros r r' _ ->. now destruct (has_id_of (d_id j) r).
  - destruct (plus_seconds _ _) as [due|]; [|reflexivity].
    apply Forall2_weaken with (2 := UPDATE_rowwise _ _ t).
    intros r r' _ ->. now destruct (has_id_of (d_id j) r).
Qed.

(** C7 as stated fails twice. A command that prints [boom] and exits
    with 1: the transition leaves the [output] column null. A command
    that succeeds and prints 10000 times the letter e with an acute
    accent (code point 233): the stored output has 10000 characters,
    20000 bytes in UTF-8. *)
Lemma output_not_stored_on_failure_nor_cut_in_bytes :
  match process_job_commit (Sample.claimed 0 3) (execute_job Sample.exit_1 120)
                           Sample.noon Sample.noon 2 [Sample.claimed_row 0 3] with
  | Return [r'] =>
      snd (fst (execute_job Sample.exit_1 120)) = of_ascii "boom" /\ output r' = None
  | _ => False
  end
  /\ match process_job_commit (Sample.claimed 0 3)
             (execute_job (CompletedProcess 0 (repeat 233%N (Z.to_nat 10000)) []) 120)
             Sample.noon Sample.noon 2 [Sample.claimed_row 0 3] with
     | Return [r'] =>
         match output r' with
         | Some out => utf8_len out = 20000 /\ 10000 < utf8_len out
         | None => False
         end
     | _ => False
     end.
Proof. vm_compute. repeat split; reflexivity. Qed.

(** C7 (amended): when the execution succeeds, the transition stores
    the combined stdout and stderr cut to its first 10000 characters, so
    that afterwards [output] has at most 10000 characters (at most 40000
    bytes in UTF-8); when the execution fails (non-zero exit, timeout or
    exception) the transition leaves the [output] column of every row as
    it was, and for a timeout or an exception [execute_job] reports an
    empty output. *)
Theorem output_stored_on_success_only (j : job_dict) (run : run_outcome) (timeout : Z)
        (clock clock_retry : datetime) (backoff_base : Z) (t : table) :
  (fst (fst (execute_job run timeout)) = true ->
   exists stdout stderr t',
     run = CompletedProcess 0 stdout stderr
     /\ process_job_commit j (execute_job run timeout) clock clock_retry backoff_base t
        = Return t'
     /\ rows_changed (has_id_of (d_id j))
          (fun r r' =>
             exists out,
               output r' = Some out
               /\ out = firstn (Z.to_nat 10000) (stdout ++ stderr)
               /\ Z.of_nat (List.length out) <= 10000
               /\ utf8_len out <= 40000)
          t t')
  /\ (fst (fst (execute_job run timeout)) = false ->
      match process_job_commit j (execute_job run timeout) clock clock_retry
                               backoff_base t with
      | Return t' => Forall2 (fun r r' => output r' = output r) t t'
      | Raise e => e = OverflowError
      end)
  /\ (run = TimeoutExpired \/ (exists msg, run = OtherException msg) ->
      fst (execute_job run timeout) = (false, [])).
Proof.
  split; [|split].
  - intros Hs. destruct (execute_job_success run timeout Hs) as (out & err & -> & E).
    rewrite E. exists out, err. eexists. split; [reflexivity|].
    split; [reflexivity|].
    apply UPDATE_rows_changed. intros r _ _.
    exists (firstn (Z.to_nat 10000) (out ++ err)). split; [reflexivity|].
    split; [reflexivity|].
    assert (L : Z.of_nat (List.length (firstn (Z.to_nat 10000) (out ++ err))) <= 10000).
    { pose proof (firstn_le_length (Z.to_nat 10000) (out ++ err)). lia. }
    split; [exact L|].
    pose proof (utf8_len_bound (firstn (Z.to_nat 10000) (out ++ err))) as B.
    revert L B. generalize (firstn (Z.to_nat 10000) (out ++ err)). intros o L B. lia.
  - intros Hf. destruct (execute_job_failure run timeout Hf) as (out & msg & ->).
    apply process_job_commit_failure_output.
  - intros [->|[msg ->]]; reflexivity.
Qed.

Lemma output_stored_on_success_only_witness :
  (exists stdout stderr t',
      CompletedProcess 0 (of_ascii "ok") (of_ascii "!") = CompletedProcess 0 stdout stderr
      /\ process_job_commit (Sample.claimed 0 3)
           (execute_job (CompletedProcess 0 (of_ascii "ok") (of_ascii "!")) 120)
           Sample.noon Sample.noon 2 [Sample.claimed_row 0 3] = Return t')
  /\ fst (execute_job TimeoutExpired 120) = (false, []).
Proof.
  pose proof (output_stored_on_success_only (Sample.claimed 0 3)
                (CompletedProcess 0 (of_ascii "ok") (of_ascii "!")) 120
                Sample.noon Sample.noon 2 [Sample.claimed_row 0 3]) as [S _].
  pose proof (output_stored_on_success_only (Sample.claimed 0 3)
                TimeoutExpired 120
                Sample.noon Sample.noon 2 [Sample.claimed_row 0 3]) as [_ [_ T]].
  split.
  - destruct (S eq_refl) as (out & err & t' & E & C & _). now exists out, err, t'.
  - apply T. now left.
Defined.

Lemma dlq_retry_outcome_witness :
  (exists r, In r Sample.jobs /\ id r = "d" /\ state r = dead)
  /\ (exists msg, snd (dlq_retry "d" Sample.noon Sample.noon Sample.jobs) = Return msg)
  /\ snd (dlq_retry "a" Sample.noon Sample.noon Sample.jobs)
     = Raise (SystemExit "Job 'a' not found in DLQ")
  /\ fst (dlq_retry "a" Sample.noon Sample.noon Sample.jobs) = Sample.jobs.
Proof.
  pose proof (dlq_retry_outcome "d" Sample.noon Sample.noon Sample.jobs) as [Hd _].
  pose proof (dlq_retry_outcome "a" Sample.noon Sample.noon Sample.jobs) as [_ [_ Ha]].
  cbv zeta in Hd, Ha.
  assert (X : exists r, In r Sample.jobs /\ id r = "d" /\ state r = dead).
  { exists Sample.job_d. simpl. tauto. }
  split; [exact X|]. split; [now apply Hd|].
  apply Ha. intros msg H. vm_compute in H. discriminate.
Defined.

(** * Further properties of the engine *)

Import Config Workers Reports Lifecycle.

(** ** The invariant of the system *)

Lemma enqueue_job_cases (sub : submission) (cfg : Z) (clock_ts clock : datetime)
      (t : table) :
  (exists e, enqueue_job sub cfg clock_ts clock t = (t, Raise e))
  \/ (exists cmd,
        j_command sub = Some (Some cmd)
        /\ let job_id :=
             or_str (j_id sub) ("job-" ++ str_of_int (timestamp_int clock_ts))%string in
           has_id job_id t = false
           /\ enqueue_job sub cfg clock_ts clock t
              = (t ++ [mkjob job_id cmd pending 0 (Py.get (j_max_retries sub) cfg)
                             (now_iso clock) (now_iso clock)
                             (or_str (j_run_at sub) (now_iso clock))
                             None None (Py.get (j_priority sub) 0) None],
                 Return ("Enqueued job " ++ job_id)%string)).
Proof.
  unfold enqueue_job. destruct (j_command sub) as [[cmd|]|]; [| |left; eauto];
    (destruct (in_int64 _ && in_int64 _); [|left; eauto]); [|left; eauto].
  destruct (has_id _ t) eqn:H; [left; eauto|].
  right. exists cmd. split; [reflexivity|]. cbv zeta. split; reflexivity.
Qed.

Lemma has_id_false (i : string) (t : table) :
  has_id i t = false <-> ~ In i (map id t).
Proof.
  unfold has_id. split.
  - intros H Hin. apply in_map_iff in Hin. destruct Hin as (r & <- & Hr).
    assert (existsb (fun r0 => String.eqb (id r0) (id r)) t = true); [|congruence].
    apply existsb_exists. exists r. split; [exact Hr|apply String.eqb_refl].
  - intros H. destruct (existsb _ t) eqn:E; [|reflexivity]. exfalso. apply H.
    apply existsb_exists in E. destruct E as (r & Hr & E). apply String.eqb_eq in E.
    rewrite <- E. now apply in_map.
Qed.

Lemma unique_ids_app_new (t : table) (r : job) :
  unique_ids t -> has_id (id r) t = false -> unique_ids (t ++ [r]).
Proof.
  unfold unique_ids. intros U H. rewrite map_app. simpl.
  apply NoDup_app; [exact U|repeat constructor; intros []|].
  intros x Hx [<-|[]]. apply has_id_false in H. contradiction.
Qed.

Lemma rows_ok_UPDATE (where_ : job -> bool) (set : job -> job) (t : table) :
  rows_ok t ->
  (forall r, In r t -> where_ r = true -> row_ok (set r)) ->
  rows_ok (UPDATE where_ set t).
Proof.
  intros Ht Hset r' Hr'. apply In_UPDATE in Hr'. destruct Hr' as (r & Hr & ->).
  destruct (where_ r) eqn:E; [now apply Hset | now apply Ht].
Qed.

Lemma holds_UPDATE (where_ : job -> bool) (set : job -> job) (t : table)
      (w : string) (j : job_dict) :
  holds t w j ->
  (forall r, In r t -> state r = processing -> id r = d_id j -> where_ r = false) ->
  holds (UPDATE where_ set t) w j.
Proof.
  intros (r & Hr & Hid & Hs & Hrest) H. exists r. split; [|tauto].
  apply In_UPDATE_keep; [exact Hr|]. now apply H.
Qed.

Lemma holds_app (t : table) (r0 : job) (w : string) (j : job_dict) :
  holds t w j -> holds (t ++ [r0]) w j.
Proof.
  intros (r & Hr & Hrest). exists r. split; [|exact Hrest]. apply in_or_app. now left.
Qed.

Lemma held_ids_split (before after : list (string * job_dict)) (w : string)
      (j : job_dict) :
  NoDup (map (fun wj => d_id (snd wj)) (before ++ (w, j) :: after)) ->
  NoDup (map (fun wj => d_id (snd wj)) (before ++ after))
  /\ forall w' j', In (w', j') (before ++ after) -> d_id j' <> d_id j.
Proof.
  rewrite !map_app. simpl. intros N. split.
  - now apply NoDup_remove_1 in N.
  - apply NoDup_remove_2 in N. intros w' j' Hin E. apply N.
    rewrite <- map_app, <- E.
    exact (in_map (fun wj => d_id (snd wj)) _ _ Hin).
Qed.

Lemma In_split_middle {A : Type} (x y : A) (before after : list A) :
  In x (before ++ after) -> In x (before ++ y :: after).
Proof.
  intros H. apply in_app_or in H. apply in_or_app.
  destruct H; [now left | right; now right].
Qed.

Lemma invariant_enqueue (s : system) sub cfg clock_ts clock :
  invariant s ->
  invariant (mksys (fst (enqueue_job sub cfg clock_ts clock (store s))) (held s)).
Proof.
  intros (U & (Hh & Hn) & Hr).
  destruct (enqueue_job_cases sub cfg clock_ts clock (store s)) as [[e ->]|(cmd & _ & H)].
  { simpl. repeat split; assumption. }
  cbv zeta in H. destruct H as [Hnew ->]. simpl. repeat split.
  - apply unique_ids_app_new; assumption.
  - intros w j Hin. apply holds_app. now apply Hh.
  - exact Hn.
  - intros r Hin. apply in_app_or in Hin. destruct Hin as [Hin|[<-|[]]]; [now apply Hr|].
    unfold row_ok. simpl. repeat split; reflexivity.
Qed.

Lemma row_ok_set_processing (w now : string) (r : job) :
  claimable r = true -> row_ok r -> row_ok (set_processing w now r).
Proof.
  unfold claimable, row_ok. simpl.
  destruct (state r); simpl; try discriminate; intros _ H.
  - destruct H as (Ha & _ & _ & Ho). repeat split; try assumption; try discriminate; lia.
  - destruct H as (Ha & _ & _ & Ho). repeat split; try assumption; try discriminate; lia.
Qed.

Lemma invariant_claim (s : system) worker_id clock t' j :
  invariant s ->
  pick_next_job worker_id clock (store s) = (t', Some j) ->
  invariant (mksys t' ((worker_id, j) :: held s)).
Proof.
  intros (U & (Hh & Hn) & Hr) P.
  destruct (pick_next_job_some _ _ _ _ _ U P) as (r0 & Hin0 & He & _ & -> & ->).
  assert (Hc : claimable r0 = true).
  { unfold eligible in He. apply andb_true_iff in He. tauto. }
  assert (Hnp : state r0 <> processing).
  { intros E. unfold claimable in Hc. rewrite E in Hc. discriminate. }
  assert (Hother : forall r, In r (store s) -> state r = processing -> 
                             has_id_of (id r0) r = false).
  { intros r Hr0 Hs. unfold has_id_of. apply String.eqb_neq. intros E.
    apply Hnp. now rewrite <- (unique_ids_same _ _ _ U Hr0 Hin0 E). }
  simpl. repeat split.
  - apply unique_ids_UPDATE; [reflexivity|exact U].
  - intros w j [[= <- <-]|Hin].
    + exists (set_processing worker_id (now_iso clock) r0). simpl.
      repeat split. apply In_UPDATE_set; [exact Hin0|].
      unfold has_id_of. apply String.eqb_refl.
    + apply holds_UPDATE; [now apply Hh|]. intros r Hr0 Hs _. now apply Hother.
  - unfold held_ids. simpl. constructor; [|exact Hn].
    intros Hin. apply in_map_iff in Hin. destruct Hin as ([w j] & E & Hin).
    simpl in E. destruct (Hh w j Hin) as (r & Hr0 & Hid & Hs & _).
    apply Hnp. rewrite <- (unique_ids_same _ _ _ U Hr0 Hin0); [exact Hs|congruence].
  - apply rows_ok_UPDATE; [exact Hr|]. intros r Hr0 Hw.
    unfold has_id_of in Hw. apply String.eqb_eq in Hw.
    rewrite (unique_ids_same _ _ _ U Hr0 Hin0 Hw).
    apply row_ok_set_processing; [exact Hc|now apply Hr].
Qed.

(** What the transition writes into the held job's row keeps [row_ok]. *)
Lemma row_ok_commit (j : job_dict) (run : run_outcome) (timeout : Z)
      (clock clock_retry : datetime) (base : Z) (t t' : table) :
  process_job_commit j (execute_job run timeout) clock clock_retry base t = Return t' ->
  exists set,
    t' = UPDATE (has_id_of (d_id j)) set t
    /\ (forall r, id (set r) = id r)
    /\ forall r, state r = processing -> attempts r = d_attempts j ->
                 max_retries r = d_max_retries j -> row_ok r -> row_ok (set r).
Proof.
  destruct (fst (fst (execute_job run timeout))) eqn:S.
  - destruct (execute_job_success _ _ S) as (out & err & _ & ->).
    rewrite process_job_commit_success. intros E. apply Return_inj in E. subst t'.
    eexists. split; [reflexivity|]. split; [reflexivity|].
    intros r Hs Ha Hm. unfold row_ok. rewrite Hs.
    unfold set_completed.
    cbn [state attempts max_retries last_error picked_by output].
    intros (Hb & _ & _). repeat split; try lia.
    eexists. split; [reflexivity|].
    pose proof (firstn_le_length OUTPUT_LIMIT (out ++ err)) as L.
    unfold OUTPUT_LIMIT in L at 2. lia.
  - destruct (execute_job_failure _ _ S) as (out & msg & ->).
    rewrite process_job_commit_failure.
    destruct (Z.gtb_spec (d_attempts j + 1) (d_max_retries j)) as [G|G].
    + intros E. apply Return_inj in E. subst t'.
      eexists. split; [reflexivity|]. split; [reflexivity|].
      intros r Hs Ha Hm. unfold row_ok. rewrite Hs. unfold set_dead.
      cbn [state attempts max_retries last_error picked_by output].
      intros (Hb & _ & Ho). repeat split; try assumption; try discriminate. lia.
    + destruct (plus_seconds _ _) as [due|]; [|discriminate].
      intros E. apply Return_inj in E. subst t'.
      eexists. split; [reflexivity|]. split; [reflexivity|].
      intros r Hs Ha Hm. unfold row_ok. rewrite Hs. unfold set_failed.
      cbn [state attempts max_retries last_error picked_by output].
      intros (Hb & _ & Ho). repeat split; try assumption; try discriminate; lia.
Qed.

Lemma invariant_commit (s : system) before after worker_id j run timeout
      clock clock_retry base t' :
  invariant s ->
  held s = (before ++ (worker_id, j) :: after)%list ->
  process_job_commit j (execute_job run timeout) clock clock_retry base (store s)
  = Return t' ->
  invariant (mksys t' (before ++ after)).
Proof.
  intros (U & (Hh & Hn) & Hr) Hheld C.
  destruct (row_ok_commit _ _ _ _ _ _ _ _ C) as (set & -> & Hid & Hset).
  unfold held_ids in Hn. rewrite Hheld in Hn, Hh.
  destruct (held_ids_split _ _ _ _ Hn) as [Hn' Hne].
  destruct (Hh worker_id j) as (r0 & Hin0 & Hid0 & Hs0 & _ & Ha0 & Hm0).
  { apply in_or_app. right. now left. }
  simpl. repeat split.
  - now apply unique_ids_UPDATE.
  - intros w j' Hin. apply holds_UPDATE.
    + apply Hh. now apply In_split_middle.
    + intros r _ _ E. unfold has_id_of. apply String.eqb_neq.
      rewrite E. now apply (Hne w).
  - exact Hn'.
  - apply rows_ok_UPDATE; [exact Hr|]. intros r Hr0 Hw.
    unfold has_id_of in Hw. apply String.eqb_eq in Hw.
    assert (r = r0) as -> by (apply (unique_ids_same _ _ _ U Hr0 Hin0); congruence).
    apply Hset; try assumption. now apply Hr.
Qed.

Lemma invariant_crash (s : system) before after worker_id j :
  invariant s ->
  held s = (before ++ (worker_id, j) :: after)%list ->
  invariant (mksys (store s) (before ++ after)).
Proof.
  intros (U & (Hh & Hn) & Hr) Hheld.
  unfold held_ids in Hn. rewrite Hheld in Hn, Hh.
  destruct (held_ids_split _ _ _ _ Hn) as [Hn' _].
  simpl. repeat split; try assumption.
  intros w j' Hin. apply Hh. now apply In_split_middle.
Qed.

Lemma invariant_dlq_retry (s : system) job_id clock_due clock_updated :
  invariant s ->
  invariant (mksys (fst (dlq_retry job_id clock_due clock_updated (store s))) (held s)).
Proof.
  intros (U & (Hh & Hn) & Hr).
  destruct (dlq_retry_cases job_id clock_due clock_updated (store s))
    as [[_ ->]|[_ ->]]; simpl; [|repeat split; assumption].
  repeat split.
  - apply unique_ids_UPDATE; [reflexivity|exact U].
  - intros w j Hin. apply holds_UPDATE; [now apply Hh|].
    intros r _ Hs _. unfold in_dlq. rewrite Hs. apply andb_false_r.
  - exact Hn.
  - apply rows_ok_UPDATE; [exact Hr|]. intros r Hr0 Hw.
    apply in_dlq_iff in Hw. destruct Hw as [_ Hs].
    specialize (Hr r Hr0). unfold row_ok in *. rewrite Hs in Hr. simpl.
    destruct Hr as (_ & _ & _ & Ho). repeat split; try reflexivity. exact Ho.
Qed.

Lemma invariant_step (s s' : system) : invariant s -> step s s' -> invariant s'.
Proof.
  intros I St. destruct St.
  - now apply invariant_enqueue.
  - eapply invariant_claim; eassumption.
  - apply pick_next_job_none in H. destruct H as [-> _]. now destruct s.
  - eapply invariant_commit; eassumption.
  - eapply invariant_crash; eassumption.
  - now apply invariant_dlq_retry.
Qed.

Lemma invariant_reachable (s : system) : reachable s -> invariant s.
Proof.
  induction 1 as [|s s' R IH St].
  - split; [apply NoDup_nil|]. split; [split; [intros w j []|apply NoDup_nil]|].
    intros r [].
  - now apply (invariant_step s s').
Qed.

Lemma scenario_s1 : step initial Scenario.s1.
Proof. apply step_enqueue. Qed.

Lemma scenario_s2 : step Scenario.s1 Scenario.s2.
Proof.
  apply (step_claim Scenario.s1 "worker-1" (mkdt 2024 1 1 12 0 1 0)). reflexivity.
Qed.

Lemma scenario_s3 : step Scenario.s2 Scenario.s3.
Proof.
  apply (step_commit Scenario.s2 [] [] "worker-1" Scenario.j1 Scenario.ok_run 120
                     (mkdt 2024 1 1 12 0 2 0) (mkdt 2024 1 1 12 0 2 0) 2);
    reflexivity.
Qed.

Lemma scenario_reachable :
  reachable Scenario.s1 /\ reachable Scenario.s2 /\ reachable Scenario.s3.
Proof.
  assert (R1 : reachable Scenario.s1).
  { eapply reachable_step; [apply reachable_initial|apply scenario_s1]. }
  assert (R2 : reachable Scenario.s2).
  { eapply reachable_step; [exact R1|apply scenario_s2]. }
  repeat split; try assumption.
  eapply reachable_step; [exact R2|apply scenario_s3].
Qed.

(** ** The life of a job *)

Lemma commit_moves (j : job_dict) (run : run_outcome) (timeout : Z)
      (clock clock_retry : datetime) (base : Z) (t t' : table) :
  process_job_commit j (execute_job run timeout) clock clock_retry base t = Return t' ->
  exists set,
    t' = UPDATE (has_id_of (d_id j)) set t
    /\ forall r, state r = processing -> attempts r = d_attempts j ->
                 max_retries r = d_max_retries j ->
                 same_submission r (set r) /\ moves r (set r).
Proof.
  destruct (fst (fst (execute_job run timeout))) eqn:S.
  - destruct (execute_job_success _ _ S) as (out & err & _ & ->).
    rewrite process_job_commit_success. intros E. apply Return_inj in E. subst t'.
    eexists. split; [reflexivity|]. intros r Hs Ha Hm.
    split; [unfold same_submission, set_completed; cbn; repeat split|].
    apply moves_complete; [exact Hs|reflexivity|reflexivity|reflexivity].
  - destruct (execute_job_failure _ _ S) as (out & msg & ->).
    rewrite process_job_commit_failure.
    destruct (Z.gtb_spec (d_attempts j + 1) (d_max_retries j)) as [G|G].
    + intros E. apply Return_inj in E. subst t'.
      eexists. split; [reflexivity|]. intros r Hs Ha Hm.
      split; [unfold same_submission, set_dead; cbn; repeat split|].
      apply moves_bury; try reflexivity; try assumption.
      * unfold set_dead. cbn [attempts]. lia.
      * unfold set_dead. cbn [attempts]. lia.
    + destruct (plus_seconds _ _) as [due|]; [|discriminate].
      intros E. apply Return_inj in E. subst t'.
      eexists. split; [reflexivity|]. intros r Hs Ha Hm.
      split; [unfold same_submission, set_failed; cbn; repeat split|].
      apply moves_retry; try reflexivity; try assumption.
      * unfold set_failed. cbn [attempts]. lia.
      * unfold set_failed. cbn [attempts]. lia.
Qed.

Lemma carried_same (t' : table) (r : job) : In r t' -> carried t' r.
Proof.
  intros H. exists r. split; [exact H|]. split; [|now left].
  unfold same_submission. repeat split.
Qed.

Lemma carried_UPDATE (where_ : job -> bool) (set : job -> job) (t : table) (r : job) :
  In r t ->
  (where_ r = true -> same_submission r (set r) /\ moves r (set r)) ->
  carried (UPDATE where_ set t) r.
Proof.
  intros Hr H. destruct (where_ r) eqn:E.
  - exists (set r). split; [now apply In_UPDATE_set|].
    destruct (H eq_refl) as [A B]. split; [exact A|now right].
  - apply carried_same. now apply In_UPDATE_keep.
Qed.

Lemma invariant_step_moves (s s' : system) (r : job) :
  invariant s -> step s s' -> In r (store s) -> carried (store s') r.
Proof.
  intros (U & (Hh & Hn) & Hr) St Hin. destruct St; simpl.
  - apply carried_same.
    destruct (enqueue_job_cases sub cfg_max_retries clock_ts clock (store s))
      as [[e ->]|(cmd & _ & H)]; [exact Hin|].
    cbv zeta in H. destruct H as [_ ->]. simpl. apply in_or_app. now left.
  - destruct (pick_next_job_some _ _ _ _ _ U H) as (r0 & Hin0 & He & _ & _ & ->).
    apply carried_UPDATE; [exact Hin|]. intros Hw.
    unfold has_id_of in Hw. apply String.eqb_eq in Hw.
    rewrite (unique_ids_same _ _ _ U Hin Hin0 Hw).
    unfold eligible in He. apply andb_true_iff in He. destruct He as [Hc _].
    split; [unfold same_submission; simpl; repeat split|].
    apply moves_claim; try reflexivity; [exact Hc|discriminate].
  - apply pick_next_job_none in H. destruct H as [-> _]. now apply carried_same.
  - destruct (commit_moves _ _ _ _ _ _ _ _ H0) as (set & -> & Hset).
    rewrite H in Hh. destruct (Hh worker_id j) as (r0 & Hin0 & Hid0 & Hs0 & _ & Ha0 & Hm0).
    { apply in_or_app. right. now left. }
    apply carried_UPDATE; [exact Hin|]. intros Hw.
    unfold has_id_of in Hw. apply String.eqb_eq in Hw.
    assert (r = r0) as -> by (apply (unique_ids_same _ _ _ U Hin Hin0); congruence).
    now apply Hset.
  - now apply carried_same.
  - destruct (dlq_retry_cases job_id clock_due clock_updated (store s))
      as [[_ ->]|[_ ->]]; simpl; [|now apply carried_same].
    apply carried_UPDATE; [exact Hin|]. intros Hw.
    apply in_dlq_iff in Hw. destruct Hw as [_ Hs].
    split; [unfold same_submission; simpl; repeat split|].
    apply moves_readmit; [exact Hs|reflexivity|reflexivity|reflexivity].
Qed.

Lemma reachable_steps (s s' : system) : reachable s -> steps s s' -> reachable s'.
Proof.
  intros R St. induction St as [|s s' s'' St IH S]; [exact R|].
  eapply reachable_step; [now apply IH|exact S].
Qed.

(** X1: in every state reached from the empty store, no two rows of
    [jobs] have the same id. *)
Theorem store_ids_stay_unique (s : system) :
  reachable s -> unique_ids (store s).
Proof. intros R. apply (invariant_reachable s R). Qed.

Lemma store_ids_stay_unique_witness :
  reachable Scenario.s3 /\ unique_ids (store Scenario.s3).
Proof.
  destruct scenario_reachable as (_ & _ & R3).
  split; [exact R3|]. exact (store_ids_stay_unique Scenario.s3 R3).
Defined.

(** X2: in every reachable state, each job a worker holds between its
    claim and its transition has its row [processing], picked by that
    worker, with the [attempts] and [max_retries] the worker was handed;
    and no job is held twice. *)
Theorem held_jobs_are_exclusive (s : system) :
  reachable s ->
  (forall w j, In (w, j) (held s) ->
     exists r, In r (store s) /\ id r = d_id j /\ state r = processing
               /\ picked_by r = Some w /\ attempts r = d_attempts j
               /\ max_retries r = d_max_retries j)
  /\ NoDup (map (fun wj => d_id (snd wj)) (held s)).
Proof. intros R. apply (invariant_reachable s R). Qed.

Lemma held_jobs_are_exclusive_witness :
  reachable Scenario.s2
  /\ exists r, In r (store Scenario.s2) /\ id r = "j1" /\ state r = processing
               /\ picked_by r = Some "worker-1".
Proof.
  destruct scenario_reachable as (_ & R2 & _). split; [exact R2|].
  destruct (proj1 (held_jobs_are_exclusive Scenario.s2 R2) "worker-1" Scenario.j1
                  (or_introl eq_refl)) as (r & A & B & C & D & _).
  exists r. repeat split; assumption.
Defined.

(** X3: in every reachable state the columns of a row agree with its
    state: a pending job has [attempts = 0] and no error; a failed job
    has [1 <= attempts <= max_retries] and an error; a dead job has
    [attempts = max(1, max_retries + 1)] and an error; a completed job
    has [1 <= attempts <= max(1, max_retries + 1)], no error and an
    output of at most 10000 characters; only completed jobs have an
    output, and only processing jobs are picked. *)
Theorem rows_follow_their_state (s : system) (r : job) :
  reachable s -> In r (store s) ->
  match state r with
  | pending =>
      attempts r = 0 /\ last_error r = None /\ picked_by r = None /\ output r = None
  | processing =>
      0 <= attempts r <= Z.max 0 (max_retries r)
      /\ picked_by r <> None /\ output r = None
  | failed =>
      1 <= attempts r <= max_retries r
      /\ last_error r <> None /\ picked_by r = None /\ output r = None
  | dead =>
      attempts r = Z.max 1 (max_retries r + 1)
      /\ last_error r <> None /\ picked_by r = None /\ output r = None
  | completed =>
      1 <= attempts r <= Z.max 1 (max_retries r + 1)
      /\ last_error r = None /\ picked_by r = None
      /\ exists o, output r = Some o /\ Z.of_nat (List.length o) <= 10000
  end.
Proof. intros R Hin. exact (proj2 (proj2 (invariant_reachable s R)) r Hin). Qed.

Lemma rows_follow_their_state_witness :
  exists r, In r (store Scenario.s3) /\ state r = completed
            /\ 1 <= attempts r <= Z.max 1 (max_retries r + 1).
Proof.
  destruct scenario_reachable as (_ & _ & R3).
  eexists. split; [left; reflexivity|]. split; [reflexivity|].
  exact (proj1 (rows_follow_their_state Scenario.s3 _ R3 (or_introl eq_refl))).
Defined.

(** X4: one operation, from a reachable state, deletes no job and never
    changes the id, command, [max_retries], [created_at] or priority of
    one; each job is either left exactly as it was or makes one move:
    pending or failed to processing (same attempts), processing to
    completed, failed or dead (attempts plus one, failed when the new
    count is at most [max_retries], dead when it is above), dead to
    pending (attempts 0). *)
Theorem job_state_machine (s s' : system) (r : job) :
  reachable s -> step s s' -> In r (store s) ->
  exists r', In r' (store s') /\ same_submission r r' /\ (r' = r \/ moves r r').
Proof.
  intros R St Hin. exact (invariant_step_moves s s' r (invariant_reachable s R) St Hin).
Qed.

Lemma job_state_machine_witness :
  exists r r',
    In r (store Scenario.s2) /\ In r' (store Scenario.s3)
    /\ state r = processing /\ same_submission r r' /\ (r' = r \/ moves r r').
Proof.
  destruct scenario_reachable as (_ & R2 & _).
  destruct (job_state_machine Scenario.s2 Scenario.s3
              (set_processing "worker-1" "2024-01-01T12:00:01Z"
                 (mkjob "j1" "echo ok" pending 0 3 "2024-01-01T12:00:00Z"
                        "2024-01-01T12:00:00Z" "2024-01-01T12:00:00Z" None None 4 None))
              R2 scenario_s3 (or_introl eq_refl)) as (r' & A & B & C).
  eexists. exists r'. split; [left; reflexivity|]. repeat split; try assumption.
  all: apply B.
Defined.

(** X5: a completed job is final: from a reachable state, whatever
    operations follow, its row stays in the table exactly as it is. A
    dead job changes in one way only: one operation either leaves its
    row as it is or re-admits it as pending with [attempts = 0]. *)
Theorem terminal_states_are_sticky (s : system) (r : job) :
  reachable s -> In r (store s) ->
  (state r = completed -> forall s', steps s s' -> In r (store s'))
  /\ (state r = dead -> forall s', step s s' ->
      In r (store s')
      \/ exists r', In r' (store s') /\ id r' = id r
                    /\ state r' = pending /\ attempts r' = 0).
Proof.
  intros R Hin. split.
  - intros Hc s' St. induction St as [|s s' s'' St IH S]; [exact Hin|].
    specialize (IH R Hin).
    destruct (invariant_step_moves s' s'' r
                (invariant_reachable s' (reachable_steps s s' R St)) S IH)
      as (r' & Hr' & _ & [->|M]); [exact Hr'|].
    exfalso. destruct M as [C|P|P|P|P]; try congruence.
    unfold claimable in C. rewrite Hc in C. discriminate.
  - intros Hd s' S.
    destruct (invariant_step_moves s s' r (invariant_reachable s R) S Hin)
      as (r' & Hr' & Sub & [->|M]); [now left|].
    right. exists r'. destruct M as [C|P|P|P|P Q A]; try congruence.
    + unfold claimable in C. rewrite Hd in C. discriminate.
    + repeat split; try assumption. apply Sub.
Qed.

Lemma terminal_states_are_sticky_witness :
  exists r, In r (store Scenario.s3) /\ state r = completed
            /\ In r (store (mksys (fst (dlq_retry "j1" Sample.noon Sample.noon
                                                  (store Scenario.s3)))
                                  (held Scenario.s3))).
Proof.
  destruct scenario_reachable as (_ & _ & R3).
  eexists. split; [left; reflexivity|]. split; [reflexivity|].
  refine (proj1 (terminal_states_are_sticky Scenario.s3 _ R3 (or_introl eq_refl))
                eq_refl _ _).
  eapply steps_more; [apply steps_none|].
  apply (step_dlq_retry Scenario.s3 "j1" Sample.noon Sample.noon).
Defined.

(** X6: [attempts] never goes down except through a DLQ retry: after
    one operation from a reachable state every job is still there with
    [attempts] at least what it was, unless it was dead and is now
    pending with [attempts = 0]. *)
Theorem attempts_never_decrease (s s' : system) (r : job) :
  reachable s -> step s s' -> In r (store s) ->
  exists r', In r' (store s') /\ id r' = id r
             /\ (attempts r <= attempts r'
                 \/ (state r = dead /\ state r' = pending /\ attempts r' = 0)).
Proof.
  intros R St Hin.
  destruct (invariant_step_moves s s' r (invariant_reachable s R) St Hin)
    as (r' & Hr' & Sub & H).
  exists r'. split; [exact Hr'|]. split; [apply Sub|].
  destruct H as [->|[C P Q A|P Q A|P Q A|P Q A|P Q A]]; try (left; lia).
  right. repeat split; assumption.
Qed.

Lemma attempts_never_decrease_witness :
  exists r', In r' (store Scenario.s3) /\ id r' = "j1" /\ 0 <= attempts r'.
Proof.
  destruct scenario_reachable as (_ & R2 & _).
  destruct (attempts_never_decrease Scenario.s2 Scenario.s3
              (set_processing "worker-1" "2024-01-01T12:00:01Z"
                 (mkjob "j1" "echo ok" pending 0 3 "2024-01-01T12:00:00Z"
                        "2024-01-01T12:00:00Z" "2024-01-01T12:00:00Z" None None 4 None))
              R2 scenario_s3 (or_introl eq_refl)) as (r' & A & B & C).
  exists r'. repeat split; try assumption.
  destruct C as [C|(C & _)]; [exact C|discriminate C].
Defined.

(** ** Claims and turns *)

(** X7: on a table with unique ids, two claims in a row never return
    the same job: the row the first one took is [processing] and the
    second one passes over it. *)
Theorem second_claim_takes_another_job
        (w1 w2 : string) (c1 c2 : datetime) (t t1 t2 : table) (j1 j2 : job_dict) :
  unique_ids t ->
  pick_next_job w1 c1 t = (t1, Some j1) ->
  pick_next_job w2 c2 t1 = (t2, Some j2) ->
  d_id j1 <> d_id j2.
Proof.
  intros U P1 P2.
  destruct (pick_next_job_some _ _ _ _ _ U P1) as (r1 & Hin1 & _ & _ & -> & ->).
  assert (U1 : unique_ids (UPDATE (has_id_of (id r1)) (set_processing w1 (now_iso c1)) t))
    by (apply unique_ids_UPDATE; [reflexivity|exact U]).
  destruct (pick_next_job_some _ _ _ _ _ U1 P2) as (r2 & Hin2 & He & _ & -> & _).
  simpl. intros E.
  assert (Hin1' : In (set_processing w1 (now_iso c1) r1)
                     (UPDATE (has_id_of (id r1)) (set_processing w1 (now_iso c1)) t)).
  { apply In_UPDATE_set; [exact Hin1|]. unfold has_id_of. apply String.eqb_refl. }
  assert (r2 = set_processing w1 (now_iso c1) r1) as ->.
  { apply (unique_ids_same _ _ _ U1 Hin2 Hin1'). simpl. congruence. }
  unfold eligible, claimable in He. simpl in He. discriminate.
Qed.

Lemma second_claim_takes_another_job_witness :
  exists t1 t2 j1 j2,
    pick_next_job "worker-1" Sample.noon Sample.jobs = (t1, Some j1)
    /\ pick_next_job "worker-2" Sample.noon t1 = (t2, Some j2)
    /\ d_id j1 <> d_id j2.
Proof.
  assert (U : unique_ids Sample.jobs).
  { unfold unique_ids. simpl. repeat constructor; simpl; intuition discriminate. }
  destruct (pick_next_job "worker-1" Sample.noon Sample.jobs) as [t1 [j1|]] eqn:P1;
    [|vm_compute in P1; discriminate].
  destruct (pick_next_job "worker-2" Sample.noon t1) as [t2 [j2|]] eqn:P2.
  - exists t1, t2, j1, j2. split; [reflexivity|]. split; [exact P2|].
    exact (second_claim_takes_another_job _ _ _ _ _ _ _ _ _ U P1 P2).
  - exfalso. vm_compute in P1. injection P1 as <- _. vm_compute in P2. discriminate.
Defined.

(** X8: one turn of the worker loop that claimed a job, on a table
    with unique ids, leaves every row of another id as it was. The
    claimed row was pending or failed; afterwards, when the transition
    committed, it is not picked, has one attempt more, and is completed
    without error if the command succeeded, else failed or dead with the
    executor's error, failed exactly when the new count is at most
    [max_retries]; when the transition raised, the row is still
    [processing], picked by this worker, with its attempts unchanged. *)
Theorem process_job_turn_outcome
        (worker_id : string) (timeout base : Z) (env : turn) (t t2 : table)
        (j : job_dict) (res : result unit) :
  unique_ids t ->
  process_job worker_id timeout base env t = (t2, Some (j, res)) ->
  (forall x, In x t -> id x <> d_id j -> In x t2)
  /\ exists r r',
       In r t /\ claimable r = true /\ id r = d_id j
       /\ In r' t2 /\ id r' = d_id j
       /\ match res with
          | Return _ =>
              picked_by r' = None /\ attempts r' = attempts r + 1
              /\ if fst (fst (execute_job (run env) timeout))
                 then state r' = completed /\ last_error r' = None
                 else last_error r' = snd (execute_job (run env) timeout)
                      /\ last_error r' <> None
                      /\ ((state r' = failed /\ attempts r' <= max_retries r)
                          \/ (state r' = dead /\ attempts r' > max_retries r))
          | Raise e =>
              e = OverflowError /\ state r' = processing
              /\ picked_by r' = Some worker_id /\ attempts r' = attempts r
          end.
Proof.
  intros U Turn.
  destruct (process_job_turn _ _ _ _ _ _ _ _ U Turn) as (r & Hin & Hc & Hj & Hcommit).
  cbv zeta in Hcommit.
  set (now := now_iso (clock_pick env)) in *.
  set (t1 := UPDATE (has_id_of (id r)) (set_processing worker_id now) t) in *.
  assert (Hid : d_id j = id r) by (rewrite Hj; reflexivity).
  assert (Ha : d_attempts j = attempts r) by (rewrite Hj; reflexivity).
  assert (Hm : d_max_retries j = max_retries r) by (rewrite Hj; reflexivity).
  assert (Hin1 : In (set_processing worker_id now r) t1).
  { apply In_UPDATE_set; [exact Hin|]. unfold has_id_of. apply String.eqb_refl. }
  assert (Hkeep1 : forall x, In x t -> id x <> d_id j -> In x t1).
  { intros x Hx Hne. apply In_UPDATE_keep; [exact Hx|].
    unfold has_id_of. apply String.eqb_neq. congruence. }
  assert (Hself : has_id_of (d_id j) (set_processing worker_id now r) = true).
  { unfold has_id_of. simpl. rewrite Hid. apply String.eqb_refl. }
  destruct (fst (fst (execute_job (run env) timeout))) eqn:S.
  - destruct (execute_job_success _ _ S) as (out & err & _ & Ex).
    rewrite Ex, process_job_commit_success in Hcommit. destruct Hcommit as [-> ->].
    split.
    { intros x Hx Hne. apply In_UPDATE_keep; [now apply Hkeep1|].
      unfold has_id_of. now apply String.eqb_neq. }
    exists r. eexists. split; [exact Hin|]. split; [exact Hc|]. split; [now rewrite Hid|].
    split; [apply In_UPDATE_set; [exact Hin1|exact Hself]|].
    unfold set_completed. cbn [id state attempts picked_by last_error set_processing].
    repeat split; congruence.
  - destruct (execute_job_failure _ _ S) as (out & msg & Ex).
    rewrite Ex, process_job_commit_failure in Hcommit. rewrite Ex. cbn [snd].
    rewrite Ha, Hm in Hcommit.
    destruct (Z.gtb_spec (attempts r + 1) (max_retries r)) as [G|G].
    + destruct Hcommit as [-> ->]. split.
      { intros x Hx Hne. apply In_UPDATE_keep; [now apply Hkeep1|].
        unfold has_id_of. now apply String.eqb_neq. }
      exists r. eexists. split; [exact Hin|]. split; [exact Hc|].
      split; [now rewrite Hid|].
      split; [apply In_UPDATE_set; [exact Hin1|exact Hself]|].
      unfold set_dead. cbn [id state attempts picked_by last_error set_processing
                              max_retries].
      repeat split; try congruence. right. split; [reflexivity|lia].
    + destruct (plus_seconds _ _) as [due|].
      * destruct Hcommit as [-> ->]. split.
        { intros x Hx Hne. apply In_UPDATE_keep; [now apply Hkeep1|].
          unfold has_id_of. now apply String.eqb_neq. }
        exists r. eexists. split; [exact Hin|]. split; [exact Hc|].
        split; [now rewrite Hid|].
        split; [apply In_UPDATE_set; [exact Hin1|exact Hself]|].
        unfold set_failed. cbn [id state attempts picked_by last_error set_processing
                                  max_retries].
        repeat split; try congruence. left. split; [reflexivity|lia].
      * destruct Hcommit as [-> ->]. split; [exact Hkeep1|].
        exists r, (set_processing worker_id now r).
        split; [exact Hin|]. split; [exact Hc|]. split; [now rewrite Hid|].
        split; [exact Hin1|]. simpl. repeat split. now rewrite Hid.
Qed.

Lemma process_job_turn_outcome_witness :
  exists t2 j r',
    process_job "worker-1" 120 2 (Sample.failing_turn 0) [Sample.fresh]
    = (t2, Some (j, Return tt))
    /\ In r' t2 /\ state r' = failed /\ last_error r' <> None.
Proof.
  assert (U : unique_ids [Sample.fresh]).
  { unfold unique_ids. simpl. repeat constructor. intros []. }
  destruct (process_job "worker-1" 120 2 (Sample.failing_turn 0) [Sample.fresh])
    as [t2 [[j [[]|e]]|]] eqn:P; try (vm_compute in P; discriminate).
  destruct (process_job_turn_outcome _ _ _ _ _ _ _ _ U P)
    as (_ & r & r' & _ & _ & _ & Hr' & _ & _ & _ & H).
  change (fst (fst (execute_job (run (Sample.failing_turn 0)) 120))) with false in H.
  destruct H as (_ & Hne & _).
  exists t2, j, r'. split; [reflexivity|]. split; [exact Hr'|]. split; [|exact Hne].
  vm_compute in P. injection P as <- _. destruct Hr' as [<-|[]]. reflexivity.
Defined.

(** ** Submissions *)

Lemma has_id_app (i : string) (t : table) (r : job) :
  has_id i (t ++ [r]) = has_id i t || String.eqb (id r) i.
Proof. unfold has_id. rewrite existsb_app. simpl. now rewrite orb_false_r. Qed.

(** X9: after a submission with a command and numbers that fit 64
    bits, whether it was inserted or refused, a later submission with
    the same id (the one given, or [job-<unix seconds>] when none or an
    empty one is given) and a [command] key is not inserted: the table
    stays as the earlier one left it and the call ends with
    ["Job with id '<id>' already exists."], or with [OverflowError] when
    its own [max_retries] or [priority] does not fit 64 bits. So two
    submissions without an id whose clock readings give the same
    [int(timestamp())] collide. An earlier submission whose numbers do
    not fit raises [OverflowError] and inserts nothing. *)
Theorem enqueue_job_refuses_a_known_id
        (sub1 sub2 : submission) (cfg1 cfg2 : Z) (ts1 c1 ts2 c2 : datetime)
        (t : table) (cmd1 : string) :
  j_command sub1 = Some (Some cmd1) ->
  j_command sub2 <> None ->
  or_str (j_id sub1) ("job-" ++ str_of_int (timestamp_int ts1))%string
  = or_str (j_id sub2) ("job-" ++ str_of_int (timestamp_int ts2))%string ->
  let fits1 := in_int64 (Py.get (j_max_retries sub1) cfg1)
               && in_int64 (Py.get (j_priority sub1) 0) in
  let fits2 := in_int64 (Py.get (j_max_retries sub2) cfg2)
               && in_int64 (Py.get (j_priority sub2) 0) in
  let t1 := fst (enqueue_job sub1 cfg1 ts1 c1 t) in
  (fits1 = true ->
   enqueue_job sub2 cfg2 ts2 c2 t1
   = (t1, Raise (if fits2
                 then SystemExit
                        ("Job with id '"
                         ++ or_str (j_id sub2) ("job-" ++ str_of_int (timestamp_int ts2))
                         ++ "' already exists.")%string
                 else OverflowError)))
  /\ (fits1 = false -> enqueue_job sub1 cfg1 ts1 c1 t = (t, Raise OverflowError)).
Proof.
  intros H1 H2 E fits1 fits2 t1. split.
  - intros F1.
    assert (K : has_id (or_str (j_id sub2)
                          ("job-" ++ str_of_int (timestamp_int ts2))%string) t1 = true).
    { subst t1. unfold enqueue_job. rewrite H1, <- E. fold fits1. rewrite F1.
      destruct (has_id _ t) eqn:X; cbn [fst]; [exact X|].
      rewrite has_id_app. cbn [id]. rewrite String.eqb_refl. apply orb_true_r. }
    unfold enqueue_job. destruct (j_command sub2) as [[cmd2|]|]; [| |contradiction].
    + fold fits2. rewrite K. destruct fits2; reflexivity.
    + fold fits2. destruct fits2; reflexivity.
  - intros F1. unfold enqueue_job. rewrite H1. fold fits1. rewrite F1. reflexivity.
Qed.

Lemma enqueue_job_refuses_a_known_id_witness :
  let anonymous := mksub None (Some (Some "echo hi")) None None None in
  let t1 := fst (enqueue_job anonymous 3 (mkdt 2024 1 1 0 0 0 100000)
                             (mkdt 2024 1 1 0 0 0 100001) []) in
  List.length t1 = 1%nat
  /\ enqueue_job anonymous 3 (mkdt 2024 1 1 0 0 0 900000) (mkdt 2024 1 1 0 0 0 900001) t1
     = (t1, Raise (SystemExit "Job with id 'job-1704067200' already exists.")).
Proof.
  intros anonymous t1. split; [reflexivity|].
  exact (proj1 (enqueue_job_refuses_a_known_id anonymous anonymous 3 3
                  (mkdt 2024 1 1 0 0 0 100000) (mkdt 2024 1 1 0 0 0 100001)
                  (mkdt 2024 1 1 0 0 0 900000) (mkdt 2024 1 1 0 0 0 900001)
                  [] "echo hi" eq_refl ltac:(discriminate) eq_refl) eq_refl).
Defined.

(** X10: [execute_job] reports success exactly when the command
    returned with status 0, and an error exactly when it reports no
    success; a timeout or another exception gives an empty output. *)
Theorem execute_job_error_iff_failure (run : run_outcome) (timeout : Z) :
  let success := fst (fst (execute_job run timeout)) in
  let out := snd (fst (execute_job run timeout)) in
  let error := snd (execute_job run timeout) in
  (success = true <-> exists stdout stderr, run = CompletedProcess 0 stdout stderr)
  /\ (error = None <-> success = true)
  /\ (forall returncode stdout stderr,
         run = CompletedProcess returncode stdout stderr -> out = (stdout ++ stderr)%list)
  /\ ((forall returncode stdout stderr,
          run <> CompletedProcess returncode stdout stderr) -> out = []).
Proof.
  cbv zeta. destruct run as [rc o e| |msg]; simpl.
  - destruct (Z.eqb_spec rc 0) as [->|Hne]; simpl.
    + repeat split; try reflexivity; try (intros; eauto; fail).
      * intros ? ? ? [= _ <- <-]. reflexivity.
      * intros H. exfalso. exact (H 0 o e eq_refl).
    + repeat split; try discriminate.
      * intros (o' & e' & [= E _ _]). contradiction.
      * intros ? ? ? [= _ <- <-]. reflexivity.
      * intros H. exfalso. exact (H rc o e eq_refl).
  - repeat split; try discriminate; try reflexivity.
    intros (o' & e' & H). discriminate.
  - repeat split; try discriminate; try reflexivity.
    intros (o' & e' & H). discriminate.
Qed.

(** ** Configuration *)

Lemma dict_get_set (d : pydict) (k v k' : string) :
  dict_get (dict_set d k v) k' = if String.eqb k k' then Some v else dict_get d k'.
Proof.
  induction d as [|[k0 v0] d IH]; simpl.
  - reflexivity.
  - destruct (String.eqb_spec k0 k) as [->|Hne]; simpl.
    + destruct (String.eqb_spec k k'); reflexivity.
    + rewrite IH. destruct (String.eqb_spec k0 k') as [->|Hne'].
      * destruct (String.eqb_spec k k') as [->|]; [contradiction|reflexivity].
      * reflexivity.
Qed.

Lemma dict_get_None (d : pydict) (k : string) :
  dict_get d k = None <-> ~ In k (map fst d).
Proof.
  induction d as [|[k0 v0] d IH]; simpl.
  - tauto.
  - destruct (String.eqb_spec k0 k) as [->|Hne].
    + split; [discriminate|]. intros H. exfalso. apply H. now left.
    + rewrite IH. tauto.
Qed.

Lemma dict_has_get (d : pydict) (k : string) :
  dict_has d k = true <-> exists v, dict_get d k = Some v.
Proof.
  unfold dict_has. induction d as [|[k0 v0] d IH]; simpl.
  - split; [discriminate|intros [v H]; discriminate].
  - destruct (String.eqb k0 k); simpl; [split; eauto|exact IH].
Qed.

Lemma dict_has_false (d : pydict) (k : string) :
  dict_has d k = false <-> dict_get d k = None.
Proof.
  destruct (dict_has d k) eqn:H.
  - apply dict_has_get in H. destruct H as [v H]. rewrite H. split; discriminate.
  - split; [intros _|reflexivity]. destruct (dict_get d k) eqn:G; [|reflexivity].
    assert (dict_has d k = true) by (apply dict_has_get; eauto). congruence.
Qed.

(** Merging rows with unique keys: a key of the rows takes its value
    there, any other key keeps the value it had. *)
Lemma dict_get_merge (more d : pydict) (k : string) :
  unique_keys more ->
  dict_get (dict_merge d more) k
  = match dict_get more k with
    | Some v => Some v
    | None => dict_get d k
    end.
Proof.
  unfold dict_merge, unique_keys. revert d.
  induction more as [|[k1 v1] more IH]; intros d U; simpl; [reflexivity|].
  inversion U as [|? ? Hnot U']; subst. rewrite (IH _ U'), dict_get_set.
  destruct (String.eqb_spec k1 k) as [->|Hne]; [|reflexivity].
  apply dict_get_None in Hnot. now rewrite Hnot.
Qed.

Lemma dict_set_keys (d : pydict) (k v : string) :
  map fst (dict_set d k v) = if dict_has d k then map fst d else map fst d ++ [k].
Proof.
  unfold dict_has. induction d as [|[k0 v0] d IH]; simpl; [reflexivity|].
  destruct (String.eqb k0 k); simpl; [reflexivity|].
  rewrite IH. now destruct (existsb _ d).
Qed.

Lemma dict_set_unique (d : pydict) (k v : string) :
  unique_keys d -> unique_keys (dict_set d k v).
Proof.
  unfold unique_keys. intros U. rewrite dict_set_keys.
  destruct (dict_has d k) eqn:H; [exact U|].
  apply NoDup_app; [exact U|repeat constructor; intros []|].
  intros x Hx [<-|[]]. apply dict_has_false, dict_get_None in H. contradiction.
Qed.

Lemma dict_merge_unique (more d : pydict) :
  unique_keys d -> unique_keys (dict_merge d more).
Proof.
  unfold dict_merge. revert d. induction more as [|[k v] more IH]; intros d U; simpl.
  - exact U.
  - apply IH. now apply dict_set_unique.
Qed.

Lemma get_config_lookup (t : config_table) (k : string) :
  unique_keys t ->
  dict_get (get_config t) k
  = match dict_get t k with
    | Some v => Some v
    | None => dict_get DEFAULTS k
    end.
Proof.
  intros U. unfold get_config, dict_of_rows.
  rewrite dict_get_merge by (apply dict_merge_unique; apply NoDup_nil).
  rewrite (dict_get_merge t [] k U). now destruct (dict_get t k).
Qed.

Lemma dict_get_app (d1 d2 : pydict) (k : string) :
  dict_get (d1 ++ d2) k
  = match dict_get d1 k with
    | Some v => Some v
    | None => dict_get d2 k
    end.
Proof.
  induction d1 as [|[k0 v0] d1 IH]; simpl; [reflexivity|].
  now destruct (String.eqb k0 k).
Qed.

Lemma upsert_lookup (k v : string) (t : config_table) (k' : string) :
  dict_get (upsert k v t) k' = if String.eqb k k' then Some v else dict_get t k'.
Proof.
  unfold upsert. destruct (dict_has t k) eqn:H.
  - assert (G : dict_get (map (fun kv => if String.eqb (fst kv) k
                                         then (fst kv, v) else kv) t) k'
                = if String.eqb k k' && dict_has t k then Some v else dict_get t k').
    { clear H. unfold dict_has. induction t as [|[k0 v0] t IH]; simpl.
      - now rewrite andb_false_r.
      - destruct (String.eqb_spec k0 k) as [->|Hne]; simpl.
        + rewrite andb_true_r. now destruct (String.eqb k k').
        + rewrite IH. destruct (String.eqb_spec k0 k') as [->|Hne'].
          * destruct (String.eqb_spec k k') as [->|]; [contradiction|reflexivity].
          * reflexivity. }
    rewrite G, H, andb_true_r. reflexivity.
  - rewrite dict_get_app. simpl. apply dict_has_false in H.
    destruct (String.eqb_spec k k') as [->|Hne].
    + now rewrite H.
    + now destruct (dict_get t k').
Qed.

Lemma upsert_keys (k v : string) (t : config_table) :
  map fst (upsert k v t) = if dict_has t k then map fst t else map fst t ++ [k].
Proof.
  unfold upsert. destruct (dict_has t k).
  - rewrite map_map. apply map_ext. intros [k0 v0]. simpl.
    now destruct (String.eqb k0 k).
  - rewrite map_app. reflexivity.
Qed.

Lemma upsert_unique (k v : string) (t : config_table) :
  unique_keys t -> unique_keys (upsert k v t).
Proof.
  unfold unique_keys. intros U. rewrite upsert_keys.
  destruct (dict_has t k) eqn:H; [exact U|].
  apply NoDup_app; [exact U|repeat constructor; intros []|].
  intros x Hx [<-|[]]. apply dict_has_false, dict_get_None in H. contradiction.
Qed.

Lemma insert_or_ignore_lookup (k v : string) (t : config_table) (k' : string) :
  dict_get (insert_or_ignore k v t) k'
  = match dict_get t k' with
    | Some x => Some x
    | None => if String.eqb k k' then Some v else None
    end.
Proof.
  unfold insert_or_ignore. destruct (dict_has t k) eqn:H.
  - destruct (dict_get t k') eqn:G; [reflexivity|].
    destruct (String.eqb_spec k k') as [->|]; [|reflexivity].
    apply dict_has_get in H. destruct H as [x H]. congruence.
  - rewrite dict_get_app. simpl. now destruct (dict_get t k').
Qed.

Lemma insert_or_ignore_unique (k v : string) (t : config_table) :
  unique_keys t -> unique_keys (insert_or_ignore k v t).
Proof.
  unfold unique_keys, insert_or_ignore. intros U.
  destruct (dict_has t k) eqn:H; [exact U|]. rewrite map_app.
  apply NoDup_app; [exact U|repeat constructor; intros []|].
  intros x Hx [<-|[]]. apply dict_has_false, dict_get_None in H. contradiction.
Qed.

Lemma insert_or_ignore_present (k v : string) (t : config_table) :
  dict_has t k = true -> insert_or_ignore k v t = t.
Proof. unfold insert_or_ignore. now intros ->. Qed.

Lemma init_db_lookup (t : config_table) (k : string) :
  dict_get (init_db t) k
  = match dict_get t k with
    | Some v => Some v
    | None => dict_get DEFAULTS k
    end.
Proof.
  unfold init_db, DEFAULTS. cbn [fold_left fst snd].
  rewrite !insert_or_ignore_lookup. cbn [dict_get].
  destruct (dict_get t k); [reflexivity|].
  destruct (String.eqb "max_retries" k); [reflexivity|].
  destruct (String.eqb "backoff_base" k); [reflexivity|].
  destruct (String.eqb "poll_interval" k); reflexivity.
Qed.

(** X11: [get_config] gives, for each key, the value of its row in
    [config] when there is one and the default otherwise; the four
    default keys are always present, and with no rows the result is
    [DEFAULTS] itself. *)
Theorem get_config_overrides_defaults (t : config_table) (k : string) :
  unique_keys t ->
  dict_get (get_config t) k
  = match dict_get t k with
    | Some v => Some v
    | None => dict_get DEFAULTS k
    end
  /\ (dict_has DEFAULTS k = true -> exists v, dict_get (get_config t) k = Some v)
  /\ get_config [] = DEFAULTS.
Proof.
  intros U. split; [now apply get_config_lookup|]. split; [|reflexivity].
  intros H. rewrite get_config_lookup by exact U.
  destruct (dict_get t k); [eauto|]. now apply dict_has_get.
Qed.

Lemma get_config_overrides_defaults_witness :
  dict_get (get_config [("backoff_base", "3")]) "backoff_base" = Some "3"
  /\ exists v, dict_get (get_config [("backoff_base", "3")]) "job_timeout" = Some v.
Proof.
  assert (U : unique_keys [("backoff_base", "3")]).
  { unfold unique_keys. simpl. repeat constructor. intros []. }
  split.
  - exact (proj1 (get_config_overrides_defaults _ "backoff_base" U)).
  - exact (proj1 (proj2 (get_config_overrides_defaults _ "job_timeout" U)) eq_refl).
Defined.

(** X12: setting a known key and reading the configuration back gives
    the new value for that key and the old value for every other key,
    whether the key had a row or not; the keys of [config] stay
    unique. An unknown key is refused and the table is left alone. *)
Theorem set_config_then_get_config (key value : string) (t : config_table) :
  unique_keys t ->
  (dict_has DEFAULTS key = true ->
   snd (set_config key value t) = Return tt
   /\ unique_keys (fst (set_config key value t))
   /\ forall k, dict_get (get_config (fst (set_config key value t))) k
                = if String.eqb key k then Some value else dict_get (get_config t) k)
  /\ (dict_has DEFAULTS key = false ->
      set_config key value t
      = (t, Raise (SystemExit ("Unknown config key: " ++ key)%string))).
Proof.
  intros U. unfold set_config. split; intros H; rewrite H; [|reflexivity].
  cbn [fst snd]. split; [reflexivity|]. split; [now apply upsert_unique|].
  intros k. rewrite !get_config_lookup by (try apply upsert_unique; exact U).
  rewrite upsert_lookup. now destruct (String.eqb key k).
Qed.

Lemma set_config_then_get_config_witness :
  dict_get (get_config (fst (set_config "max_retries" "5"
                               (fst (set_config "max_retries" "4" []))))) "max_retries"
  = Some "5"
  /\ set_config "retries" "5" [] = ([], Raise (SystemExit "Unknown config key: retries")).
Proof.
  assert (U : unique_keys (fst (set_config "max_retries" "4" []))).
  { unfold unique_keys. simpl. repeat constructor. intros []. }
  split.
  - exact (proj2 (proj2 (proj1 (set_config_then_get_config "max_retries" "5" _ U)
                               eq_refl)) "max_retries").
  - apply (proj2 (set_config_then_get_config "retries" "5" [] (NoDup_nil _))).
    reflexivity.
Defined.

(** X13: the seeding of [init_db] keeps every row that is there, adds
    the missing defaults, keeps the keys unique, changes nothing that
    [get_config] returns, and does nothing when run a second time. *)
Theorem init_db_keeps_the_configuration (t : config_table) :
  unique_keys t ->
  unique_keys (init_db t)
  /\ (forall k, dict_get (init_db t) k
                = match dict_get t k with
                  | Some v => Some v
                  | None => dict_get DEFAULTS k
                  end)
  /\ (forall k, dict_get (get_config (init_db t)) k = dict_get (get_config t) k)
  /\ init_db (init_db t) = init_db t.
Proof.
  intros U.
  assert (U' : unique_keys (init_db t)).
  { unfold init_db, DEFAULTS. cbn [fold_left fst snd].
    now repeat apply insert_or_ignore_unique. }
  split; [exact U'|]. split; [apply init_db_lookup|]. split.
  - intros k. rewrite !get_config_lookup by assumption. rewrite init_db_lookup.
    now destruct (dict_get t k), (dict_get DEFAULTS k).
  - assert (P : forall k, dict_has DEFAULTS k = true -> dict_has (init_db t) k = true).
    { intros k H. apply dict_has_get. rewrite init_db_lookup.
      destruct (dict_get t k); [eauto|]. now apply dict_has_get. }
    unfold init_db at 1. unfold DEFAULTS at 1. cbn [fold_left fst snd].
    rewrite (insert_or_ignore_present "max_retries" "3" (init_db t)) by now apply P.
    rewrite (insert_or_ignore_present "backoff_base" "2" (init_db t)) by now apply P.
    rewrite (insert_or_ignore_present "poll_interval" "0.5" (init_db t)) by now apply P.
    now rewrite (insert_or_ignore_present "job_timeout" "120" (init_db t)) by now apply P.
Qed.

Lemma init_db_keeps_the_configuration_witness :
  dict_get (init_db [("job_timeout", "30")]) "job_timeout" = Some "30"
  /\ init_db (init_db [("job_timeout", "30")]) = init_db [("job_timeout", "30")].
Proof.
  assert (U : unique_keys [("job_timeout", "30")]).
  { unfold unique_keys. simpl. repeat constructor. intros []. }
  destruct (init_db_keeps_the_configuration _ U) as (_ & L & _ & I).
  split; [exact (L "job_timeout")|exact I].
Defined.

(** ** Workers *)

Lemma status_eqb_eq (a b : worker_status) : status_eqb a b = true <-> a = b.
Proof. destruct a, b; simpl; split; intros H; try reflexivity; discriminate. Qed.

Lemma In_UPDATE_workers (where_ : worker -> bool) (set : worker -> worker)
      (t : workers_table) (w' : worker) :
  In w' (UPDATE_workers where_ set t) <->
  exists w, In w t /\ w' = if where_ w then set w else w.
Proof.
  unfold UPDATE_workers. rewrite in_map_iff. split; intros [w [A B]]; exists w; auto.
Qed.

Lemma UPDATE_workers_untouched (where_ : worker -> bool) (set : worker -> worker)
      (t : workers_table) :
  (forall w, In w t -> where_ w = false) -> UPDATE_workers where_ set t = t.
Proof.
  induction t as [|w t IH]; simpl; intros H; [reflexivity|].
  rewrite (H w (or_introl eq_refl)). f_equal. apply IH. intros; apply H; now right.
Qed.

Lemma UPDATE_workers_rowwise (where_ : worker -> bool) (set : worker -> worker)
      (t : workers_table) :
  Forall2 (fun w w' => w' = if where_ w then set w else w) t
          (UPDATE_workers where_ set t).
Proof. induction t as [|w t IH]; simpl; constructor; auto. Qed.

Lemma stop_workers_table (registry_empty : bool) (clock : datetime) (t : workers_table) :
  fst (stop_workers registry_empty clock t)
  = UPDATE_workers (fun w => status_eqb (w_status w) running)
                   (set_stopped (now_iso clock)) t.
Proof.
  unfold stop_workers.
  destruct (filter (fun w => status_eqb (w_status w) running) t) as [|w ws] eqn:F;
    [|reflexivity].
  destruct registry_empty; [|reflexivity]. simpl. symmetry.
  apply UPDATE_workers_untouched. intros w Hw.
  destruct (status_eqb (w_status w) running) eqn:E; [|reflexivity].
  assert (X : In w (filter (fun w => status_eqb (w_status w) running) t))
    by (apply filter_In; tauto).
  rewrite F in X. destruct X.
Qed.

(** X14: after [stop_workers] no worker row is [running]: each row
    that was is [stopped] with [stopped_at] the canonical stamp of the
    call and its other columns as before; rows that were [starting] or
    [stopped] are untouched, so a worker still [starting] goes on being
    listed by [status]; a second call changes nothing. *)
Theorem stop_workers_leaves_none_running
        (registry_empty again : bool) (clock later : datetime) (t : workers_table) :
  let t' := fst (stop_workers registry_empty clock t) in
  (forall w, In w t' -> w_status w <> running)
  /\ Forall2
       (fun w w' =>
          match w_status w with
          | running =>
              w_status w' = stopped /\ w_stopped_at w' = Some (now_iso clock)
              /\ canonical (now_iso clock) = true
              /\ w_id w' = w_id w /\ w_pid w' = w_pid w
              /\ w_started_at w' = w_started_at w
              /\ w_heartbeat_at w' = w_heartbeat_at w
          | _ => w' = w
          end) t t'
  /\ (forall w, In w t -> w_status w = starting -> In w (not_stopped t'))
  /\ stop_workers again later t' = (t', if again then "No workers running"
                                        else "Stopped workers").
Proof.
  cbv zeta. rewrite stop_workers_table.
  set (t' := UPDATE_workers _ _ t).
  assert (N : forall w, In w t' -> w_status w <> running).
  { intros w' Hw'. apply In_UPDATE_workers in Hw'. destruct Hw' as (w & _ & ->).
    destruct (status_eqb (w_status w) running) eqn:E; [discriminate|].
    intros H. apply status_eqb_eq in H. congruence. }
  split; [exact N|]. split; [|split].
  - apply Forall2_weaken with (2 := UPDATE_workers_rowwise _ _ t).
    intros w w' _ ->. destruct (w_status w); simpl; try reflexivity.
    repeat split. apply now_iso_canonical.
  - intros w Hw Hs. apply filter_In. split.
    + apply In_UPDATE_workers. exists w. split; [exact Hw|]. now rewrite Hs.
    + now rewrite Hs.
  - assert (F : filter (fun w => status_eqb (w_status w) running) t' = []).
    { destruct (filter _ t') as [|w ws] eqn:F; [reflexivity|]. exfalso.
      assert (X : In w (w :: ws)) by now left. rewrite <- F in X.
      apply filter_In in X. destruct X as [X Y]. apply status_eqb_eq in Y.
      exact (N w X Y). }
    unfold stop_workers. rewrite F. destruct again; [reflexivity|].
    f_equal. apply UPDATE_workers_untouched. intros w Hw.
    destruct (status_eqb (w_status w) running) eqn:E; [|reflexivity].
    apply status_eqb_eq in E. exfalso. exact (N w Hw E).
Qed.

Lemma register_worker_some (worker_id : string) (pid : Z) (c1 c2 : datetime)
      (t t1 : workers_table) :
  register_worker worker_id pid c1 c2 t = Some t1 <->
  ~ In worker_id (map w_id t)
  /\ t1 = t ++ [mkworker worker_id pid starting (now_iso c1) (now_iso c2) None].
Proof.
  unfold register_worker.
  destruct (existsb (fun w => String.eqb (w_id w) worker_id) t) eqn:E.
  - split; [discriminate|]. intros [H _]. exfalso. apply H.
    apply existsb_exists in E. destruct E as (w & Hw & E). apply String.eqb_eq in E.
    rewrite <- E. now apply in_map.
  - split.
    + intros [= <-]. split; [|reflexivity]. intros H. apply in_map_iff in H.
      destruct H as (w & <- & Hw).
      assert (existsb (fun w0 => String.eqb (w_id w0) (w_id w)) t = true); [|congruence].
      apply existsb_exists. exists w. split; [exact Hw|apply String.eqb_refl].
    + intros [_ ->]. reflexivity.
Qed.

Lemma start_worker_some (sp : spawn) (t t1 : workers_table) :
  start_worker sp t = Some t1 <->
  ~ In (sp_id sp) (map w_id t)
  /\ t1 = t ++ [mkworker (sp_id sp) (sp_child_pid sp) running
                         (now_iso (sp_started sp)) (now_iso (sp_heartbeat sp)) None].
Proof.
  unfold start_worker.
  destruct (register_worker (sp_id sp) (sp_parent_pid sp) (sp_started sp)
                            (sp_heartbeat sp) t) as [t0|] eqn:R.
  - apply register_worker_some in R. destruct R as [Hfresh ->].
    assert (M : mark_running (sp_id sp) (sp_child_pid sp)
                  (t ++ [mkworker (sp_id sp) (sp_parent_pid sp) starting
                                  (now_iso (sp_started sp)) (now_iso (sp_heartbeat sp))
                                  None])
                = t ++ [mkworker (sp_id sp) (sp_child_pid sp) running
                                 (now_iso (sp_started sp)) (now_iso (sp_heartbeat sp))
                                 None]).
    { unfold mark_running, UPDATE_workers. rewrite map_app. simpl.
      rewrite String.eqb_refl. f_equal.
      transitivity (map (fun w => w) t); [|apply map_id].
      apply map_ext_in. intros w Hw.
      destruct (String.eqb_spec (w_id w) (sp_id sp)) as [E|]; [|reflexivity].
      exfalso. apply Hfresh. rewrite <- E. now apply in_map. }
    rewrite M. split; [intros [= <-]; now split|intros [_ ->]; reflexivity].
  - split; [discriminate|]. intros [Hfresh _]. exfalso.
    assert (X : register_worker (sp_id sp) (sp_parent_pid sp) (sp_started sp)
                  (sp_heartbeat sp) t
                = Some (t ++ [mkworker (sp_id sp) (sp_parent_pid sp) starting
                                       (now_iso (sp_started sp))
                                       (now_iso (sp_heartbeat sp)) None])).
    { apply register_worker_some. now split. }
    congruence.
Qed.

(** X15: [start_workers] goes through exactly when the worker ids are
    new to the table and differ from one another; the table then gets,
    in order, one row per worker, [running], with the child's pid and
    the two stamps of its registration, and keeps its old rows. A taken
    id ends it with the integrity error. *)
Theorem start_workers_registers_running (spawns : list spawn) (t t' : workers_table) :
  start_workers spawns t = Some t' <->
  NoDup (map sp_id spawns)
  /\ (forall sp, In sp spawns -> ~ In (sp_id sp) (map w_id t))
  /\ t' = t ++ map (fun sp => mkworker (sp_id sp) (sp_child_pid sp) running
                                       (now_iso (sp_started sp))
                                       (now_iso (sp_heartbeat sp)) None) spawns.
Proof.
  revert t t'. induction spawns as [|sp rest IH]; intros t t'; simpl.
  - rewrite app_nil_r. split.
    + intros [= <-]. split; [constructor|]. split; [intros sp []|reflexivity].
    + intros (_ & _ & ->). reflexivity.
  - destruct (start_worker sp t) as [t1|] eqn:S.
    + apply start_worker_some in S. destruct S as [Hfresh ->].
      rewrite IH. rewrite map_app. simpl. rewrite <- app_assoc. simpl. split.
      * intros (N & F & ->). split.
        { constructor; [|exact N]. intros H. apply in_map_iff in H.
          destruct H as (sp' & E & Hsp'). apply (F sp' Hsp'). rewrite E.
          apply in_or_app. right. now left. }
        split; [|reflexivity]. intros sp' [<-|Hsp']; [exact Hfresh|].
        intros H. apply (F sp' Hsp'). apply in_or_app. now left.
      * intros (N & F & ->). inversion N as [|? ? Hnot N']; subst. split; [exact N'|].
        split; [|reflexivity]. intros sp' Hsp' H. apply in_app_or in H.
        destruct H as [H|[H|[]]].
        -- exact (F sp' (or_intror Hsp') H).
        -- apply Hnot. rewrite H. now apply in_map.
    + split; [discriminate|]. intros (_ & F & _). exfalso.
      assert (X : start_worker sp t
                  = Some (t ++ [mkworker (sp_id sp) (sp_child_pid sp) running
                                         (now_iso (sp_started sp))
                                         (now_iso (sp_heartbeat sp)) None])).
      { apply start_worker_some. split; [|reflexivity]. apply F. now left. }
      congruence.
Qed.

(** X16: a heartbeat writes a canonical stamp into [heartbeat_at] of
    the rows of its worker id and changes nothing else: no status, no
    pid, no other row; for an id that has no row it changes nothing at
    all. In particular it does not bring back a worker that
    [worker_exit] has marked [stopped]. *)
Theorem heartbeat_only_touches_heartbeat_at
        (worker_id : string) (clock : datetime) (t : workers_table) :
  Forall2
    (fun w w' =>
       w_id w' = w_id w /\ w_pid w' = w_pid w /\ w_status w' = w_status w
       /\ w_started_at w' = w_started_at w /\ w_stopped_at w' = w_stopped_at w
       /\ (if String.eqb (w_id w) worker_id
           then w_heartbeat_at w' = now_iso clock /\ canonical (w_heartbeat_at w') = true
           else w_heartbeat_at w' = w_heartbeat_at w))
    t (heartbeat worker_id clock t)
  /\ (~ In worker_id (map w_id t) -> heartbeat worker_id clock t = t)
  /\ forall exit_clock,
       map w_id (not_stopped (heartbeat worker_id clock
                                (worker_exit worker_id exit_clock t)))
       = map w_id (not_stopped (worker_exit worker_id exit_clock t))
       /\ ~ In worker_id
            (map w_id (not_stopped (worker_exit worker_id exit_clock t))).
Proof.
  assert (A : forall t0,
             Forall2
               (fun w w' =>
                  w_id w' = w_id w /\ w_pid w' = w_pid w /\ w_status w' = w_status w
                  /\ w_started_at w' = w_started_at w
                  /\ w_stopped_at w' = w_stopped_at w
                  /\ (if String.eqb (w_id w) worker_id
                      then w_heartbeat_at w' = now_iso clock
                           /\ canonical (w_heartbeat_at w') = true
                      else w_heartbeat_at w' = w_heartbeat_at w))
               t0 (heartbeat worker_id clock t0)).
  { intros t0. unfold heartbeat.
    apply Forall2_weaken with (2 := UPDATE_workers_rowwise _ _ t0).
    intros w w' _ ->. destruct (String.eqb (w_id w) worker_id); simpl.
    - repeat split. apply now_iso_canonical.
    - repeat split. }
  split; [apply A|]. split.
  - intros H. apply UPDATE_workers_untouched. intros w Hw.
    apply String.eqb_neq. intros E. apply H. rewrite <- E. now apply in_map.
  - intros exit_clock. split.
    + specialize (A (worker_exit worker_id exit_clock t)).
      induction A as [|w w' l l' Hw _ IH]; [reflexivity|].
      unfold not_stopped in *. simpl.
      destruct Hw as (Hid & _ & Hst & _). rewrite Hst.
      destruct (negb (status_eqb (w_status w) stopped)); simpl; [|exact IH].
      now rewrite Hid, IH.
    + intros H. apply in_map_iff in H. destruct H as (w' & E & Hw').
      apply filter_In in Hw'. destruct Hw' as [Hw' Hs].
      apply In_UPDATE_workers in Hw'. destruct Hw' as (w & _ & ->).
      destruct (String.eqb_spec (w_id w) worker_id) as [_|Hne].
      * simpl in Hs. discriminate.
      * contradiction.
Qed.

Lemma start_workers_registers_running_witness :
  exists t',
    start_workers [mkspawn "worker-0a1b2c3d" 100 101 Sample.noon Sample.noon;
                   mkspawn "worker-4e5f6a7b" 100 102 Sample.noon Sample.noon] []
    = Some t'
    /\ map w_status t' = [running; running] /\ map w_pid t' = [101; 102].
Proof.
  eexists. split.
  - apply start_workers_registers_running. split; [|split; [|reflexivity]].
    + simpl. repeat constructor; simpl; intuition discriminate.
    + intros sp _ [].
  - split; reflexivity.
Defined.

(** ** Listings *)

Section OrderByAny.
Variable leb : job -> job -> bool.

Lemma insert_by_Permutation (x : job) (l : list job) :
  Permutation (x :: l) (insert_by leb x l).
Proof.
  induction l as [|y l IH]; simpl; [apply Permutation_refl|].
  destruct (leb x y); [apply Permutation_refl|].
  eapply Permutation_trans; [apply perm_swap|]. now apply perm_skip.
Qed.

Lemma ORDER_BY_Permutation (l : list job) : Permutation l (ORDER_BY leb l).
Proof.
  induction l as [|x l IH]; simpl; [constructor|].
  eapply Permutation_trans; [apply perm_skip, IH|apply insert_by_Permutation].
Qed.

Hypothesis leb_total : forall a b, leb a b = false -> leb b a = true.
Hypothesis leb_trans : forall a b c, leb a b = true -> leb b c = true -> leb a c = true.

Lemma insert_by_sorted (x : job) (l : list job) :
  StronglySorted (fun a b => leb a b = true) l ->
  StronglySorted (fun a b => leb a b = true) (insert_by leb x l).
Proof.
  induction l as [|y l IH]; simpl; intros S.
  - constructor; constructor.
  - inversion S as [|? ? S' F]; subst. destruct (leb x y) eqn:E.
    + constructor; [exact S|]. constructor; [exact E|].
      eapply Forall_impl; [|exact F]. intros a Ha. eapply leb_trans; eassumption.
    + constructor; [now apply IH|].
      apply Forall_forall. intros a Ha. apply (In_insert_by leb) in Ha.
      destruct Ha as [->|Ha]; [now apply leb_total|].
      rewrite Forall_forall in F. now apply F.
Qed.

Lemma ORDER_BY_sorted (l : list job) :
  StronglySorted (fun a b => leb a b = true) (ORDER_BY leb l).
Proof.
  induction l as [|x l IH]; simpl; [constructor|]. now apply insert_by_sorted.
Qed.

End OrderByAny.

Lemma updated_desc_total (a b : job) : updated_desc a b = false -> updated_desc b a = true.
Proof.
  unfold updated_desc. intros H.
  destruct (String.leb_total (updated_at b) (updated_at a)) as [E|E]; congruence.
Qed.

Lemma updated_desc_trans (a b c : job) :
  updated_desc a b = true -> updated_desc b c = true -> updated_desc a c = true.
Proof.
  unfold updated_desc. intros H1 H2. eapply string_leb_trans; eassumption.
Qed.

(** X17: [dlq_list] shows exactly the dead jobs of the table, each
    once, the most recently updated first; it shows none, and the
    notice [(no jobs in DLQ)], exactly when no job is dead. *)
Theorem dlq_list_is_the_dead_jobs_newest_first (t : table) :
  Permutation (filter (fun r => state_eqb (state r) dead) t) (dlq_list t)
  /\ (forall r, In r (dlq_list t) <-> In r t /\ state r = dead)
  /\ StronglySorted (fun a b => String.leb (updated_at b) (updated_at a) = true)
                    (dlq_list t)
  /\ (dlq_header t = "(no jobs in DLQ)" <-> forall r, In r t -> state r <> dead).
Proof.
  unfold dlq_list. split; [apply ORDER_BY_Permutation|]. split; [|split].
  - intros r. rewrite (In_ORDER_BY updated_desc), filter_In, state_eqb_eq. tauto.
  - apply (ORDER_BY_sorted updated_desc updated_desc_total updated_desc_trans).
  - unfold dlq_header, dlq_list.
    destruct (ORDER_BY updated_desc (filter (fun r => state_eqb (state r) dead) t))
      as [|r0 rest] eqn:E.
    + split; [|reflexivity]. intros _ r Hr Hs.
      assert (X : In r (ORDER_BY updated_desc
                          (filter (fun r => state_eqb (state r) dead) t))).
      { apply In_ORDER_BY, filter_In. split; [exact Hr|]. now apply state_eqb_eq. }
      rewrite E in X. destruct X.
    + split; [discriminate|]. intros H. exfalso.
      assert (X : In r0 (ORDER_BY updated_desc
                           (filter (fun r => state_eqb (state r) dead) t)))
        by (rewrite E; now left).
      apply In_ORDER_BY, filter_In in X. destruct X as [X Y].
      apply state_eqb_eq in Y. exact (H r0 X Y).
Qed.

Lemma dead_count_after_retry (job_id : string) (set : job -> job) (t : table) (r0 : job) :
  (forall r, state (set r) = pending) ->
  unique_ids t -> In r0 t -> in_dlq job_id r0 = true ->
  S (List.length (filter (fun r => state_eqb (state r) dead)
                         (UPDATE (in_dlq job_id) set t)))
  = List.length (filter (fun r => state_eqb (state r) dead) t).
Proof.
  intros Hset. unfold unique_ids.
  induction t as [|x t IH]; simpl; intros U Hin Hd; [destruct Hin|].
  inversion U as [|? ? Hnot U']; subst.
  apply in_dlq_iff in Hd as Hd'. destruct Hd' as [Hid Hs].
  destruct Hin as [->|Hin].
  - rewrite Hd, Hset, Hs. simpl. f_equal.
    rewrite UPDATE_untouched; [reflexivity|]. intros r Hr.
    destruct (in_dlq job_id r) eqn:E; [|reflexivity]. exfalso.
    apply in_dlq_iff in E. destruct E as [E _]. apply Hnot. rewrite Hid, <- E.
    now apply in_map.
  - assert (E : in_dlq job_id x = false).
    { destruct (in_dlq job_id x) eqn:E; [|reflexivity]. exfalso.
      apply in_dlq_iff in E. destruct E as [E _]. apply Hnot. rewrite E, <- Hid.
      now apply in_map. }
    rewrite E. destruct (state_eqb (state x) dead); simpl; rewrite <- (IH U' Hin Hd);
      reflexivity.
Qed.

(** X18: on a table with unique ids, [dlq_retry(id)] succeeds exactly
    when [dlq_list] shows a job of that id; after a success [dlq_list]
    no longer shows it and is one job shorter, and the job is among the
    pending jobs of [list_jobs] with [attempts = 0]. *)
Theorem dlq_retry_takes_the_job_off_the_list
        (job_id : string) (clock_due clock_updated : datetime) (t : table) :
  unique_ids t ->
  let t' := fst (dlq_retry job_id clock_due clock_updated t) in
  let res := snd (dlq_retry job_id clock_due clock_updated t) in
  ((exists msg, res = Return msg) <-> exists r, In r (dlq_list t) /\ id r = job_id)
  /\ ((exists msg, res = Return msg) ->
      (forall r, In r (dlq_list t') -> id r <> job_id)
      /\ S (List.length (dlq_list t')) = List.length (dlq_list t)
      /\ exists r', In r' (list_jobs (Some "pending") t')
                    /\ id r' = job_id /\ attempts r' = 0).
Proof.
  intros U. cbv zeta.
  assert (M : forall t0 r, In r (dlq_list t0) <-> In r t0 /\ state r = dead).
  { intros t0 r. unfold dlq_list.
    rewrite (In_ORDER_BY updated_desc), filter_In, state_eqb_eq. tauto. }
  destruct (dlq_retry_cases job_id clock_due clock_updated t) as [[Hex ->]|[Hno ->]];
    cbn [fst snd].
  - destruct Hex as (r0 & Hin0 & Hid0 & Hs0). split.
    + split; [intros _|eauto]. exists r0. split; [|exact Hid0]. apply M. tauto.
    + intros _. split; [|split].
      * intros r Hr Hid. apply M in Hr. destruct Hr as [Hr Hs].
        apply In_UPDATE in Hr. destruct Hr as (x & Hx & ->).
        destruct (in_dlq job_id x) eqn:E; [discriminate Hs|].
        assert (in_dlq job_id x = true); [|congruence]. apply in_dlq_iff. tauto.
      * unfold dlq_list.
        rewrite <- !(Permutation_length (ORDER_BY_Permutation updated_desc _)).
        apply dead_count_after_retry with (r0 := r0); try assumption.
        -- reflexivity.
        -- apply in_dlq_iff. tauto.
      * exists (set_retry (now_iso clock_due) (now_iso clock_updated) r0).
        split; [|split; [exact Hid0|reflexivity]].
        unfold list_jobs. apply filter_In. split; [|reflexivity].
        apply In_UPDATE_set; [exact Hin0|]. apply in_dlq_iff. tauto.
  - split.
    + split; [intros [msg H]; discriminate|].
      intros (r & Hr & Hid). apply M in Hr. destruct Hr as [Hr Hs].
      exfalso. exact (Hno r Hr (conj Hid Hs)).
    + intros [msg H]. discriminate.
Qed.

Lemma dlq_retry_takes_the_job_off_the_list_witness :
  List.length (dlq_list Sample.jobs) = 1%nat
  /\ List.length (dlq_list (fst (dlq_retry "d" Sample.noon Sample.noon Sample.jobs)))
     = 0%nat.
Proof.
  assert (U : unique_ids Sample.jobs).
  { unfold unique_ids. simpl. repeat constructor; simpl; intuition discriminate. }
  destruct (dlq_retry_takes_the_job_off_the_list "d" Sample.noon Sample.noon
              Sample.jobs U) as [_ H].
  destruct H as (_ & L & _); [eexists; reflexivity|].
  split; [reflexivity|]. apply eq_add_S. exact L.
Defined.

Lemma count_state_partition (t : table) :
  count_state pending t + count_state processing t + count_state completed t
  + count_state failed t + count_state dead t
  = Z.of_nat (List.length t).
Proof.
  unfold count_state. induction t as [|r t IH]; [reflexivity|].
  cbn [filter List.length]. destruct (state r); cbn [state_eqb List.length]; lia.
Qed.

(** X19: [status_summary] prints [Jobs:], one line per state with its
    number of jobs, then as total the number of rows of [jobs] (the five
    counts add up to it), then the workers that are not [stopped], or
    [(none running)] when there is none. *)
Theorem status_summary_counts_every_job (t : table) (ws : workers_table) :
  count_state pending t + count_state processing t + count_state completed t
  + count_state failed t + count_state dead t
  = Z.of_nat (List.length t)
  /\ status_summary t ws
     = ["Jobs:";
        "  pending   : " ++ str_of_int (count_state pending t);
        "  processing: " ++ str_of_int (count_state processing t);
        "  completed : " ++ str_of_int (count_state completed t);
        "  failed    : " ++ str_of_int (count_state failed t);
        "  dead      : " ++ str_of_int (count_state dead t);
        "  total     : " ++ str_of_int (Z.of_nat (List.length t));
        newline ++ "Workers:"]%string
       ++ (if forallb (fun w => status_eqb (w_status w) stopped) ws
           then ["  (none running)"]
           else map worker_line (not_stopped ws)).
Proof.
  split; [apply count_state_partition|].
  unfold status_summary, count_lines. cbn [fold_left fst snd app].
  rewrite <- count_state_partition.
  replace (0 + count_state pending t + count_state processing t
           + count_state completed t + count_state failed t + count_state dead t)
    with (count_state pending t + count_state processing t + count_state completed t
          + count_state failed t + count_state dead t) by lia.
  cbn [app]. do 8 f_equal.
  unfold not_stopped. induction ws as [|w ws IH]; [reflexivity|].
  cbn [filter forallb]. destruct (status_eqb (w_status w) stopped); cbn [negb andb].
  - exact IH.
  - reflexivity.
Qed.

Lemma state_name_injective (a b : job_state) : state_name a = state_name b -> a = b.
Proof. destruct a, b; simpl; intros H; try reflexivity; discriminate. Qed.

(** X20: [list_jobs] with the name of a state shows exactly the jobs
    in that state, as many as [status_summary] counts for it; with no
    state or an empty one it shows every job, each once; with any other
    text it shows none. *)
Theorem list_jobs_by_state (t : table) :
  (forall s r, In r (list_jobs (Some (state_name s)) t) <-> In r t /\ state r = s)
  /\ (forall s, Z.of_nat (List.length (list_jobs (Some (state_name s)) t))
                = count_state s t)
  /\ Permutation t (list_jobs None t)
  /\ Permutation t (list_jobs (Some "") t)
  /\ (forall name, name <> "" -> (forall s, state_name s <> name) ->
                   list_jobs (Some name) t = []).
Proof.
  assert (F : forall s, list_jobs (Some (state_name s)) t
                        = filter (fun r => state_eqb (state r) s) t).
  { intros s. transitivity
      (filter (fun r => String.eqb (state_name (state r)) (state_name s)) t).
    - now destruct s.
    - apply filter_ext. intros r. destruct (state r), s; reflexivity. }
  split; [|split; [|split; [|split]]].
  - intros s r. rewrite F, filter_In, state_eqb_eq. tauto.
  - intros s. now rewrite F.
  - apply Permutation_refl.
  - apply Permutation_refl.
  - intros name Hne Hno. destruct name as [|c name]; [contradiction|].
    cbn [list_jobs]. clear F. induction t as [|r t IH]; [reflexivity|]. cbn [filter].
    destruct (String.eqb_spec (state_name (state r)) (String c name)) as [E|_].
    + exfalso. exact (Hno _ E).
    + exact IH.
Qed.

(** ** The store path, case by case *)

Import Order.

Lemma startswith_app (old s : string) : Py.startswith (old ++ s) old = true.
Proof.
  induction old as [|c old IH]; simpl; [now destruct s|].
  now rewrite Ascii.eqb_refl, IH.
Qed.

Lemma replace_from_skip (old new o s : string) :
  Py.replace_from old new (String.length o) (o ++ s) = Py.replace_from old new O s.
Proof.
  induction o as [|c o IH]; simpl; [reflexivity|]. exact IH.
Qed.

Lemma replace_prefix (c : ascii) (old new s : string) :
  Py.replace (String c old ++ s) (String c old) new
  = (new ++ Py.replace s (String c old) new)%string.
Proof.
  unfold Py.replace.
  change (String c old ++ s)%string with (String c (old ++ s)).
  cbn [Py.replace_from].
  change (String c (old ++ s)) with (String c old ++ s)%string.
  rewrite startswith_app. cbn [String.length Nat.pred].
  now rewrite replace_from_skip.
Qed.

Lemma replace_absent (c : ascii) (old new s : string) :
  contains s (String c old) = false -> Py.replace s (String c old) new = s.
Proof.
  unfold Py.replace. induction s as [|d s IH]; [reflexivity|].
  cbn [contains Py.replace_from]. intros H. apply orb_false_iff in H.
  destruct H as [H1 H2]. rewrite H1. f_equal. now apply IH.
Qed.

Lemma contains_startswith (s old : string) :
  contains s old = false -> Py.startswith s old = false.
Proof.
  destruct s; simpl; [tauto|]. intros H. apply orb_false_iff in H. tauto.
Qed.

(** X21: the path [_connect] opens. When [QUEUECTL_DB] is
    [sqlite:///] followed by a path without that marker, the path is
    opened whatever [DATABASE_URL] is; when [QUEUECTL_DB] is unset and
    [DATABASE_URL] is [sqlite:///] followed by such a path, that path is
    opened; when neither value starts with the marker, [QUEUECTL_DB] is
    opened as it is. *)
Theorem _connect_strips_the_marker (p : string) :
  contains p "sqlite:///" = false ->
  (forall url, _connect (mkenv url (Some ("sqlite:///" ++ p)%string)) = p)
  /\ _connect (mkenv (Some ("sqlite:///" ++ p)%string) None) = p
  /\ (forall url, Py.startswith url "sqlite:///" = false ->
                  _connect (mkenv (Some url) (Some p)) = p).
Proof.
  intros H. split; [|split].
  - intros url. unfold _connect, QUEUECTL_DB, getenv. cbn [env_QUEUECTL_DB Py.get].
    rewrite startswith_app, replace_prefix. now rewrite replace_absent.
  - unfold _connect, QUEUECTL_DB, DATABASE_URL, getenv.
    cbn [env_QUEUECTL_DB env_DATABASE_URL Py.get].
    change (Py.startswith "queuectl.db" "sqlite:///") with false. cbv iota.
    rewrite startswith_app, replace_prefix. now rewrite replace_absent.
  - intros url Hu. unfold _connect, QUEUECTL_DB, DATABASE_URL, getenv.
    cbn [env_QUEUECTL_DB env_DATABASE_URL Py.get].
    now rewrite (contains_startswith _ _ H), Hu.
Qed.

Lemma _connect_strips_the_marker_witness :
  _connect (mkenv (Some "sqlite:///other.db") (Some "sqlite:///data/jobs.db"))
  = "data/jobs.db"
  /\ _connect (mkenv (Some "sqlite:///data/jobs.db") None) = "data/jobs.db"
  /\ _connect (mkenv (Some "postgres://h/db") (Some "data/jobs.db")) = "data/jobs.db".
Proof.
  destruct (_connect_strips_the_marker "data/jobs.db" eq_refl) as (A & B & C).
  split; [apply A|]. split; [exact B|]. apply C. reflexivity.
Defined.

(** ** Stamps sort like the clock *)

Lemma string_app_assoc (a b c : string) : ((a ++ b) ++ c = a ++ (b ++ c))%string.
Proof. induction a as [|x a IH]; simpl; [reflexivity|]. now rewrite IH. Qed.

Lemma ascii_compare_digit (a b : Z) :
  Ascii.compare (digit a) (digit b) = (a mod 10 ?= b mod 10).
Proof.
  unfold Ascii.compare, digit.
  pose proof (Z.mod_pos_bound a 10 ltac:(lia)) as Ha.
  pose proof (Z.mod_pos_bound b 10 ltac:(lia)) as Hb.
  unfold ascii_of_nat. rewrite !N_ascii_embedding by lia.
  rewrite <- N2Z.inj_compare, !nat_N_Z.
  rewrite !Nat2Z.inj_add, !Z2Nat.id by lia.
  destruct (Z.compare_spec (a mod 10) (b mod 10)) as [E|L|G].
  - rewrite E. apply Z.compare_refl.
  - apply Z.compare_lt_iff. lia.
  - apply Z.compare_gt_iff. lia.
Qed.

Lemma compare_zpad (w : nat) (a b : Z) (s1 s2 : string) :
  0 <= a < 10 ^ Z.of_nat w -> 0 <= b < 10 ^ Z.of_nat w ->
  String.compare (zpad w a ++ s1) (zpad w b ++ s2)
  = match a ?= b with
    | Eq => String.compare s1 s2
    | c => c
    end.
Proof.
  revert a b s1 s2. induction w as [|w IH]; intros a b s1 s2 Ha Hb.
  - simpl in Ha, Hb. assert (a = 0) as -> by lia. assert (b = 0) as -> by lia.
    reflexivity.
  - rewrite Nat2Z.inj_succ, Z.pow_succ_r in Ha, Hb by lia.
    cbn [zpad]. rewrite !string_app_assoc. cbn [String.append].
    rewrite IH by (split; [apply Z.div_pos; lia|apply Z.div_lt_upper_bound; lia]).
    cbn [String.compare]. rewrite ascii_compare_digit.
    pose proof (Z.div_mod a 10 ltac:(lia)) as Da.
    pose proof (Z.div_mod b 10 ltac:(lia)) as Db.
    pose proof (Z.mod_pos_bound a 10 ltac:(lia)) as Ma.
    pose proof (Z.mod_pos_bound b 10 ltac:(lia)) as Mb.
    destruct (Z.compare_spec (a / 10) (b / 10)) as [E|L|G].
    + destruct (Z.compare_spec (a mod 10) (b mod 10)) as [E'|L'|G'].
      * replace b with a by lia. now rewrite Z.compare_refl.
      * assert (a < b) as X by lia. apply Z.compare_lt_iff in X. now rewrite X.
      * assert (b < a) as X by lia. apply Z.compare_gt_iff in X. now rewrite X.
    + assert (a < b) as X by lia. apply Z.compare_lt_iff in X. now rewrite X.
    + assert (b < a) as X by lia. apply Z.compare_gt_iff in X. now rewrite X.
Qed.

Lemma compare_stamp19 (t1 t2 : datetime) (r1 r2 : string) :
  printable t1 -> printable t2 ->
  String.compare (stamp19 t1 r1) (stamp19 t2 r2)
  = match lex_compare (fields t1) (fields t2) with
    | Eq => String.compare r1 r2
    | c => c
    end.
Proof.
  intros (Y1 & M1 & D1 & H1 & I1 & S1) (Y2 & M2 & D2 & H2 & I2 & S2).
  unfold stamp19, fields. cbn [lex_compare].
  rewrite (compare_zpad 4) by (simpl; lia).
  destruct (year t1 ?= year t2); try reflexivity.
  cbn [String.append String.compare]. rewrite ascii_compare_refl.
  rewrite (compare_zpad 2) by (simpl; lia).
  destruct (month t1 ?= month t2); try reflexivity.
  cbn [String.append String.compare]. rewrite ascii_compare_refl.
  rewrite (compare_zpad 2) by (simpl; lia).
  destruct (day t1 ?= day t2); try reflexivity.
  cbn [String.append String.compare]. rewrite ascii_compare_refl.
  rewrite (compare_zpad 2) by (simpl; lia).
  destruct (hour t1 ?= hour t2); try reflexivity.
  cbn [String.append String.compare]. rewrite ascii_compare_refl.
  rewrite (compare_zpad 2) by (simpl; lia).
  destruct (minute t1 ?= minute t2); try reflexivity.
  cbn [String.append String.compare]. rewrite ascii_compare_refl.
  rewrite (compare_zpad 2) by (simpl; lia).
  destruct (second t1 ?= second t2); reflexivity.
Qed.

Lemma days_before_year_succ (y : Z) :
  days_before_year (y + 1) = days_before_year y + 365 + (if is_leap y then 1 else 0).
Proof.
  unfold days_before_year. cbv zeta.
  destruct (is_leap y) eqn:L.
  - apply is_leap_spec in L. Z.div_mod_to_equations. lia.
  - assert (N : ~ (y mod 4 = 0 /\ (y mod 100 <> 0 \/ y mod 400 = 0))).
    { intros H. apply is_leap_spec in H. congruence. }
    Z.div_mod_to_equations. lia.
Qed.

Lemma days_before_year_mono (a b : Z) : a <= b -> days_before_year a <= days_before_year b.
Proof.
  intros H. unfold days_before_year. cbv zeta. Z.div_mod_to_equations. lia.
Qed.

Lemma month_order_checked (leapyear : bool) :
  all_from 12 1 (month_order_check leapyear) = true.
Proof. destruct leapyear; vm_compute; reflexivity. Qed.

Lemma year_length_checked (leapyear : bool) :
  all_from 12 1 (year_length_check leapyear) = true.
Proof. destruct leapyear; vm_compute; reflexivity. Qed.

Lemma days_in_month_split (y m : Z) :
  days_in_month y m = DAYS_IN_MONTH m + (if (m =? 2) && is_leap y then 1 else 0).
Proof.
  unfold days_in_month. destruct (Z.eqb_spec m 2) as [->|]; simpl; [|lia].
  destruct (is_leap y); reflexivity.
Qed.

Lemma day_of_year_bounds (y m d : Z) :
  valid_date y m d ->
  1 <= days_before_month y m + d <= 365 + (if is_leap y then 1 else 0).
Proof.
  intros [Hm Hd]. rewrite days_in_month_split in Hd. unfold days_before_month.
  pose proof (all_from_spec _ _ _ (year_length_checked (is_leap y)) m ltac:(lia)) as C.
  unfold year_length_check in C. apply andb_true_iff in C. destruct C as [C1 C2].
  apply Z.leb_le in C1, C2.
  destruct (is_leap y), (2 <? m), (m =? 2); cbn [andb] in *; lia.
Qed.

Lemma month_order (y m1 d1 m2 d2 : Z) :
  valid_date y m1 d1 -> valid_date y m2 d2 -> m1 < m2 ->
  days_before_month y m1 + d1 < days_before_month y m2 + d2.
Proof.
  intros [Hm1 Hd1] [Hm2 Hd2] Hlt. rewrite days_in_month_split in Hd1.
  unfold days_before_month.
  pose proof (all_from_spec _ _ _ (month_order_checked (is_leap y)) m1 ltac:(lia)) as C.
  unfold month_order_check in C.
  pose proof (all_from_spec _ _ _ C m2 ltac:(lia)) as C2. cbv beta in C2.
  apply orb_true_iff in C2. destruct C2 as [C2|C2].
  - apply negb_true_iff, Z.ltb_ge in C2. lia.
  - apply Z.leb_le in C2.
    destruct (is_leap y), (2 <? m1), (m1 =? 2), (2 <? m2); cbn [andb] in *; lia.
Qed.

Lemma ymd2ord_lt (y1 m1 d1 y2 m2 d2 : Z) :
  valid_date y1 m1 d1 -> valid_date y2 m2 d2 ->
  y1 < y2 \/ (y1 = y2 /\ (m1 < m2 \/ (m1 = m2 /\ d1 < d2))) ->
  ymd2ord y1 m1 d1 < ymd2ord y2 m2 d2.
Proof.
  intros V1 V2 H. unfold ymd2ord.
  destruct H as [H|[-> [H|[-> H]]]].
  - pose proof (day_of_year_bounds _ _ _ V1). pose proof (day_of_year_bounds _ _ _ V2).
    pose proof (days_before_year_succ y1).
    pose proof (days_before_year_mono (y1 + 1) y2 ltac:(lia)). lia.
  - pose proof (month_order _ _ _ _ _ V1 V2 H). lia.
  - lia.
Qed.

Lemma valid_spec (t : datetime) :
  valid t = true ->
  1 <= year t <= 9999 /\ valid_date (year t) (month t) (day t)
  /\ 0 <= hour t < 24 /\ 0 <= minute t < 60 /\ 0 <= second t < 60
  /\ 0 <= microsecond t < US_PER_SECOND.
Proof.
  unfold valid, valid_date. rewrite !andb_true_iff, !Z.leb_le, !Z.ltb_lt. tauto.
Qed.

Lemma seconds_of_valid (t : datetime) :
  valid t = true ->
  seconds t = toordinal t * 86400 + (hour t * 60 + minute t) * 60 + second t.
Proof.
  intros V. apply valid_spec in V. unfold seconds, to_us, US_PER_DAY, US_PER_SECOND in *.
  Z.div_mod_to_equations. lia.
Qed.

Lemma lex_compare_seconds (t1 t2 : datetime) :
  valid t1 = true -> valid t2 = true ->
  lex_compare (fields t1) (fields t2) = (seconds t1 ?= seconds t2).
Proof.
  intros V1 V2. rewrite !seconds_of_valid by assumption.
  apply valid_spec in V1, V2.
  destruct V1 as (_ & D1 & H1 & M1 & S1 & _). destruct V2 as (_ & D2 & H2 & M2 & S2 & _).
  unfold fields, toordinal. cbn [lex_compare].
  assert (LT : forall a b, a < b -> Lt = (a ?= b)).
  { intros a b H. symmetry. now apply Z.compare_lt_iff. }
  assert (GT : forall a b, b < a -> Gt = (a ?= b)).
  { intros a b H. symmetry. now apply Z.compare_gt_iff. }
  destruct (Z.compare_spec (year t1) (year t2)) as [Ey|Ly|Gy].
  2:{ apply LT. pose proof (ymd2ord_lt _ _ _ _ _ _ D1 D2 (or_introl Ly)). lia. }
  2:{ apply GT. pose proof (ymd2ord_lt _ _ _ _ _ _ D2 D1 (or_introl Gy)). lia. }
  destruct (Z.compare_spec (month t1) (month t2)) as [Em|Lm|Gm].
  2:{ apply LT.
      pose proof (ymd2ord_lt _ _ _ _ _ _ D1 D2 (or_intror (conj Ey (or_introl Lm)))).
      lia. }
  2:{ apply GT.
      pose proof (ymd2ord_lt _ _ _ _ _ _ D2 D1
                    (or_intror (conj (eq_sym Ey) (or_introl Gm)))). lia. }
  destruct (Z.compare_spec (day t1) (day t2)) as [Ed|Ld|Gd].
  2:{ apply LT.
      pose proof (ymd2ord_lt _ _ _ _ _ _ D1 D2
                    (or_intror (conj Ey (or_intror (conj Em Ld))))). lia. }
  2:{ apply GT.
      pose proof (ymd2ord_lt _ _ _ _ _ _ D2 D1
                    (or_intror (conj (eq_sym Ey) (or_intror (conj (eq_sym Em) Gd))))).
      lia. }
  rewrite Ey, Em, Ed.
  destruct (Z.compare_spec (hour t1) (hour t2)) as [Eh|Lh|Gh];
    [|apply LT; lia|apply GT; lia].
  destruct (Z.compare_spec (minute t1) (minute t2)) as [Ei|Li|Gi];
    [|apply LT; lia|apply GT; lia].
  destruct (Z.compare_spec (second t1) (second t2)) as [Es|Ls|Gs];
    [|apply LT; lia|apply GT; lia].
  symmetry. apply Z.compare_eq_iff. lia.
Qed.

Lemma valid_printable (t : datetime) : valid t = true -> printable t.
Proof.
  intros V. apply valid_spec in V.
  destruct V as (Y & (M & D) & H & I & S & _). unfold printable.
  assert (days_in_month (year t) (month t) <= 31).
  { unfold days_in_month. destruct ((month t =? 2) && is_leap (year t)); [lia|].
    assert (month t = 1 \/ month t = 2 \/ month t = 3 \/ month t = 4 \/ month t = 5
            \/ month t = 6 \/ month t = 7 \/ month t = 8 \/ month t = 9
            \/ month t = 10 \/ month t = 11 \/ month t = 12) as C by lia.
    repeat (destruct C as [->|C]; [vm_compute; discriminate|]).
    rewrite C. vm_compute. discriminate. }
  lia.
Qed.

Lemma now_iso_stamp19 (t : datetime) : now_iso t = stamp19 t "Z".
Proof. rewrite now_iso_shape. reflexivity. Qed.

Lemma retry_stamp_shape (t : datetime) :
  Py.replace (isoformat "T" t) "+00:00" "Z" = stamp19 t (fraction t ++ "Z").
Proof.
  unfold isoformat, stamp19, fraction, Py.replace.
  destruct (microsecond t =? 0);
    cbn [zpad String.append];
    repeat (rewrite replace_offset_other by (apply digit_is_not_plus || reflexivity));
    reflexivity.
Qed.

Lemma leb_stamps (due c : datetime) :
  valid due = true -> valid c = true ->
  (String.leb (stamp19 due (fraction due ++ "Z")) (stamp19 c "Z") = true
   <-> seconds due <= seconds c).
Proof.
  intros Vd Vc. unfold String.leb.
  rewrite compare_stamp19 by (now apply valid_printable).
  rewrite lex_compare_seconds by assumption.
  destruct (Z.compare_spec (seconds due) (seconds c)) as [E|L|G].
  - split; [lia|intros _]. unfold fraction.
    destruct (microsecond due =? 0); reflexivity.
  - split; [lia|reflexivity].
  - split; [discriminate|lia].
Qed.

Lemma now_iso_compare (t1 t2 : datetime) :
  valid t1 = true -> valid t2 = true ->
  String.compare (now_iso t1) (now_iso t2) = (seconds t1 ?= seconds t2).
Proof.
  intros V1 V2. rewrite !now_iso_stamp19.
  rewrite compare_stamp19 by (now apply valid_printable).
  rewrite lex_compare_seconds by assumption.
  destruct (seconds t1 ?= seconds t2); reflexivity.
Qed.

(** X22: the stamps of [now_iso] sort as the clock runs: for two
    readings inside the range of [datetime], the byte-wise comparison of
    the two strings is the comparison of the two instants cut to the
    second. *)
Theorem now_iso_sorts_like_the_clock (t1 t2 : datetime) :
  valid t1 = true -> valid t2 = true ->
  String.compare (now_iso t1) (now_iso t2) = (seconds t1 ?= seconds t2).
Proof. exact (now_iso_compare t1 t2). Qed.

Lemma now_iso_sorts_like_the_clock_witness :
  String.compare (now_iso (mkdt 2023 12 31 23 59 59 999999))
                 (now_iso (mkdt 2024 1 1 0 0 0 0)) = Lt.
Proof.
  rewrite (now_iso_sorts_like_the_clock (mkdt 2023 12 31 23 59 59 999999)
                                        (mkdt 2024 1 1 0 0 0 0) eq_refl eq_refl).
  reflexivity.
Defined.

(** ** When a job can be claimed *)

Lemma now_iso_leb (t1 t2 : datetime) :
  valid t1 = true -> valid t2 = true ->
  (String.leb (now_iso t1) (now_iso t2) = true <-> seconds t1 <= seconds t2).
Proof.
  intros V1 V2. unfold String.leb. rewrite now_iso_compare by assumption.
  destruct (Z.compare_spec (seconds t1) (seconds t2)); split;
    try reflexivity; try discriminate; lia.
Qed.

Lemma pick_next_job_finds_eligible (w : string) (c : datetime) (t : table) (r : job) :
  In r t -> eligible (now_iso c) r = true ->
  exists t' j, pick_next_job w c t = (t', Some j).
Proof.
  intros Hin He. destruct (pick_next_job w c t) as [t' [j|]] eqn:P; [eauto|].
  apply pick_next_job_none in P. destruct P as [_ P]. rewrite (P r Hin) in He.
  discriminate.
Qed.

(** X23: a job submitted without [run_at] can be claimed at once: its
    row is [pending] with [due_at] the stamp of the submission; at a
    later reading of the clock it is eligible exactly when that reading
    is not in an earlier second than the submission, and from then on
    [pick_next_job] returns a job. *)
Theorem enqueued_job_is_due_at_once
        (sub : submission) (cfg : Z) (clock_ts clock later : datetime) (t : table)
        (msg worker_id : string) :
  valid clock = true -> valid later = true ->
  j_run_at sub = None \/ j_run_at sub = Some "" ->
  snd (enqueue_job sub cfg clock_ts clock t) = Return msg ->
  exists row,
    fst (enqueue_job sub cfg clock_ts clock t) = t ++ [row]
    /\ state row = pending /\ attempts row = 0
    /\ due_at row = now_iso clock
    /\ (eligible (now_iso later) row = true <-> seconds clock <= seconds later)
    /\ (seconds clock <= seconds later ->
        exists t' j, pick_next_job worker_id later (t ++ [row]) = (t', Some j)).
Proof.
  intros Vc Vl Hrun Hres.
  destruct (enqueue_job_cases sub cfg clock_ts clock t) as [[e E]|(cmd & _ & H)].
  { rewrite E in Hres. discriminate. }
  cbv zeta in H. destruct H as [_ E]. rewrite E. cbn [fst].
  assert (D : or_str (j_run_at sub) (now_iso clock) = now_iso clock).
  { destruct Hrun as [->| ->]; reflexivity. }
  eexists. split; [reflexivity|]. split; [reflexivity|]. split; [reflexivity|].
  split; [exact D|].
  assert (X : eligible (now_iso later)
                (mkjob (or_str (j_id sub)
                          ("job-" ++ str_of_int (timestamp_int clock_ts))%string)
                       cmd pending 0 (Py.get (j_max_retries sub) cfg) (now_iso clock)
                       (now_iso clock) (or_str (j_run_at sub) (now_iso clock)) None None
                       (Py.get (j_priority sub) 0) None) = true
              <-> seconds clock <= seconds later).
  { unfold eligible, claimable. cbn [state due_at state_eqb orb andb]. rewrite D.
    now apply now_iso_leb. }
  split; [exact X|]. intros Hle.
  eapply pick_next_job_finds_eligible; [|apply X; exact Hle].
  apply in_or_app. right. now left.
Qed.

Lemma enqueued_job_is_due_at_once_witness :
  exists row t' j,
    fst (enqueue_job Scenario.submitted 3 Sample.noon Sample.noon []) = [row]
    /\ pick_next_job "worker-1" (Sample.at_second 30) [row] = (t', Some j).
Proof.
  destruct (enqueued_job_is_due_at_once Scenario.submitted 3 Sample.noon Sample.noon
              (Sample.at_second 30) [] "Enqueued job j1" "worker-1"
              eq_refl eq_refl (or_introl eq_refl) eq_refl)
    as (row & E & _ & _ & _ & _ & P).
  destruct P as (t' & j & P); [vm_compute; discriminate|].
  exists row, t', j. split; [exact E|exact P].
Defined.

(** X24: the backoff as the store applies it. After a failed execution
    that is sent to retry with the clock at [clock_retry], the job is
    [failed] and is eligible at a later reading exactly when that
    reading has reached the second of [clock_retry] plus
    [backoff_base ^ attempts] seconds ([attempts] being the count after
    the increment); the fractions of a second of the two readings do
    not count. *)
Theorem retried_job_waits_for_its_second
        (j : job_dict) (run : run_outcome) (timeout : Z)
        (clock clock_retry later : datetime) (backoff_base : Z) (t t' : table) :
  fst (fst (execute_job run timeout)) = false ->
  0 <= d_attempts j -> d_attempts j + 1 <= d_max_retries j ->
  valid clock_retry = true -> valid later = true ->
  process_job_commit j (execute_job run timeout) clock clock_retry backoff_base t
  = Return t' ->
  rows_changed (has_id_of (d_id j))
    (fun r r' =>
       state r' = failed
       /\ (eligible (now_iso later) r' = true
           <-> seconds clock_retry + backoff_base ^ (d_attempts j + 1)
               <= seconds later))
    t t'.
Proof.
  intros Hfail _ Hle _ Vl.
  destruct (execute_job_failure _ _ Hfail) as (out & msg & ->).
  rewrite process_job_commit_failure.
  destruct (Z.gtb_spec (d_attempts j + 1) (d_max_retries j)) as [G|_]; [lia|].
  destruct (plus_seconds clock_retry (backoff_base ^ (d_attempts j + 1)))
    as [due|] eqn:P; [|discriminate].
  destruct (plus_seconds_to_us _ _ _ P) as [Hus Vd].
  intros E. apply Return_inj in E. subst t'.
  apply UPDATE_rows_changed. intros r _ _. split; [reflexivity|].
  unfold eligible, claimable, set_failed. cbn [state due_at state_eqb orb andb].
  rewrite retry_stamp_shape, now_iso_stamp19, (leb_stamps due later Vd Vl).
  unfold seconds. rewrite Hus, Z.div_add by (unfold US_PER_SECOND; lia). reflexivity.
Qed.

Lemma retried_job_waits_for_its_second_witness :
  exists t' r',
    process_job_commit (Sample.claimed 0 3) (execute_job Sample.exit_1 120)
                       Sample.noon Sample.noon 2 [Sample.claimed_row 0 3] = Return t'
    /\ t' = [r']
    /\ eligible (now_iso (mkdt 2024 1 1 12 0 1 999999)) r' = false
    /\ eligible (now_iso (mkdt 2024 1 1 12 0 2 0)) r' = true.
Proof.
  destruct (process_job_commit (Sample.claimed 0 3) (execute_job Sample.exit_1 120)
              Sample.noon Sample.noon 2 [Sample.claimed_row 0 3]) as [t'|e] eqn:C;
    [|vm_compute in C; discriminate].
  pose proof (retried_job_waits_for_its_second (Sample.claimed 0 3) Sample.exit_1 120
                Sample.noon Sample.noon (mkdt 2024 1 1 12 0 2 0) 2
                [Sample.claimed_row 0 3] t' eq_refl ltac:(discriminate)
                ltac:(discriminate) eq_refl eq_refl C) as F.
  inversion F as [|r r' l l' Hr Hl]; subst. inversion Hl; subst.
  exists [r'], r'. split; [reflexivity|]. split; [reflexivity|].
  change (has_id_of (d_id (Sample.claimed 0 3)) (Sample.claimed_row 0 3)) with true in Hr.
  destruct Hr as [_ Hr]. split.
  - vm_compute in C. injection C as <-. reflexivity.
  - apply Hr. vm_compute. discriminate.
Defined.

(** ** Where the canonical form of the stamps is kept *)

Lemma Forall_UPDATE (P : job -> Prop) (where_ : job -> bool) (set : job -> job)
      (t : table) :
  Forall P t -> (forall r, P r -> where_ r = true -> P (set r)) ->
  Forall P (UPDATE where_ set t).
Proof.
  intros F S. unfold UPDATE. induction F as [|r l Hr _ IH]; cbn [map]; constructor.
  - destruct (where_ r) eqn:W; [now apply S|exact Hr].
  - exact IH.
Qed.

Lemma or_str_canonical (x : option string) (clock : datetime) :
  (forall s, x = Some s -> s <> "" -> canonical s = true) ->
  canonical (or_str x (now_iso clock)) = true.
Proof.
  intros H. destruct x as [[|c s]|]; cbn [or_str]; try apply now_iso_canonical.
  apply H; [reflexivity|discriminate].
Qed.

(** X25: every write that takes its stamps from [now_iso] keeps them
    in the form [YYYY-MM-DDTHH:MM:SSZ]. On a table whose rows have
    canonical [created_at], [updated_at] and [due_at], the rows are
    still so after [enqueue_job] (with [run_at] absent, empty or itself
    canonical), after [pick_next_job], after the commit of a success
    or of a move to the DLQ, and after [dlq_retry]. The retry branch of
    [process_job] is the one write that is left out. *)
Theorem canonical_stamps_are_kept (t : table) :
  Forall stamps_canonical t ->
  (forall sub cfg clock_ts clock,
      (forall s, j_run_at sub = Some s -> s <> "" -> canonical s = true) ->
      Forall stamps_canonical (fst (enqueue_job sub cfg clock_ts clock t)))
  /\ (forall worker_id clock,
         Forall stamps_canonical (fst (pick_next_job worker_id clock t)))
  /\ (forall j run timeout clock clock_retry backoff_base t',
         fst (fst (execute_job run timeout)) = true
         \/ d_attempts j + 1 > d_max_retries j ->
         process_job_commit j (execute_job run timeout) clock clock_retry
                            backoff_base t = Return t' ->
         Forall stamps_canonical t')
  /\ (forall job_id clock_due clock_updated,
         Forall stamps_canonical (fst (dlq_retry job_id clock_due clock_updated t))).
Proof.
  intros F. repeat split.
  - intros sub cfg clock_ts clock Hrun.
    destruct (enqueue_job_cases sub cfg clock_ts clock t) as [[e ->]|(cmd & _ & H)];
      [exact F|].
    cbv zeta in H. destruct H as [_ ->]. cbn [fst].
    apply Forall_app. split; [exact F|]. constructor; [|constructor].
    unfold stamps_canonical. cbn [created_at updated_at due_at].
    split; [apply now_iso_canonical|]. split; [apply now_iso_canonical|].
    now apply or_str_canonical.
  - intros w clock. unfold pick_next_job.
    destruct (hd_error _) as [found|]; [|exact F].
    assert (G : Forall stamps_canonical
                  (UPDATE (fun r => String.eqb (id r) (id found) && claimable r)
                          (set_processing w (now_iso clock)) t)).
    { apply Forall_UPDATE; [exact F|]. intros r (A & _ & C) _.
      unfold stamps_canonical. cbn [set_processing created_at updated_at due_at].
      split; [exact A|]. split; [apply now_iso_canonical|exact C]. }
    destruct (RETURNING _ _ t); exact G.
  - intros j run timeout clock clock_retry base t' Hcase.
    destruct (fst (fst (execute_job run timeout))) eqn:S.
    + destruct (execute_job_success _ _ S) as (out & err & _ & ->).
      rewrite process_job_commit_success. intros E. apply Return_inj in E. subst t'.
      apply Forall_UPDATE; [exact F|]. intros r (A & _ & C) _.
      unfold stamps_canonical. cbn [set_completed created_at updated_at due_at].
      split; [exact A|]. split; [apply now_iso_canonical|exact C].
    + destruct Hcase as [Hcase|Hcase]; [discriminate|].
      destruct (execute_job_failure _ _ S) as (out & msg & ->).
      rewrite process_job_commit_failure.
      destruct (Z.gtb_spec (d_attempts j + 1) (d_max_retries j)) as [_|L]; [|lia].
      intros E. apply Return_inj in E. subst t'.
      apply Forall_UPDATE; [exact F|]. intros r (A & _ & C) _.
      unfold stamps_canonical. cbn [set_dead created_at updated_at due_at].
      split; [exact A|]. split; [apply now_iso_canonical|exact C].
  - intros job_id c1 c2. unfold dlq_retry.
    destruct (RETURNING _ _ t); [exact F|]. cbn [fst].
    apply Forall_UPDATE; [exact F|]. intros r (A & _ & _) _.
    unfold stamps_canonical. cbn [set_retry created_at updated_at due_at].
    split; [exact A|]. split; apply now_iso_canonical.
Qed.

Lemma canonical_stamps_are_kept_witness :
  Forall stamps_canonical Sample.jobs
  /\ Forall stamps_canonical (fst (pick_next_job "worker-1" Sample.noon Sample.jobs))
  /\ Forall stamps_canonical
       (fst (dlq_retry "d" Sample.noon (Sample.at_second 1) Sample.jobs)).
Proof.
  assert (F : Forall stamps_canonical Sample.jobs).
  { repeat constructor. }
  destruct (canonical_stamps_are_kept Sample.jobs F) as (_ & P & _ & D).
  split; [exact F|]. split; [apply P|apply D].
Defined.

(** ** The claim of a job and the clock *)

Lemma to_us_whole_second (t : datetime) :
  valid t = true -> microsecond t = 0 -> to_us t = seconds t * US_PER_SECOND.
Proof.
  intros V M. rewrite seconds_of_valid by assumption.
  unfold to_us, US_PER_DAY, US_PER_SECOND. rewrite M. lia.
Qed.

Lemma seconds_le_to_us (t : datetime) : seconds t * US_PER_SECOND <= to_us t.
Proof. unfold seconds. rewrite Z.mul_comm. now apply Z.mul_div_le. Qed.

(** C1 as stated fails: a job submitted with a [run_at] half a second
    past noon, in ISO form with its microseconds, is stored as text and
    is returned a quarter of a second past noon, a quarter of a second
    before it is due: the store compares the text with [now_iso()],
    which has whole seconds. *)
Lemma pick_next_job_returns_a_job_due_later :
  let due := mkdt 2024 1 1 12 0 0 500000 in
  let clock := mkdt 2024 1 1 12 0 0 250000 in
  let sub := mksub (Some "later") (Some (Some "echo hi"))
                   (Some "2024-01-01T12:00:00.500000Z") None None in
  let t := fst (enqueue_job sub 3 (mkdt 2024 1 1 11 0 0 0) (mkdt 2024 1 1 11 0 0 0) []) in
  exists row t' j,
    t = [row]
    /\ due_at row = Py.replace (isoformat "T" due) "+00:00" "Z"
    /\ stored_as_text (due_at row) = true
    /\ pick_next_job "worker-1" clock t = (t', Some j)
    /\ d_id j = id row
    /\ to_us clock < to_us due.
Proof.
  cbv zeta. eexists. eexists. eexists.
  split; [vm_compute; reflexivity|].
  split; [vm_compute; reflexivity|].
  split; [vm_compute; reflexivity|].
  split; [vm_compute; reflexivity|].
  split; vm_compute; reflexivity.
Qed.

(** C1 (amended): on a table with unique identifiers whose [due_at]
    values are stored as text, [pick_next_job] either returns a job and
    has moved exactly that row to [processing] with [picked_by] the
    worker and [updated_at] the reading [now], the row having been
    [pending] or [failed] with [due_at <= now] in the comparison of the
    store (text against [now_iso()], the clock cut to the second) and
    having the least key [(-priority, due_at, created_at)] among the
    eligible rows, or it returns nothing, no row is eligible and the
    table is as it was. A returned job whose [due_at] has the form that
    [now_iso] writes is never due after the clock: the instant its
    stamp denotes is not later than the reading. *)
Theorem pick_next_job_claims_least_eligible
        (worker_id : string) (clock : datetime) (t : table) :
  unique_ids t ->
  Forall (fun r => stored_as_text (due_at r) = true) t ->
  valid clock = true ->
  let now := now_iso clock in
  match pick_next_job worker_id clock t with
  | (t', Some j) =>
      exists r,
        In r t
        /\ d_id j = id r
        /\ d_state j = processing
        /\ (state r = pending \/ state r = failed)
        /\ String.leb (due_at r) now = true
        /\ (forall due, valid due = true -> microsecond due = 0 ->
                        due_at r = now_iso due -> to_us due <= to_us clock)
        /\ (forall r', In r' t -> eligible now r' = true -> key_le r r')
        /\ rows_changed (has_id_of (id r))
             (fun x x' =>
                state x' = processing
                /\ picked_by x' = Some worker_id
                /\ updated_at x' = now
                /\ same_submission x x'
                /\ attempts x' = attempts x
                /\ due_at x' = due_at x
                /\ last_error x' = last_error x
                /\ output x' = output x)
             t t'
  | (t', None) =>
      t' = t /\ forall r, In r t -> eligible now r = false
  end.
Proof.
  intros U _ V now. destruct (pick_next_job worker_id clock t) as [t' [j|]] eqn:E.
  - destruct (pick_next_job_some _ _ _ _ _ U E) as (r & Hin & He & Hle & -> & ->).
    exists r. unfold eligible, claimable in He.
    apply andb_true_iff in He. destruct He as [Hc Hd].
    split; [assumption|]. split; [reflexivity|]. split; [reflexivity|].
    split.
    { destruct (state r); simpl in Hc; try discriminate; auto. }
    split; [assumption|]. split.
    { intros due Vd Md Ed. rewrite Ed in Hd. apply now_iso_leb in Hd; [|assumption..].
      rewrite (to_us_whole_second due Vd Md).
      pose proof (seconds_le_to_us clock) as L. unfold US_PER_SECOND in *. lia. }
    split.
    { intros r' Hr' He'. apply order_leb_key_le. now apply Hle. }
    apply UPDATE_rows_changed. intros x _ _. unfold same_submission. simpl.
    repeat split; reflexivity.
  - now apply (pick_next_job_none worker_id).
Qed.

Lemma pick_next_job_claims_least_eligible_witness :
  unique_ids Sample.jobs
  /\ Forall (fun r => stored_as_text (due_at r) = true) Sample.jobs
  /\ exists t' j,
       pick_next_job "worker-1" Sample.noon Sample.jobs = (t', Some j)
       /\ d_id j = "b"
       /\ to_us (mkdt 2024 1 1 11 0 0 0) <= to_us Sample.noon
       /\ forall r', In r' Sample.jobs ->
                     eligible (now_iso Sample.noon) r' = true -> key_le Sample.job_b r'.
Proof.
  assert (U : unique_ids Sample.jobs).
  { unfold unique_ids. simpl. repeat constructor; simpl; intuition discriminate. }
  assert (F : Forall (fun r => stored_as_text (due_at r) = true) Sample.jobs).
  { repeat constructor. }
  split; [exact U|]. split; [exact F|].
  generalize (pick_next_job_claims_least_eligible "worker-1" Sample.noon Sample.jobs
                U F eq_refl).
  destruct (pick_next_job "worker-1" Sample.noon Sample.jobs) as [t' [j|]] eqn:E;
    [|vm_compute in E; discriminate].
  cbv zeta. intros (r & Hin & Hid & _ & _ & _ & Hdue & Hle & _).
  exists t', j. split; [reflexivity|].
  assert (X : d_id j = "b") by (vm_compute in E; now inversion E).
  split; [exact X|].
  assert (r = Sample.job_b) as ->.
  { rewrite X in Hid. simpl in Hin.
    destruct Hin as [<-|[<-|[<-|[<-|[]]]]]; try discriminate Hid. reflexivity. }
  split; [|exact Hle].
  apply Hdue; reflexivity.
Defined.
